(** * flowdesk-qa-ts: the idempotent order-execution engine

    A shallow embedding of [TradingEngine] (src/engine.ts) together with the
    data shapes of src/types.ts, and the properties the specification states
    about it.  The second half covers the code around the engine:
    deliveries of many events, [executeOrder] (src/executeOrder.ts), the
    [ExecutionConsumer] of the tests and the mock engine of the end-to-end
    tests.

    Modelling conventions.
    - A JavaScript [number] is an IEEE 754 binary64 value.  The file has two
      models of the arithmetic.  In the exact model (the top-level
      definitions) a quantity or a balance is an integer in [Z]; it serves
      the properties that involve no arithmetic on the numbers (guards,
      idempotence, the processed-event set).  In the binary64 model (module
      [F64] and its siblings) a number is a [spec_float] of the Standard
      Library with precision 53 and maximal exponent 1024, and [+], [-],
      [Math.min] and the comparisons are the binary64 ones; the
      properties that depend on how sums and differences are rounded are
      stated there, with the range of safe integers as an explicit
      hypothesis where it is needed.  The two models are proved to agree
      on safe integers.
    - [Set<string>] objects live in a store and are held by reference, as in
      JavaScript: the engine's private field [processedEventIds] is a
      location, and [new Set(...)] allocates a fresh one.
    - The object returned by [applyExecution] is a JavaScript object literal:
      a finite map from property names to values.  A property the literal
      does not mention reads as [None] ([undefined]).
    - The [order] and [account] objects are carried by value inside the
      engine record. *)

From Stdlib Require Import ZArith String List Lia.
From Stdlib Require Import Floats.SpecFloat.
From stdpp Require Import base decidable option gmap strings list fin_maps fin_sets.

Import ListNotations.
Local Open Scope string_scope.
Local Open Scope Z_scope.

(** ** Data shapes (src/types.ts) *)

Inductive OrderStatus : Set :=
  | OPEN
  | PARTIALLY_FILLED
  | FILLED.

#[global] Instance OrderStatus_eq_dec : EqDecision OrderStatus.
Proof. solve_decision. Defined.

Record Order : Set := mkOrder {
  id : string;
  quantity : Z;
  filledQuantity : Z;
  status : OrderStatus
}.

Record Account : Set := mkAccount {
  balance : Z
}.

Record ExecutionEvent : Set := mkEvent {
  type : string;
  eventId : string;
  orderId : string;
  executedQuantity : Z
}.

(** The two sides of an order, as src/executeOrder.ts declares them.  The
    [Order] of src/types.ts, which the engine uses, has no such field. *)
Inductive OrderSide : Set :=
  | BUY
  | SELL.

(** ** JavaScript values, objects and the store of [Set] objects *)

Inductive JsValue : Set :=
  | JBool (b : bool)
  | JString (s : string)
  | JNumber (n : Z).

#[global] Instance JsValue_eq_dec : EqDecision JsValue.
Proof. solve_decision. Defined.

(** The result of [applyExecution]: an object literal. *)
Abbreviation ApplyResult := (gmap string JsValue).

Abbreviation loc := positive.

(** Every [Set<string>] object that has been allocated, by location. *)
Abbreviation store := (gmap loc (gset string)).

(** [s.has(x)] *)
Definition Set_has (σ : store) (s : loc) (x : string) : bool :=
  bool_decide (x ∈ (σ !!! s)).

(** [s.add(x)] *)
Definition Set_add (σ : store) (s : loc) (x : string) : store :=
  <[s := {[x]} ∪ (σ !!! s)]> σ.

(** [s.delete(x)] *)
Definition Set_delete (σ : store) (s : loc) (x : string) : store :=
  <[s := (σ !!! s) ∖ {[x]}]> σ.

(** [s.clear()] *)
Definition Set_clear (σ : store) (s : loc) : store :=
  <[s := ∅]> σ.

(** [new Set()] *)
Definition Set_new (σ : store) : store * loc :=
  let r := fresh (dom σ) in (<[r := ∅]> σ, r).

(** [new Set(s)]: a new object holding the elements of [s]. *)
Definition Set_new_from (σ : store) (s : loc) : store * loc :=
  let r := fresh (dom σ) in (<[r := σ !!! s]> σ, r).

(** ** The engine (src/engine.ts) *)

Record TradingEngine : Set := mkEngine {
  order : Order;
  account : Account;
  processedEventIds : loc
}.

(** [new TradingEngine(order, account)] *)
Definition newTradingEngine (σ : store) (o : Order) (a : Account)
  : store * TradingEngine :=
  let '(σ', p) := Set_new σ in
  (σ', {| order := o; account := a; processedEventIds := p |}).

(** The object literals [applyExecution] returns. *)
Definition rejected (why : string) : ApplyResult :=
  {[ "applied" := JBool false; "reason" := JString why ]}.

Definition appliedWith (why : string) : ApplyResult :=
  {[ "applied" := JBool true; "reason" := JString why ]}.

Definition appliedPlain : ApplyResult :=
  {[ "applied" := JBool true ]}.

(** [this.order.filledQuantity += n] *)
Definition addFilled (o : Order) (n : Z) : Order :=
  {| id := id o; quantity := quantity o;
     filledQuantity := filledQuantity o + n; status := status o |}.

(** [this.order.status = s] *)
Definition setStatus (o : Order) (s : OrderStatus) : Order :=
  {| id := id o; quantity := quantity o;
     filledQuantity := filledQuantity o; status := s |}.

(** The status update at the end of a successful apply. *)
Definition updateStatus (o : Order) : Order :=
  if decide (filledQuantity o = quantity o) then setStatus o FILLED
  else if decide (filledQuantity o > 0) then setStatus o PARTIALLY_FILLED
  else setStatus o OPEN.

Definition applyExecution (c : store * TradingEngine) (evt : ExecutionEvent)
  : (store * TradingEngine) * ApplyResult :=
  let '(σ, this) := c in
  if decide (type evt ≠ "execution") then
    (c, rejected "unsupported_event")
  else if Set_has σ (processedEventIds this) (eventId evt) then
    (c, rejected "duplicate_event")
  else if decide (orderId evt ≠ id (order this)) then
    (c, rejected "unknown_order")
  else if decide (executedQuantity evt ≤ 0) then
    (c, rejected "invalid_executed_quantity")
  else if decide (status (order this) = FILLED) then
    (c, rejected "already_filled")
  else
    let remaining := quantity (order this) - filledQuantity (order this) in
    let effectiveQty := Z.min (executedQuantity evt) remaining in
    let order1 := addFilled (order this) effectiveQty in
    let account1 := {| balance := balance (account this) - effectiveQty |} in
    let order2 := updateStatus order1 in
    let σ' := Set_add σ (processedEventIds this) (eventId evt) in
    ((σ', {| order := order2; account := account1;
             processedEventIds := processedEventIds this |}),
     if decide (effectiveQty < executedQuantity evt)
     then appliedWith "capped_overfill"
     else appliedPlain).

(** [getProcessedEventIds()]: [return new Set(this.processedEventIds)] *)
Definition getProcessedEventIds (c : store * TradingEngine)
  : (store * TradingEngine) * loc :=
  let '(σ, this) := c in
  let '(σ', r) := Set_new_from σ (processedEventIds this) in
  ((σ', this), r).

(** [clearProcessedEvents()]: [this.processedEventIds.clear()] *)
Definition clearProcessedEvents (c : store * TradingEngine)
  : store * TradingEngine :=
  let '(σ, this) := c in
  (Set_clear σ (processedEventIds this), this).

(** ** Reading a configuration and a result *)

(** The contents of the engine's processed-event set. *)
Definition processed (c : store * TradingEngine) : gset string :=
  c.1 !!! processedEventIds c.2.

Definition orderOf (c : store * TradingEngine) : Order := order c.2.
Definition accountOf (c : store * TradingEngine) : Account := account c.2.

(** [result.applied], [result.reason], [result.effectiveQuantity] *)
Definition applied (r : ApplyResult) : option JsValue := r !! "applied".
Definition reason (r : ApplyResult) : option JsValue := r !! "reason".
Definition effectiveQuantity (r : ApplyResult) : option JsValue :=
  r !! "effectiveQuantity".

(** What the engine exposes of a configuration. *)
Definition view (c : store * TradingEngine) : Order * Account * gset string :=
  (orderOf c, accountOf c, processed c).

(** Delivering a list of events one after the other: the configuration and
    the result after every call. *)
Fixpoint applyAll (c : store * TradingEngine) (evts : list ExecutionEvent)
  : list ((store * TradingEngine) * ApplyResult) :=
  match evts with
  | [] => []
  | evt :: rest =>
      let cr := applyExecution c evt in
      cr :: applyAll cr.1 rest
  end.

(** What a caller can do to a [Set] it holds a reference to. *)
Inductive SetMutation : Set :=
  | DoAdd (x : string)
  | DoDelete (x : string)
  | DoClear.

Definition mutate (s : loc) (σ : store) (m : SetMutation) : store :=
  match m with
  | DoAdd x => Set_add σ s x
  | DoDelete x => Set_delete σ s x
  | DoClear => Set_clear σ s
  end.

Definition mutateAll (s : loc) (σ : store) (ms : list SetMutation) : store :=
  foldl (mutate s) σ ms.

(** The engine's set is an allocated object of the store. *)
Definition allocated (c : store * TradingEngine) : Prop :=
  processedEventIds c.2 ∈ dom c.1.

(** ** The specification's side *)

(** The rejection conditions of the specification's section 4.1, in the
    order it lists them, each with its reason. *)
Definition spec_rejections
  : list ((store * TradingEngine → ExecutionEvent → bool) * string) :=
  [ (λ _ evt, bool_decide (type evt ≠ "execution"), "unsupported_event");
    (λ c evt, bool_decide (eventId evt ∈ processed c), "duplicate_event");
    (λ c evt, bool_decide (orderId evt ≠ id (orderOf c)), "unknown_order");
    (λ _ evt, bool_decide (executedQuantity evt ≤ 0),
       "invalid_executed_quantity");
    (λ c _, bool_decide (status (orderOf c) = FILLED), "already_filled") ].

(** The reason of the first condition that matches, if any does. *)
Definition spec_firstRejection (c : store * TradingEngine)
  (evt : ExecutionEvent) : option string :=
  snd <$> List.find (λ chk, chk.1 c evt) spec_rejections.

(** The status the specification's section 3 assigns to a fill level:
    0 gives OPEN, strictly between 0 and the quantity PARTIALLY_FILLED, the
    quantity itself FILLED. *)
Definition spec_status (filled qty : Z) : option OrderStatus :=
  if decide (filled = 0) then Some OPEN
  else if decide (0 < filled < qty) then Some PARTIALLY_FILLED
  else if decide (filled = qty) then Some FILLED
  else None.

(** An order as the specification's section 3 wants it. *)
Definition consistent (o : Order) : Prop :=
  0 < quantity o ∧ 0 ≤ filledQuantity o ≤ quantity o ∧
  spec_status (filledQuantity o) (quantity o) = Some (status o).

(** The specification's balance rule (section 4.1, step 7): the change of
    the balance for a fill of [q] on an order of the given side. *)
Definition spec_balanceChange (side : OrderSide) (q : Z) : Z :=
  match side with
  | BUY => - q
  | SELL => q
  end.

(** ** Notions used in the statements *)

(** The source's local [effectiveQty], as a function of the configuration
    and the event. *)
Definition effective (c : store * TradingEngine) (evt : ExecutionEvent) : Z :=
  Z.min (executedQuantity evt)
        (quantity (orderOf c) - filledQuantity (orderOf c)).

(** The event gets through all five guards. *)
Definition passes (c : store * TradingEngine) (evt : ExecutionEvent) : Prop :=
  type evt = "execution" ∧ (eventId evt ∉ processed c) ∧
  orderId evt = id (orderOf c) ∧ 0 < executedQuantity evt ∧
  status (orderOf c) ≠ FILLED.

(** The fill level is within the order's bounds. *)
Definition bounded (o : Order) : Prop :=
  0 ≤ filledQuantity o ≤ quantity o.

(** Two configurations that show the same engine: equal order, account and
    set reference, and equal contents of the engine's set. *)
Definition same_engine (c1 c2 : store * TradingEngine) : Prop :=
  c1.2 = c2.2 ∧ processed c1 = processed c2.

(** The configurations a program gets to through the engine's interface:
    construction, then any calls of its three methods. *)
Inductive reachable : store * TradingEngine → Prop :=
  | reach_new σ o a :
      reachable (newTradingEngine σ o a)
  | reach_apply c evt :
      reachable c → reachable (applyExecution c evt).1
  | reach_get c :
      reachable c → reachable (getProcessedEventIds c).1
  | reach_clear c :
      reachable c → reachable (clearProcessedEvents c).

(** ** Delivering many events *)

(** The configuration after delivering a list of events one after the
    other. *)
Fixpoint deliverAll (c : store * TradingEngine) (evts : list ExecutionEvent)
  : store * TradingEngine :=
  match evts with
  | [] => c
  | evt :: rest => deliverAll (applyExecution c evt).1 rest
  end.

(** The call returned [applied: true]. *)
Definition isApplied (r : ApplyResult) : bool :=
  bool_decide (applied r = Some (JBool true)).

(** How many of the calls of a delivery returned [applied: true]. *)
Definition appliedCalls (c : store * TradingEngine)
  (evts : list ExecutionEvent) : nat :=
  length (List.filter (λ cr, isApplied cr.2) (applyAll c evts)).

(** The sum of the quantities the events claim. *)
Definition totalQuantity (evts : list ExecutionEvent) : Z :=
  foldr (λ evt s, executedQuantity evt + s) 0 evts.

(** An execution event for the engine's order with a positive quantity. *)
Definition wellFormedFor (c : store * TradingEngine) (evt : ExecutionEvent)
  : Prop :=
  type evt = "execution" ∧ orderId evt = id (orderOf c) ∧
  0 < executedQuantity evt.

(** ** [executeOrder] (src/executeOrder.ts) *)

(** The function takes the time from [Date.now()]; here the reading of the
    clock, in milliseconds, is the argument [now]. *)
Module ExecuteOrder.

Module LastExecution.
Record t : Set := mk { quantity : Z; timestamp : Z }.
End LastExecution.

Record Order : Set := mkOrder {
  id : string;
  side : OrderSide;
  quantity : Z;
  filledQuantity : Z;
  status : OrderStatus;
  _lastExecution : option LastExecution.t
}.

Record Account : Set := mkAccount {
  balance : Z
}.

(** The guard of the early return:
    [order._lastExecution?.quantity === executedQuantity
     && now - order._lastExecution.timestamp < 100]. *)
Definition isDuplicate (now : Z) (order : Order) (executedQuantity : Z)
  : bool :=
  match _lastExecution order with
  | Some last =>
      bool_decide (LastExecution.quantity last = executedQuantity)
      && bool_decide (now - LastExecution.timestamp last < 100)
  | None => false
  end.

(** The fill of [actualQuantity] units, with the note of the execution. *)
Definition fill (now : Z) (order : Order) (executedQuantity : Z)
  (actualQuantity : Z) : Order :=
  {| id := id order; side := side order; quantity := quantity order;
     filledQuantity := filledQuantity order + actualQuantity;
     status := status order;
     _lastExecution :=
       Some (LastExecution.mk executedQuantity now) |}.

(** [order.status = ...] at the end of the function. *)
Definition updateStatus (order : Order) : Order :=
  {| id := id order; side := side order; quantity := quantity order;
     filledQuantity := filledQuantity order;
     status :=
       if decide (filledQuantity order >= quantity order) then FILLED
       else if decide (filledQuantity order > 0) then PARTIALLY_FILLED
       else OPEN;
     _lastExecution := _lastExecution order |}.

Definition executeOrder (now : Z) (order : Order) (account : Account)
  (executedQuantity : Z) : Order * Account :=
  if isDuplicate now order executedQuantity then (order, account)
  else
    let actualQuantity :=
      Z.min executedQuantity (quantity order - filledQuantity order) in
    let '(order1, account1) :=
      if decide (actualQuantity > 0) then
        (fill now order executedQuantity actualQuantity,
         {| balance :=
              balance account
              + match side order with
                | BUY => - actualQuantity
                | SELL => actualQuantity
                end |})
      else (order, account) in
    (updateStatus order1, account1).

(** An order whose status is the specification's function of its fill
    level. *)
Definition consistent (o : Order) : Prop :=
  0 < quantity o ∧ 0 ≤ filledQuantity o ≤ quantity o ∧
  spec_status (filledQuantity o) (quantity o) = Some (status o).

(** The orders of the repository's tests. *)
Definition buy10 : Order := mkOrder "O3" BUY 10 0 OPEN None.
Definition sell10 : Order := mkOrder "O6" SELL 10 0 OPEN None.

End ExecuteOrder.

(** ** [ExecutionConsumer] (the client-side consumer kept with the tests,
    src/tests/executeOrder.spec.ts) *)

(** Its [OrderState], [AccountState] and [ExecutionEvent] have the fields
  of [Order], [Account] and [ExecutionEvent] above (the event's optional
  [timestamp] is never read).  The private set [seen] never leaves the
  object and is carried by value.  A property set to [undefined] in a
  result literal is left out of the object: both read as [undefined]. *)
Module Consumer.

Record ExecutionConsumer : Set := mk {
  order : Order;
  account : Account;
  seen : gset string;
  appliedCount : Z;
  rejectedCount : Z;
  initialBalance : Z
}.

(** [new ExecutionConsumer(order, account)] *)
Definition new (o : Order) (a : Account) : ExecutionConsumer :=
  {| order := o; account := a; seen := ∅;
     appliedCount := 0; rejectedCount := 0;
     initialBalance := balance a |}.

(** [this.rejectedCount++; return { applied: false, reason }] *)
Definition reject (this : ExecutionConsumer) (why : string)
  : ExecutionConsumer * ApplyResult :=
  ({| order := order this; account := account this; seen := seen this;
      appliedCount := appliedCount this;
      rejectedCount := rejectedCount this + 1;
      initialBalance := initialBalance this |},
   rejected why).

(** The result of a successful apply. *)
Definition success (isCapped : bool) (effective : Z) : ApplyResult :=
  if isCapped
  then {[ "applied" := JBool true; "reason" := JString "capped";
          "effectiveQuantity" := JNumber effective ]}
  else {[ "applied" := JBool true;
          "effectiveQuantity" := JNumber effective ]}.

Definition apply (this : ExecutionConsumer) (evt : ExecutionEvent)
  : ExecutionConsumer * ApplyResult :=
  if bool_decide (eventId evt ∈ seen this) then reject this "duplicate"
  else if decide (orderId evt ≠ id (order this)) then
    reject this "wrong_order"
  else if decide (executedQuantity evt ≤ 0) then reject this "invalid_qty"
  else if decide (status (order this) = FILLED) then
    reject this "already_filled"
  else
    let remaining := quantity (order this) - filledQuantity (order this) in
    let effective := Z.min (executedQuantity evt) remaining in
    let order1 := addFilled (order this) effective in
    let account1 := {| balance := balance (account this) - effective |} in
    let order2 := updateStatus order1 in
    let isCapped := bool_decide (effective < executedQuantity evt) in
    ({| order := order2; account := account1;
        seen := {[eventId evt]} ∪ seen this;
        appliedCount := appliedCount this + 1;
        rejectedCount := rejectedCount this;
        initialBalance := initialBalance this |},
     success isCapped effective).

Module Metrics.
Record t : Set := mk {
  appliedCount : Z;
  rejectedCount : Z;
  seenCount : Z;
  duplicateCount : Z
}.
End Metrics.

Definition getMetrics (this : ExecutionConsumer) : Metrics.t :=
  {| Metrics.appliedCount := appliedCount this;
     Metrics.rejectedCount := rejectedCount this;
     Metrics.seenCount := Z.of_nat (size (seen this));
     Metrics.duplicateCount :=
       rejectedCount this
       - (appliedCount this + rejectedCount this
          - Z.of_nat (size (seen this))) |}.

(** The errors [assertInvariants] throws, in the order it checks. *)
Inductive Violation : Set :=
  | FilledNegative
  | FilledAboveQuantity
  | ZeroButNotOpen
  | PartButNotPartiallyFilled
  | FullButNotFilled
  | BalanceIncreased.

(** [assertInvariants()]: [None] when it returns, the error otherwise. *)
Definition assertInvariants (this : ExecutionConsumer) : option Violation :=
  let o := order this in
  if decide (filledQuantity o < 0) then Some FilledNegative
  else if decide (filledQuantity o > quantity o) then
    Some FilledAboveQuantity
  else if decide (filledQuantity o = 0 ∧ status o ≠ OPEN) then
    Some ZeroButNotOpen
  else if decide (filledQuantity o > 0 ∧ filledQuantity o < quantity o
                  ∧ status o ≠ PARTIALLY_FILLED) then
    Some PartButNotPartiallyFilled
  else if decide (filledQuantity o = quantity o ∧ status o ≠ FILLED) then
    Some FullButNotFilled
  else if decide (balance (account this) > initialBalance this) then
    Some BalanceIncreased
  else None.

(** [clearCache()] *)
Definition clearCache (this : ExecutionConsumer) : ExecutionConsumer :=
  {| order := order this; account := account this; seen := ∅;
     appliedCount := appliedCount this;
     rejectedCount := rejectedCount this;
     initialBalance := initialBalance this |}.

(** The consumer after a list of events. *)
Fixpoint applyAll (this : ExecutionConsumer) (evts : list ExecutionEvent)
  : ExecutionConsumer :=
  match evts with
  | [] => this
  | evt :: rest => applyAll (apply this evt).1 rest
  end.

(** The guards of [apply], as one condition. *)
Definition accepts (this : ExecutionConsumer) (evt : ExecutionEvent) : Prop :=
  (eventId evt ∉ seen this) ∧ orderId evt = id (order this) ∧
  0 < executedQuantity evt ∧ status (order this) ≠ FILLED.

(** The source's local [effective]. *)
Definition effectiveOf (this : ExecutionConsumer) (evt : ExecutionEvent) : Z :=
  Z.min (executedQuantity evt)
        (quantity (order this) - filledQuantity (order this)).

(** The consumer's reason for each reason of the engine. *)
Definition shortReason (why : string) : string :=
  if decide (why = "duplicate_event") then "duplicate"
  else if decide (why = "unknown_order") then "wrong_order"
  else if decide (why = "invalid_executed_quantity") then "invalid_qty"
  else if decide (why = "capped_overfill") then "capped"
  else why.

Definition shortReasonValue (v : JsValue) : JsValue :=
  match v with
  | JString why => JString (shortReason why)
  | _ => v
  end.

(** The consumer and an engine configuration hold the same order, account
    and processed ids. *)
Definition matches (this : ExecutionConsumer) (c : store * TradingEngine)
  : Prop :=
  order this = orderOf c ∧ account this = accountOf c ∧
  seen this = processed c.

End Consumer.

(** ** The mock engine of the end-to-end tests (src/tests/e2e.spec.ts) *)

(** Its module-level [orders] map and [processedEventIds] set are the
    state; [broadcast(evt)] is recorded as the list of the events it was
    called with.  The [Order] objects of the map have the fields of [Order]
    above and are updated in place. *)
Module MockEngine.

Record State : Type := mk {
  orders : gmap string Order;
  processedEventIds : gset string;
  broadcasts : list ExecutionEvent
}.

(** [order.status = filledQuantity === quantity ? "FILLED"
                                                 : "PARTIALLY_FILLED"] *)
Definition updateStatus (o : Order) : Order :=
  if decide (filledQuantity o = quantity o) then setStatus o FILLED
  else setStatus o PARTIALLY_FILLED.

Definition applyExecution (s : State) (evt : ExecutionEvent)
  : State * ApplyResult :=
  if bool_decide (eventId evt ∈ processedEventIds s) then
    (s, rejected "duplicate_event")
  else
    match orders s !! orderId evt with
    | None => (s, rejected "unknown_order")
    | Some order =>
        if decide (executedQuantity evt ≤ 0) then
          (s, rejected "invalid_executed_quantity")
        else if decide (status order = FILLED) then
          (s, rejected "already_filled")
        else
          let remaining := quantity order - filledQuantity order in
          let effectiveQty := Z.min (executedQuantity evt) remaining in
          let order1 := updateStatus (addFilled order effectiveQty) in
          ({| orders := <[orderId evt := order1]> (orders s);
              processedEventIds := {[eventId evt]} ∪ processedEventIds s;
              broadcasts := broadcasts s ++ [evt] |},
           if decide (effectiveQty < executedQuantity evt)
           then appliedWith "capped_overfill"
           else appliedPlain)
    end.

(** The state after a list of calls. *)
Fixpoint applyAll (s : State) (evts : list ExecutionEvent) : State :=
  match evts with
  | [] => s
  | evt :: rest => applyAll (applyExecution s evt).1 rest
  end.

(** The state the module starts in, with some orders created. *)
Definition initial (os : gmap string Order) : State :=
  {| orders := os; processedEventIds := ∅; broadcasts := [] |}.

End MockEngine.

(** ** JavaScript numbers: binary64 *)

Module Number.

(** A binary64 value, as the Standard Library specifies it. *)
Definition t : Set := spec_float.

Definition prec : Z := 53.
Definition emax : Z := 1024.

(** The number a decimal integer literal denotes: the nearest binary64
    value. *)
Definition ofZ (n : Z) : t := binary_normalize prec emax n 0 false.

Definition zero : t := S754_zero false.

(** [x + y] and [x - y] *)
Definition add : t → t → t := SFadd prec emax.
Definition sub : t → t → t := SFsub prec emax.

(** [- x] *)
Definition opp : t → t := SFopp.

(** [x === y], [x < y], [x <= y] *)
Definition eqb : t → t → bool := SFeqb.
Definition ltb : t → t → bool := SFltb.
Definition leb : t → t → bool := SFleb.

(** [Math.min(x, y)]: NaN when either is NaN, and -0 below +0. *)
Definition min (x y : t) : t :=
  match SFcompare x y with
  | None => S754_nan
  | Some Lt => x
  | Some Gt => y
  | Some Eq => match x with S754_zero true => x | _ => y end
  end.

(** The safe integers: [Number.isSafeInteger]. *)
Definition safe (n : Z) : Prop := - (2 ^ 53 - 1) ≤ n ≤ 2 ^ 53 - 1.

(** The exponent and the mantissa of the binary64 value of a non-zero safe
    integer. *)
Definition canonT (n : Z) : Z :=
  Zpos (digits2_pos (Z.to_pos (Z.abs n))) - 53.
Definition canonM (n : Z) : positive :=
  Z.to_pos (Z.abs n * 2 ^ (- canonT n)).

End Number.

(** ** The engine on binary64 numbers (src/engine.ts, src/types.ts) *)

Module F64.

Record Order : Set := mkOrder {
  id : string;
  quantity : Number.t;
  filledQuantity : Number.t;
  status : OrderStatus
}.

Record Account : Set := mkAccount {
  balance : Number.t
}.

Record ExecutionEvent : Set := mkEvent {
  type : string;
  eventId : string;
  orderId : string;
  executedQuantity : Number.t
}.

Record TradingEngine : Set := mkEngine {
  order : Order;
  account : Account;
  processedEventIds : loc
}.

(** [new TradingEngine(order, account)] *)
Definition newTradingEngine (σ : store) (o : Order) (a : Account)
  : store * TradingEngine :=
  let '(σ', p) := Set_new σ in
  (σ', {| order := o; account := a; processedEventIds := p |}).

(** [this.order.filledQuantity += n] *)
Definition addFilled (o : Order) (n : Number.t) : Order :=
  {| id := id o; quantity := quantity o;
     filledQuantity := Number.add (filledQuantity o) n; status := status o |}.

(** [this.order.status = s] *)
Definition setStatus (o : Order) (s : OrderStatus) : Order :=
  {| id := id o; quantity := quantity o;
     filledQuantity := filledQuantity o; status := s |}.

(** The status update at the end of a successful apply. *)
Definition updateStatus (o : Order) : Order :=
  if Number.eqb (filledQuantity o) (quantity o) then setStatus o FILLED
  else if Number.ltb Number.zero (filledQuantity o)
       then setStatus o PARTIALLY_FILLED
  else setStatus o OPEN.

Definition applyExecution (c : store * TradingEngine) (evt : ExecutionEvent)
  : (store * TradingEngine) * ApplyResult :=
  let '(σ, this) := c in
  if decide (type evt ≠ "execution") then
    (c, rejected "unsupported_event")
  else if Set_has σ (processedEventIds this) (eventId evt) then
    (c, rejected "duplicate_event")
  else if decide (orderId evt ≠ id (order this)) then
    (c, rejected "unknown_order")
  else if Number.leb (executedQuantity evt) Number.zero then
    (c, rejected "invalid_executed_quantity")
  else if decide (status (order this) = FILLED) then
    (c, rejected "already_filled")
  else
    let remaining :=
      Number.sub (quantity (order this)) (filledQuantity (order this)) in
    let effectiveQty := Number.min (executedQuantity evt) remaining in
    let order1 := addFilled (order this) effectiveQty in
    let account1 :=
      {| balance := Number.sub (balance (account this)) effectiveQty |} in
    let order2 := updateStatus order1 in
    let σ' := Set_add σ (processedEventIds this) (eventId evt) in
    ((σ', {| order := order2; account := account1;
             processedEventIds := processedEventIds this |}),
     if Number.ltb effectiveQty (executedQuantity evt)
     then appliedWith "capped_overfill"
     else appliedPlain).

(** [clearProcessedEvents()] *)
Definition clearProcessedEvents (c : store * TradingEngine)
  : store * TradingEngine :=
  let '(σ, this) := c in
  (Set_clear σ (processedEventIds this), this).

Definition processed (c : store * TradingEngine) : gset string :=
  c.1 !!! processedEventIds c.2.
Definition orderOf (c : store * TradingEngine) : Order := order c.2.
Definition accountOf (c : store * TradingEngine) : Account := account c.2.

(** The source's local [effectiveQty]. *)
Definition effective (c : store * TradingEngine) (evt : ExecutionEvent)
  : Number.t :=
  Number.min (executedQuantity evt)
    (Number.sub (quantity (orderOf c)) (filledQuantity (orderOf c))).

(** Delivering a list of events: the configuration and the result after
    every call, and the configuration at the end. *)
Fixpoint applyAll (c : store * TradingEngine) (evts : list ExecutionEvent)
  : list ((store * TradingEngine) * ApplyResult) :=
  match evts with
  | [] => []
  | evt :: rest =>
      let cr := applyExecution c evt in
      cr :: applyAll cr.1 rest
  end.

Fixpoint deliverAll (c : store * TradingEngine) (evts : list ExecutionEvent)
  : store * TradingEngine :=
  match evts with
  | [] => c
  | evt :: rest => deliverAll (applyExecution c evt).1 rest
  end.

(** The fill level is within the order's bounds. *)
Definition bounded (o : Order) : Prop :=
  Number.leb Number.zero (filledQuantity o) = true ∧
  Number.leb (filledQuantity o) (quantity o) = true.

(** The status the specification's section 3 assigns to a fill level. *)
Definition spec_status (filled qty : Number.t) : option OrderStatus :=
  if Number.eqb filled Number.zero then Some OPEN
  else if Number.ltb Number.zero filled && Number.ltb filled qty
       then Some PARTIALLY_FILLED
  else if Number.eqb filled qty then Some FILLED
  else None.

(** An order as the specification's section 3 wants it. *)
Definition consistent (o : Order) : Prop :=
  Number.ltb Number.zero (quantity o) = true ∧ bounded o ∧
  spec_status (filledQuantity o) (quantity o) = Some (status o).

End F64.

(** An integer-valued order, account, event or configuration as the
    program sees it: every integer [n] becomes the number [ofZ n]. *)
Definition liftOrder (o : Order) : F64.Order :=
  {| F64.id := id o; F64.quantity := Number.ofZ (quantity o);
     F64.filledQuantity := Number.ofZ (filledQuantity o);
     F64.status := status o |}.

Definition liftAccount (a : Account) : F64.Account :=
  {| F64.balance := Number.ofZ (balance a) |}.

Definition liftEvent (evt : ExecutionEvent) : F64.ExecutionEvent :=
  {| F64.type := type evt; F64.eventId := eventId evt;
     F64.orderId := orderId evt;
     F64.executedQuantity := Number.ofZ (executedQuantity evt) |}.

Definition lift (c : store * TradingEngine) : store * F64.TradingEngine :=
  (c.1, {| F64.order := liftOrder (order c.2);
           F64.account := liftAccount (account c.2);
           F64.processedEventIds := processedEventIds c.2 |}).

(** The numbers of an order and of an event are safe integers. *)
Definition safeOrder (o : Order) : Prop :=
  Number.safe (quantity o) ∧ Number.safe (filledQuantity o).

Definition safeEvent (evt : ExecutionEvent) : Prop :=
  Number.safe (executedQuantity evt).

(** A binary64 configuration shows the order and the processed events of
    an integer-valued configuration; the account is left free. *)
Definition simO (fc : store * F64.TradingEngine) (c : store * TradingEngine)
  : Prop :=
  fc.1 = c.1 ∧ F64.order fc.2 = liftOrder (order c.2) ∧
  F64.processedEventIds fc.2 = processedEventIds c.2.

(** A configuration whose numbers stay safe integers whatever is
    delivered: the fill level is within bounds, and the quantity, the
    balance and the balance less what remains to be filled are safe. *)
Definition safeConfig (c : store * TradingEngine) : Prop :=
  bounded (orderOf c) ∧ Number.safe (quantity (orderOf c)) ∧
  Number.safe (balance (accountOf c)) ∧
  Number.safe (balance (accountOf c)
               - (quantity (orderOf c) - filledQuantity (orderOf c))).

(** ** [executeOrder] on binary64 numbers (src/executeOrder.ts) *)

(** The reading of the clock is the argument [now], a number. *)
Module ExecuteOrder64.

Module LastExecution.
Record t : Set := mk { quantity : Number.t; timestamp : Number.t }.
End LastExecution.

Record Order : Set := mkOrder {
  id : string;
  side : OrderSide;
  quantity : Number.t;
  filledQuantity : Number.t;
  status : OrderStatus;
  _lastExecution : option LastExecution.t
}.

Record Account : Set := mkAccount {
  balance : Number.t
}.

(** [order._lastExecution?.quantity === executedQuantity
     && now - order._lastExecution.timestamp < 100] *)
Definition isDuplicate (now : Number.t) (order : Order)
  (executedQuantity : Number.t) : bool :=
  match _lastExecution order with
  | Some last =>
      Number.eqb (LastExecution.quantity last) executedQuantity
      && Number.ltb (Number.sub now (LastExecution.timestamp last))
                    (Number.ofZ 100)
  | None => false
  end.

Definition fill (now : Number.t) (order : Order)
  (executedQuantity actualQuantity : Number.t) : Order :=
  {| id := id order; side := side order; quantity := quantity order;
     filledQuantity := Number.add (filledQuantity order) actualQuantity;
     status := status order;
     _lastExecution := Some (LastExecution.mk executedQuantity now) |}.

(** [filledQuantity >= quantity ? "FILLED"
     : filledQuantity > 0 ? "PARTIALLY_FILLED" : "OPEN"] *)
Definition updateStatus (order : Order) : Order :=
  {| id := id order; side := side order; quantity := quantity order;
     filledQuantity := filledQuantity order;
     status :=
       if Number.leb (quantity order) (filledQuantity order) then FILLED
       else if Number.ltb Number.zero (filledQuantity order)
            then PARTIALLY_FILLED
       else OPEN;
     _lastExecution := _lastExecution order |}.

Definition executeOrder (now : Number.t) (order : Order) (account : Account)
  (executedQuantity : Number.t) : Order * Account :=
  if isDuplicate now order executedQuantity then (order, account)
  else
    let actualQuantity :=
      Number.min executedQuantity
        (Number.sub (quantity order) (filledQuantity order)) in
    let '(order1, account1) :=
      if Number.ltb Number.zero actualQuantity then
        (fill now order executedQuantity actualQuantity,
         {| balance :=
              Number.add (balance account)
                match side order with
                | BUY => Number.opp actualQuantity
                | SELL => actualQuantity
                end |})
      else (order, account) in
    (updateStatus order1, account1).

(** An order whose status is the specification's function of its fill
    level. *)
Definition consistent (o : Order) : Prop :=
  Number.ltb Number.zero (quantity o) = true ∧
  Number.leb Number.zero (filledQuantity o) = true ∧
  Number.leb (filledQuantity o) (quantity o) = true ∧
  F64.spec_status (filledQuantity o) (quantity o) = Some (status o).

End ExecuteOrder64.

Definition liftLastExecution (l : ExecuteOrder.LastExecution.t)
  : ExecuteOrder64.LastExecution.t :=
  {| ExecuteOrder64.LastExecution.quantity :=
       Number.ofZ (ExecuteOrder.LastExecution.quantity l);
     ExecuteOrder64.LastExecution.timestamp :=
       Number.ofZ (ExecuteOrder.LastExecution.timestamp l) |}.

Definition liftSidedOrder (o : ExecuteOrder.Order) : ExecuteOrder64.Order :=
  {| ExecuteOrder64.id := ExecuteOrder.id o;
     ExecuteOrder64.side := ExecuteOrder.side o;
     ExecuteOrder64.quantity := Number.ofZ (ExecuteOrder.quantity o);
     ExecuteOrder64.filledQuantity :=
       Number.ofZ (ExecuteOrder.filledQuantity o);
     ExecuteOrder64.status := ExecuteOrder.status o;
     ExecuteOrder64._lastExecution :=
       liftLastExecution <$> ExecuteOrder._lastExecution o |}.

Definition liftSidedAccount (a : ExecuteOrder.Account)
  : ExecuteOrder64.Account :=
  {| ExecuteOrder64.balance := Number.ofZ (ExecuteOrder.balance a) |}.

(** The numbers of a call of [executeOrder] are safe integers: the clock,
    the executed quantity, the order's quantity and fill level (which is
    within bounds), the balance with the whole quantity added or taken
    away, and the note of the last execution with the time passed since. *)
Definition safeCall (now : Z) (o : ExecuteOrder.Order)
  (a : ExecuteOrder.Account) (q : Z) : Prop :=
  Number.safe now ∧ Number.safe q ∧
  Number.safe (ExecuteOrder.quantity o) ∧
  0 ≤ ExecuteOrder.filledQuantity o ≤ ExecuteOrder.quantity o ∧
  Number.safe (ExecuteOrder.balance a - ExecuteOrder.quantity o) ∧
  Number.safe (ExecuteOrder.balance a + ExecuteOrder.quantity o) ∧
  match ExecuteOrder._lastExecution o with
  | Some last =>
      Number.safe (ExecuteOrder.LastExecution.quantity last) ∧
      Number.safe (ExecuteOrder.LastExecution.timestamp last) ∧
      Number.safe (now - ExecuteOrder.LastExecution.timestamp last)
  | None => True
  end.

(** ** [ExecutionConsumer] on binary64 numbers
    (src/tests/executeOrder.spec.ts) *)

Module Consumer64.

Record ExecutionConsumer : Set := mk {
  order : F64.Order;
  account : F64.Account;
  seen : gset string;
  appliedCount : Number.t;
  rejectedCount : Number.t;
  initialBalance : Number.t
}.

(** The consumer's [ApplyResult]: [reason] and [effectiveQuantity] read
    as [undefined] when they are [None]. *)
Record ApplyResult : Set := mkResult {
  applied : bool;
  reason : option string;
  effectiveQuantity : option Number.t
}.

(** [new ExecutionConsumer(order, account)] *)
Definition new (o : F64.Order) (a : F64.Account) : ExecutionConsumer :=
  {| order := o; account := a; seen := ∅;
     appliedCount := Number.zero; rejectedCount := Number.zero;
     initialBalance := F64.balance a |}.

(** [this.rejectedCount++; return { applied: false, reason }] *)
Definition reject (this : ExecutionConsumer) (why : string)
  : ExecutionConsumer * ApplyResult :=
  ({| order := order this; account := account this; seen := seen this;
      appliedCount := appliedCount this;
      rejectedCount := Number.add (rejectedCount this) (Number.ofZ 1);
      initialBalance := initialBalance this |},
   {| applied := false; reason := Some why; effectiveQuantity := None |}).

Definition apply (this : ExecutionConsumer) (evt : F64.ExecutionEvent)
  : ExecutionConsumer * ApplyResult :=
  if bool_decide (F64.eventId evt ∈ seen this) then reject this "duplicate"
  else if decide (F64.orderId evt ≠ F64.id (order this)) then
    reject this "wrong_order"
  else if Number.leb (F64.executedQuantity evt) Number.zero then
    reject this "invalid_qty"
  else if decide (F64.status (order this) = FILLED) then
    reject this "already_filled"
  else
    let remaining :=
      Number.sub (F64.quantity (order this))
                 (F64.filledQuantity (order this)) in
    let effective := Number.min (F64.executedQuantity evt) remaining in
    let order1 := F64.addFilled (order this) effective in
    let account1 :=
      {| F64.balance := Number.sub (F64.balance (account this)) effective |} in
    let order2 := F64.updateStatus order1 in
    let isCapped := Number.ltb effective (F64.executedQuantity evt) in
    ({| order := order2; account := account1;
        seen := {[F64.eventId evt]} ∪ seen this;
        appliedCount := Number.add (appliedCount this) (Number.ofZ 1);
        rejectedCount := rejectedCount this;
        initialBalance := initialBalance this |},
     {| applied := true;
        reason := if isCapped then Some "capped" else None;
        effectiveQuantity := Some effective |}).

(** [assertInvariants()]: [None] when it returns, the error otherwise. *)
Definition assertInvariants (this : ExecutionConsumer)
  : option Consumer.Violation :=
  let o := order this in
  if Number.ltb (F64.filledQuantity o) Number.zero then
    Some Consumer.FilledNegative
  else if Number.ltb (F64.quantity o) (F64.filledQuantity o) then
    Some Consumer.FilledAboveQuantity
  else if Number.eqb (F64.filledQuantity o) Number.zero
          && bool_decide (F64.status o ≠ OPEN) then
    Some Consumer.ZeroButNotOpen
  else if Number.ltb Number.zero (F64.filledQuantity o)
          && Number.ltb (F64.filledQuantity o) (F64.quantity o)
          && bool_decide (F64.status o ≠ PARTIALLY_FILLED) then
    Some Consumer.PartButNotPartiallyFilled
  else if Number.eqb (F64.filledQuantity o) (F64.quantity o)
          && bool_decide (F64.status o ≠ FILLED) then
    Some Consumer.FullButNotFilled
  else if Number.ltb (initialBalance this) (F64.balance (account this)) then
    Some Consumer.BalanceIncreased
  else None.

(** The consumer after a list of events. *)
Fixpoint applyAll (this : ExecutionConsumer) (evts : list F64.ExecutionEvent)
  : ExecutionConsumer :=
  match evts with
  | [] => this
  | evt :: rest => applyAll (apply this evt).1 rest
  end.

End Consumer64.

(** A binary64 consumer shows the order, the account, the seen ids and the
    initial balance of an integer-valued one; the counters are left
    free. *)
Definition simConsumer (f : Consumer64.ExecutionConsumer)
  (this : Consumer.ExecutionConsumer) : Prop :=
  Consumer64.order f = liftOrder (Consumer.order this) ∧
  Consumer64.account f = liftAccount (Consumer.account this) ∧
  Consumer64.seen f = Consumer.seen this ∧
  Consumer64.initialBalance f = Number.ofZ (Consumer.initialBalance this).

(** ** The mock engine on binary64 numbers (src/tests/e2e.spec.ts) *)

Module MockEngine64.

Record State : Type := mk {
  orders : gmap string F64.Order;
  processedEventIds : gset string;
  broadcasts : list F64.ExecutionEvent
}.

(** [order.status = filledQuantity === quantity ? "FILLED"
                                                 : "PARTIALLY_FILLED"] *)
Definition updateStatus (o : F64.Order) : F64.Order :=
  if Number.eqb (F64.filledQuantity o) (F64.quantity o)
  then F64.setStatus o FILLED
  else F64.setStatus o PARTIALLY_FILLED.

Definition applyExecution (s : State) (evt : F64.ExecutionEvent)
  : State * ApplyResult :=
  if bool_decide (F64.eventId evt ∈ processedEventIds s) then
    (s, rejected "duplicate_event")
  else
    match orders s !! F64.orderId evt with
    | None => (s, rejected "unknown_order")
    | Some order =>
        if Number.leb (F64.executedQuantity evt) Number.zero then
          (s, rejected "invalid_executed_quantity")
        else if decide (F64.status order = FILLED) then
          (s, rejected "already_filled")
        else
          let remaining :=
            Number.sub (F64.quantity order) (F64.filledQuantity order) in
          let effectiveQty :=
            Number.min (F64.executedQuantity evt) remaining in
          let order1 := updateStatus (F64.addFilled order effectiveQty) in
          ({| orders := <[F64.orderId evt := order1]> (orders s);
              processedEventIds := {[F64.eventId evt]} ∪ processedEventIds s;
              broadcasts := broadcasts s ++ [evt] |},
           if Number.ltb effectiveQty (F64.executedQuantity evt)
           then appliedWith "capped_overfill"
           else appliedPlain)
    end.

End MockEngine64.

Definition liftState (s : MockEngine.State) : MockEngine64.State :=
  {| MockEngine64.orders := liftOrder <$> MockEngine.orders s;
     MockEngine64.processedEventIds := MockEngine.processedEventIds s;
     MockEngine64.broadcasts := liftEvent <$> MockEngine.broadcasts s |}.

(** Integers beyond the safe range, all of them binary64 values:
    2^53 + 6, 2^53 + 2 and 2^53, and 10^17. *)
Definition orderHuge : Order :=
  mkOrder "O1" 9007199254740998 3 PARTIALLY_FILLED.
Definition startHuge : store * TradingEngine :=
  newTradingEngine ∅ orderHuge (mkAccount 100).
Definition EHuge : ExecutionEvent :=
  mkEvent "execution" "E1" "O1" 100000000000000000.

Definition orderEdge : Order :=
  mkOrder "O1" 9007199254740994 9007199254740992 PARTIALLY_FILLED.
Definition startEdge : store * TradingEngine :=
  newTradingEngine ∅ orderEdge (mkAccount 100).
Definition EOne : ExecutionEvent := mkEvent "execution" "E1" "O1" 1.

(** An account that owes 2^53. *)
Definition startDebt : store * TradingEngine :=
  newTradingEngine ∅ (mkOrder "O1" 10 0 OPEN) (mkAccount (-9007199254740992)).

(** ** Concrete configurations *)

(** The order and the events of the specification's example scenarios. *)
Definition order10 : Order := mkOrder "O1" 10 0 OPEN.
Definition order8 : Order := mkOrder "O1" 10 8 PARTIALLY_FILLED.
Definition orderDone : Order := mkOrder "O1" 10 10 FILLED.

Definition start10 : store * TradingEngine :=
  newTradingEngine ∅ order10 (mkAccount 100).
Definition start8 : store * TradingEngine :=
  newTradingEngine ∅ order8 (mkAccount 100).
Definition startDone : store * TradingEngine :=
  newTradingEngine ∅ orderDone (mkAccount 100).

Definition E1 : ExecutionEvent := mkEvent "execution" "E1" "O1" 4.
Definition E2 : ExecutionEvent := mkEvent "execution" "E2" "O1" 5.
Definition E3 : ExecutionEvent := mkEvent "execution" "E3" "O1" 1.
Definition E4 : ExecutionEvent := mkEvent "execution" "E4" "WRONG" 5.
Definition E5 : ExecutionEvent := mkEvent "execution" "E5" "O1" 0.

(** An order that was constructed over-filled, and one more event. *)
Definition orderOver : Order := mkOrder "O1" 10 12 PARTIALLY_FILLED.
Definition startOver : store * TradingEngine :=
  newTradingEngine ∅ orderOver (mkAccount 100).
Definition E6 : ExecutionEvent := mkEvent "execution" "E6" "O1" 3.

(** ** Basic facts *)

Section results.
Implicit Types why : string.

Lemma applied_rejected why : applied (rejected why) = Some (JBool false).
Proof. reflexivity. Qed.

Lemma reason_rejected why : reason (rejected why) = Some (JString why).
Proof.
  unfold reason, rejected. rewrite lookup_insert_ne by discriminate.
  apply lookup_singleton_eq.
Qed.

Lemma applied_appliedWith why : applied (appliedWith why) = Some (JBool true).
Proof. reflexivity. Qed.

Lemma reason_appliedWith why : reason (appliedWith why) = Some (JString why).
Proof.
  unfold reason, appliedWith. rewrite lookup_insert_ne by discriminate.
  apply lookup_singleton_eq.
Qed.

Lemma applied_appliedPlain : applied appliedPlain = Some (JBool true).
Proof. reflexivity. Qed.

Lemma reason_appliedPlain : reason appliedPlain = None.
Proof. reflexivity. Qed.

Lemma effectiveQuantity_rejected why : effectiveQuantity (rejected why) = None.
Proof.
  unfold effectiveQuantity, rejected.
  rewrite lookup_insert_ne by discriminate.
  apply lookup_singleton_ne. discriminate.
Qed.

Lemma effectiveQuantity_appliedWith why :
  effectiveQuantity (appliedWith why) = None.
Proof.
  unfold effectiveQuantity, appliedWith.
  rewrite lookup_insert_ne by discriminate.
  apply lookup_singleton_ne. discriminate.
Qed.

Lemma effectiveQuantity_appliedPlain : effectiveQuantity appliedPlain = None.
Proof. reflexivity. Qed.

Lemma rejected_inj why1 why2 : rejected why1 = rejected why2 → why1 = why2.
Proof.
  intros H. apply (f_equal reason) in H.
  rewrite !reason_rejected in H. congruence.
Qed.
End results.

(** ** How [applyExecution] goes *)

Lemma Set_has_true σ s x : Set_has σ s x = true ↔ x ∈ (σ !!! s).
Proof. apply bool_decide_eq_true. Qed.

Lemma Set_has_false σ s x : Set_has σ s x = false ↔ x ∉ (σ !!! s).
Proof. apply bool_decide_eq_false. Qed.

Lemma Set_add_contents σ s x : Set_add σ s x !!! s = {[x]} ∪ (σ !!! s).
Proof. apply lookup_total_insert_eq. Qed.

Lemma Set_add_other σ s s' x : s ≠ s' → Set_add σ s x !!! s' = σ !!! s'.
Proof. intros. by apply lookup_total_insert_ne. Qed.

Lemma Set_has_add σ s x : Set_has (Set_add σ s x) s x = true.
Proof. apply Set_has_true. rewrite Set_add_contents. set_solver. Qed.

Lemma spec_firstRejection_None c evt :
  spec_firstRejection c evt = None ↔ passes c evt.
Proof.
  unfold spec_firstRejection, passes, spec_rejections; cbn.
  repeat (case_bool_decide; cbn); split; try discriminate.
  all: try (intros (? & ? & ? & ? & ?); first [ done | lia ]).
  intros _. repeat split; first [ by apply dec_stable | lia | done ].
Qed.

Lemma applyExecution_rejects c evt why :
  spec_firstRejection c evt = Some why →
  applyExecution c evt = (c, rejected why).
Proof.
  destruct c as [σ this].
  unfold spec_firstRejection, spec_rejections, applyExecution; cbn.
  unfold processed, orderOf, Set_has; cbn.
  repeat first [ case_bool_decide | case_decide ]; cbn;
    intros [= <-]; done.
Qed.

Lemma applyExecution_passes c evt :
  passes c evt →
  applyExecution c evt =
    ((Set_add c.1 (processedEventIds c.2) (eventId evt),
      {| order := updateStatus (addFilled (orderOf c) (effective c evt));
         account := {| balance := balance (accountOf c) - effective c evt |};
         processedEventIds := processedEventIds c.2 |}),
     if decide (effective c evt < executedQuantity evt)
     then appliedWith "capped_overfill"
     else appliedPlain).
Proof.
  destruct c as [σ this]. intros (Ht & Hid & Ho & Hq & Hs).
  unfold processed in Hid; cbn in Hid. apply Set_has_false in Hid.
  unfold applyExecution, effective, orderOf, accountOf in *; cbn in *.
  rewrite Hid. repeat case_decide; first [ done | lia ].
Qed.

Lemma applied_passes c evt :
  applied (applyExecution c evt).2 = Some (JBool true) → passes c evt.
Proof.
  destruct (spec_firstRejection c evt) as [why|] eqn:Hr.
  - rewrite (applyExecution_rejects _ _ _ Hr); cbn.
    rewrite applied_rejected. discriminate.
  - intros _. by apply spec_firstRejection_None.
Qed.

Lemma passes_applied c evt :
  passes c evt → applied (applyExecution c evt).2 = Some (JBool true).
Proof.
  intros H. rewrite (applyExecution_passes _ _ H); cbn.
  case_decide; [apply applied_appliedWith | apply applied_appliedPlain].
Qed.

(** After a successful apply the event's id is in the engine's set. *)
Lemma passes_recorded c evt :
  passes c evt → eventId evt ∈ processed (applyExecution c evt).1.
Proof.
  intros H. rewrite (applyExecution_passes _ _ H).
  unfold processed; cbn. rewrite Set_add_contents. set_solver.
Qed.

Lemma updateStatus_quantities o :
  quantity (updateStatus o) = quantity o ∧
  filledQuantity (updateStatus o) = filledQuantity o ∧
  id (updateStatus o) = id o.
Proof. unfold updateStatus. repeat case_decide; done. Qed.

(** ** Fresh engines *)

Lemma newTradingEngine_view σ o a :
  orderOf (newTradingEngine σ o a) = o ∧
  accountOf (newTradingEngine σ o a) = a ∧
  processed (newTradingEngine σ o a) = ∅.
Proof.
  unfold processed, orderOf, accountOf, newTradingEngine, Set_new; cbn.
  by rewrite lookup_total_insert_eq.
Qed.

Lemma newTradingEngine_allocated σ o a : allocated (newTradingEngine σ o a).
Proof.
  unfold allocated, newTradingEngine, Set_new; cbn.
  rewrite dom_insert_L. set_solver.
Qed.

(** A fresh engine lets through every well-formed event for its order. *)
Lemma fresh_engine_passes o a evt :
  type evt = "execution" → orderId evt = id o → 0 < executedQuantity evt →
  status o ≠ FILLED → passes (newTradingEngine ∅ o a) evt.
Proof.
  intros. unfold passes.
  destruct (newTradingEngine_view ∅ o a) as (Ho & Ha & Hp).
  rewrite Ho, Hp. repeat split; [done | set_solver | done..].
Qed.

(** A fresh engine rejects a non-positive quantity for its order. *)
Lemma fresh_engine_invalid o a evt :
  type evt = "execution" → orderId evt = id o → executedQuantity evt ≤ 0 →
  spec_firstRejection (newTradingEngine ∅ o a) evt
  = Some "invalid_executed_quantity".
Proof.
  intros Ht Hi Hq. unfold spec_firstRejection, spec_rejections.
  destruct (newTradingEngine_view ∅ o a) as (Ho & Ha & Hp).
  cbn [List.find fst snd]. rewrite Ho, Hp.
  rewrite (bool_decide_eq_false_2 (type evt ≠ _)) by (intros ?; done).
  rewrite (bool_decide_eq_false_2 (_ ∈ _)) by set_solver.
  rewrite (bool_decide_eq_false_2 (orderId evt ≠ _)) by (intros ?; done).
  by rewrite (bool_decide_eq_true_2 (_ ≤ _)) by done.
Qed.

(** The engine's set stays allocated, so it is in every reachable
    configuration. *)
Lemma applyExecution_allocated c evt :
  allocated c → allocated (applyExecution c evt).1.
Proof.
  intros Hal. destruct (spec_firstRejection c evt) as [why|] eqn:Hr.
  - by rewrite (applyExecution_rejects _ _ _ Hr).
  - apply spec_firstRejection_None in Hr.
    rewrite (applyExecution_passes _ _ Hr).
    unfold allocated, Set_add in *; cbn. rewrite dom_insert_L. set_solver.
Qed.

Lemma getProcessedEventIds_allocated c :
  allocated c → allocated (getProcessedEventIds c).1.
Proof.
  destruct c as [σ this].
  unfold allocated, getProcessedEventIds, Set_new_from; cbn.
  rewrite dom_insert_L. set_solver.
Qed.

Lemma clearProcessedEvents_allocated c :
  allocated c → allocated (clearProcessedEvents c).
Proof.
  destruct c as [σ this].
  unfold allocated, clearProcessedEvents, Set_clear; cbn.
  rewrite dom_insert_L. set_solver.
Qed.

Lemma reachable_allocated c : reachable c → allocated c.
Proof.
  induction 1 as [σ o a | c evt _ IH | c _ IH | c _ IH].
  - apply newTradingEngine_allocated.
  - by apply applyExecution_allocated.
  - by apply getProcessedEventIds_allocated.
  - by apply clearProcessedEvents_allocated.
Qed.

(** ** C1: idempotence *)

(** C1, as the specification states it, fails: the second delivery of an
    event is answered with [duplicate_event] only when its id was recorded,
    and a rejected event is not recorded.  An event of quantity 0 is
    rejected twice with [invalid_executed_quantity]. *)
Lemma C1_second_call_not_duplicate :
  let c1 := (applyExecution start10 E5).1 in
  (applyExecution c1 E5).2 ≠ rejected "duplicate_event".
Proof.
  assert (H : spec_firstRejection start10 E5
              = Some "invalid_executed_quantity")
    by (apply fresh_engine_invalid; cbn; [done | done | lia]).
  cbn zeta. rewrite (applyExecution_rejects _ _ _ H); cbn [fst snd].
  rewrite (applyExecution_rejects _ _ _ H); cbn [fst snd].
  intros Heq%rejected_inj. discriminate.
Qed.

(** C1, amended: for every configuration (reachable or not) and every
    event, delivering the event a second time changes nothing (order,
    account and processed-event set stay as the first delivery left them)
    and is answered with [applied: false]; the reason is [duplicate_event]
    when the first delivery was applied, and otherwise the second answer
    repeats the first rejection. *)
Theorem C1_idempotence (c : store * TradingEngine) (evt : ExecutionEvent) :
  let '(c1, r1) := applyExecution c evt in
  let '(c2, r2) := applyExecution c1 evt in
  c2 = c1 ∧ applied r2 = Some (JBool false) ∧
  r2 = if decide (applied r1 = Some (JBool true))
       then rejected "duplicate_event"
       else r1.
Proof.
  destruct (spec_firstRejection c evt) as [why|] eqn:Hr.
  - rewrite (applyExecution_rejects _ _ _ Hr).
    rewrite (applyExecution_rejects _ _ _ Hr).
    rewrite applied_rejected. by case_decide.
  - apply spec_firstRejection_None in Hr.
    pose proof (passes_applied _ _ Hr) as Ha.
    pose proof (passes_recorded _ _ Hr) as Hin.
    destruct (applyExecution c evt) as [c1 r1]; cbn in Ha, Hin.
    assert (Hdup : spec_firstRejection c1 evt = Some "duplicate_event").
    { unfold spec_firstRejection, spec_rejections; cbn.
      destruct Hr as (Ht & _).
      rewrite (bool_decide_eq_false_2 (type evt ≠ _)) by (intros ?; done).
      by rewrite (bool_decide_eq_true_2 (_ ∈ _)) by done. }
    rewrite (applyExecution_rejects _ _ _ Hdup).
    rewrite applied_rejected. by case_decide.
Qed.

(** ** The fill level stays within bounds (exact model) *)

Lemma applyExecution_bounded c evt :
  bounded (orderOf c) → bounded (orderOf (applyExecution c evt).1).
Proof.
  intros Hb. destruct (spec_firstRejection c evt) as [why|] eqn:Hr.
  - by rewrite (applyExecution_rejects _ _ _ Hr).
  - apply spec_firstRejection_None in Hr.
    rewrite (applyExecution_passes _ _ Hr).
    destruct Hr as (_ & _ & _ & Hq & _).
    unfold bounded, orderOf in *; cbn.
    destruct (updateStatus_quantities
                (addFilled (order c.2) (effective c evt))) as (-> & -> & _).
    unfold effective, orderOf; cbn. lia.
Qed.

(** In exact integers the bound holds after every call of a delivery. *)
Lemma applyAll_bounded (c : store * TradingEngine)
    (evts : list ExecutionEvent) :
  bounded (orderOf c) →
  Forall (λ cr, bounded (orderOf cr.1)) (applyAll c evts).
Proof.
  revert c. induction evts as [|evt rest IH]; intros c Hb; cbn.
  - constructor.
  - pose proof (applyExecution_bounded c evt Hb) as Hb'.
    constructor; [apply Hb' | by apply IH].
Qed.

(** ** C3: rejection precedence *)

(** C3: the guards are tried in the specification's order and the first one
    that matches decides: the call returns [applied: false] with that
    guard's reason and the configuration (order, account, processed-event
    set) is the one it started from; when no guard matches the event is
    applied. *)
Theorem C3_rejection_precedence (c : store * TradingEngine)
    (evt : ExecutionEvent) :
  match spec_firstRejection c evt with
  | Some why => applyExecution c evt = (c, rejected why)
  | None => applied (applyExecution c evt).2 = Some (JBool true)
  end.
Proof.
  destruct (spec_firstRejection c evt) as [why|] eqn:Hr.
  - by apply applyExecution_rejects.
  - by apply passes_applied, spec_firstRejection_None.
Qed.

(** ** C4: FILLED is terminal *)

Lemma spec_firstRejection_filled c evt :
  type evt = "execution" → eventId evt ∉ processed c →
  orderId evt = id (orderOf c) → 0 < executedQuantity evt →
  status (orderOf c) = FILLED →
  spec_firstRejection c evt = Some "already_filled".
Proof.
  intros Ht Hp Ho Hq Hs. unfold spec_firstRejection, spec_rejections.
  cbn [List.find fst snd].
  rewrite (bool_decide_eq_false_2 (type evt ≠ _)) by (intros ?; done).
  rewrite (bool_decide_eq_false_2 (_ ∈ _)) by done.
  rewrite (bool_decide_eq_false_2 (orderId evt ≠ _)) by (intros ?; done).
  rewrite (bool_decide_eq_false_2 (_ ≤ _)) by lia.
  by rewrite (bool_decide_eq_true_2 (status _ = _)) by done.
Qed.

(** C4: when the order is FILLED, every event is rejected and leaves the
    whole configuration as it was, so neither [filledQuantity] nor [status]
    nor [balance] changes; an event of type "execution" whose id was never
    seen, which names this order and has a positive quantity, is rejected
    with [already_filled]. *)
Theorem C4_terminal_filled (c : store * TradingEngine) (evt : ExecutionEvent) :
  status (orderOf c) = FILLED →
  (applyExecution c evt).1 = c ∧
  applied (applyExecution c evt).2 = Some (JBool false) ∧
  (type evt = "execution" → eventId evt ∉ processed c →
   orderId evt = id (orderOf c) → 0 < executedQuantity evt →
   (applyExecution c evt).2 = rejected "already_filled").
Proof.
  intros Hs. destruct (spec_firstRejection c evt) as [why|] eqn:Hr.
  - rewrite (applyExecution_rejects _ _ _ Hr); cbn [fst snd].
    split; [done|]. split; [apply applied_rejected|].
    intros Ht Hp Ho Hq.
    rewrite (spec_firstRejection_filled _ _ Ht Hp Ho Hq Hs) in Hr.
    by injection Hr as <-.
  - apply spec_firstRejection_None in Hr.
    destruct Hr as (_ & _ & _ & _ & Hn). by destruct Hn.
Qed.

Lemma C4_terminal_filled_witness :
  status (orderOf startDone) = FILLED ∧
  (applyExecution startDone E3).1 = startDone ∧
  applied (applyExecution startDone E3).2 = Some (JBool false) ∧
  (applyExecution startDone E3).2 = rejected "already_filled".
Proof.
  assert (Hs : status (orderOf startDone) = FILLED) by reflexivity.
  destruct (C4_terminal_filled startDone E3 Hs) as (H1 & H2 & H3).
  split; [exact Hs|]. split; [exact H1|]. split; [exact H2|].
  apply H3; [reflexivity | | reflexivity | cbn; lia].
  unfold startDone.
  destruct (newTradingEngine_view ∅ orderDone (mkAccount 100)) as (_ & _ & ->).
  set_solver.
Defined.

(** ** The status update (exact model) *)

Lemma updateStatus_consistent o :
  0 < quantity o → 0 ≤ filledQuantity o ≤ quantity o →
  consistent (updateStatus o).
Proof.
  intros Hq Hb. unfold consistent, updateStatus, spec_status, setStatus.
  repeat (case_decide; cbn in *); repeat split;
    first [ lia | done | exfalso; lia ].
Qed.

(** ** Capping (exact model) *)

(** In exact integers, an event above what remains fills exactly what
    remains. *)
Lemma capping_exact (c : store * TradingEngine) (evt : ExecutionEvent) :
  spec_firstRejection c evt = None →
  executedQuantity evt > quantity (orderOf c) - filledQuantity (orderOf c) →
  let '(c', r) := applyExecution c evt in
  filledQuantity (orderOf c')
    = filledQuantity (orderOf c)
      + (quantity (orderOf c) - filledQuantity (orderOf c)) ∧
  r = appliedWith "capped_overfill" ∧
  effectiveQuantity r = None.
Proof.
  intros Hp%spec_firstRejection_None Hgt.
  rewrite (applyExecution_passes _ _ Hp).
  assert (He : effective c evt
               = quantity (orderOf c) - filledQuantity (orderOf c))
    by (unfold effective; lia).
  rewrite decide_True by lia.
  split; [|split; [done | apply effectiveQuantity_appliedWith]].
  unfold orderOf at 1; cbn [fst snd order].
  destruct (updateStatus_quantities
              (addFilled (orderOf c) (effective c evt))) as (_ & -> & _).
  cbn. by rewrite He.
Qed.

(** ** C8: the processed-event ids are handed out as a copy *)

Lemma same_engine_view c1 c2 : same_engine c1 c2 → view c1 = view c2.
Proof.
  intros [He Hp]. unfold view, orderOf, accountOf. by rewrite He, Hp.
Qed.

Lemma same_engine_firstRejection c1 c2 evt :
  same_engine c1 c2 → spec_firstRejection c1 evt = spec_firstRejection c2 evt.
Proof.
  intros [He Hp]. unfold spec_firstRejection, spec_rejections.
  cbn [List.find fst snd]. unfold orderOf. by rewrite He, Hp.
Qed.

(** [applyExecution] reads and writes the store only at the engine's set. *)
Lemma applyExecution_same_engine c1 c2 evt :
  same_engine c1 c2 →
  same_engine (applyExecution c1 evt).1 (applyExecution c2 evt).1 ∧
  (applyExecution c1 evt).2 = (applyExecution c2 evt).2.
Proof.
  intros Hs. pose proof (same_engine_firstRejection _ _ evt Hs) as Hr.
  destruct (spec_firstRejection c2 evt) as [why|] eqn:Hr2.
  - rewrite (applyExecution_rejects _ _ _ Hr).
    by rewrite (applyExecution_rejects _ _ _ Hr2).
  - apply spec_firstRejection_None in Hr, Hr2.
    rewrite (applyExecution_passes _ _ Hr), (applyExecution_passes _ _ Hr2).
    destruct Hs as [He Hp].
    assert (Heff : effective c1 evt = effective c2 evt)
      by (unfold effective, orderOf; by rewrite He).
    unfold same_engine, processed, orderOf, accountOf in *; cbn [fst snd].
    rewrite Heff, He. split; [split; [done|] | done].
    cbn [processedEventIds]. rewrite !Set_add_contents.
    rewrite <- He at 1. by rewrite Hp.
Qed.

Lemma applyAll_same_engine c1 c2 evts :
  same_engine c1 c2 →
  map (λ cr, (view cr.1, cr.2)) (applyAll c1 evts)
  = map (λ cr, (view cr.1, cr.2)) (applyAll c2 evts).
Proof.
  revert c1 c2. induction evts as [|evt rest IH]; intros c1 c2 Hs; cbn.
  - done.
  - destruct (applyExecution_same_engine c1 c2 evt Hs) as [Hs' Hres].
    f_equal; [|by apply IH].
    by rewrite (same_engine_view _ _ Hs'), Hres.
Qed.

(** Mutating one set of the store leaves every other set as it is. *)
Lemma mutate_other s s' σ m : s ≠ s' → mutate s σ m !!! s' = σ !!! s'.
Proof.
  intros Hne. destruct m; cbn;
    unfold Set_add, Set_delete, Set_clear; by rewrite lookup_total_insert_ne.
Qed.

Lemma mutateAll_other s s' σ ms : s ≠ s' → mutateAll s σ ms !!! s' = σ !!! s'.
Proof.
  intros Hne. revert σ. induction ms as [|m ms IH]; intros σ; cbn.
  - done.
  - unfold mutateAll in IH. rewrite IH. by apply mutate_other.
Qed.

(** C8: for an engine whose set is an allocated object (as it is in
    every reachable configuration), [getProcessedEventIds] returns a
    reference other than the engine's own, to a set with the same
    elements, and leaves the engine as it was; whatever the caller then
    does to the returned set (add, delete, clear, any number of times),
    every later call of [applyExecution] returns what it would have
    returned, and shows the order, account and processed events it would
    have shown, had the returned set been left alone. *)
Theorem C8_defensive_copy (c : store * TradingEngine) :
  allocated c →
  let '(c1, r) := getProcessedEventIds c in
  r ≠ processedEventIds c.2 ∧
  c1.1 !!! r = processed c ∧
  c1.2 = c.2 ∧ processed c1 = processed c ∧
  ∀ (ms : list SetMutation) (evts : list ExecutionEvent),
    map (λ cr, (view cr.1, cr.2)) (applyAll (mutateAll r c1.1 ms, c1.2) evts)
    = map (λ cr, (view cr.1, cr.2)) (applyAll c1 evts).
Proof.
  destruct c as [σ this]. unfold allocated; cbn [fst snd]. intros Hal.
  unfold getProcessedEventIds, Set_new_from.
  set (r := fresh (dom σ)).
  assert (Hne : r ≠ processedEventIds this).
  { intros Heq. apply (is_fresh (dom σ)). fold r. by rewrite Heq. }
  split; [exact Hne|]. split; [apply lookup_total_insert_eq|].
  split; [done|].
  split; [unfold processed; cbn; by apply lookup_total_insert_ne|].
  intros ms evts. apply applyAll_same_engine.
  split; [done|]. unfold processed; cbn [fst snd].
  by apply mutateAll_other.
Qed.

Lemma C8_defensive_copy_witness :
  allocated start10 ∧
  let '(c1, r) := getProcessedEventIds start10 in
  r ≠ processedEventIds start10.2 ∧
  c1.1 !!! r = processed start10 ∧
  c1.2 = start10.2 ∧ processed c1 = processed start10 ∧
  ∀ (ms : list SetMutation) (evts : list ExecutionEvent),
    map (λ cr, (view cr.1, cr.2)) (applyAll (mutateAll r c1.1 ms, c1.2) evts)
    = map (λ cr, (view cr.1, cr.2)) (applyAll c1 evts).
Proof.
  assert (Hal : allocated start10) by apply newTradingEngine_allocated.
  split; [exact Hal | exact (C8_defensive_copy start10 Hal)].
Defined.

(** ** A successful apply fills at least one unit (exact model) *)

(** In exact integers a successful apply on a consistent order fills at
    least one unit. *)
Lemma success_fills_exact (c : store * TradingEngine) (evt : ExecutionEvent) :
  consistent (orderOf c) →
  applied (applyExecution c evt).2 = Some (JBool true) →
  let o' := orderOf (applyExecution c evt).1 in
  filledQuantity o' = filledQuantity (orderOf c) + effective c evt ∧
  1 ≤ effective c evt ∧
  filledQuantity (orderOf c) < filledQuantity o' ∧
  status o' ≠ OPEN.
Proof.
  intros (Hpos & Hb & Hst) Hp%applied_passes.
  rewrite (applyExecution_passes _ _ Hp).
  destruct Hp as (_ & _ & _ & Hq & Hnf).
  assert (Hlt : filledQuantity (orderOf c) < quantity (orderOf c)).
  { unfold spec_status in Hst.
    repeat case_decide; first [ lia | congruence ]. }
  assert (He : 1 ≤ effective c evt) by (unfold effective; lia).
  assert (He' : effective c evt
                ≤ quantity (orderOf c) - filledQuantity (orderOf c))
    by (unfold effective; lia).
  unfold orderOf in *; cbn [fst snd order].
  unfold updateStatus, addFilled, setStatus.
  repeat (case_decide; cbn in *); repeat split; first [ lia | done ].
Qed.

(** ** C10: clearing the processed events *)

(** C10: [clearProcessedEvents] leaves the engine's set empty and the
    order and the account as they were; after it no event is rejected as
    [duplicate_event], whatever its id and whatever was applied before. *)
Theorem C10_clear (c : store * TradingEngine) :
  let c' := clearProcessedEvents c in
  processed c' = ∅ ∧ orderOf c' = orderOf c ∧ accountOf c' = accountOf c ∧
  ∀ evt, reason (applyExecution c' evt).2 ≠ Some (JString "duplicate_event").
Proof.
  destruct c as [σ this]. cbn zeta.
  assert (He : processed (clearProcessedEvents (σ, this)) = ∅).
  { unfold processed, clearProcessedEvents, Set_clear; cbn.
    apply lookup_total_insert_eq. }
  split; [exact He|]. split; [done|]. split; [done|].
  intros evt.
  destruct (spec_firstRejection (clearProcessedEvents (σ, this)) evt)
    as [why|] eqn:Hr.
  - rewrite (applyExecution_rejects _ _ _ Hr); cbn [snd].
    rewrite reason_rejected. intros [= ->].
    revert Hr. unfold spec_firstRejection, spec_rejections.
    cbn [List.find fst snd]. rewrite He.
    rewrite (bool_decide_eq_false_2 (_ ∈ ∅)) by set_solver.
    repeat case_bool_decide; cbn; discriminate.
  - apply spec_firstRejection_None in Hr.
    rewrite (applyExecution_passes _ _ Hr); cbn [snd].
    case_decide; [by rewrite reason_appliedWith | by rewrite reason_appliedPlain].
Qed.

(** ** The specification's example scenarios *)

Example scenario1 :
  let '(c, r) := applyExecution start10 E1 in
  orderOf c = mkOrder "O1" 10 4 PARTIALLY_FILLED ∧
  accountOf c = mkAccount 96 ∧ r = appliedPlain ∧
  applyExecution c E1 = (c, rejected "duplicate_event").
Proof.
  assert (Hp : passes start10 E1)
    by (apply fresh_engine_passes; cbn; first [ done | lia ]).
  pose proof (passes_recorded _ _ Hp) as Hin.
  rewrite (applyExecution_passes _ _ Hp) in *.
  split; [vm_compute; reflexivity|]. split; [vm_compute; reflexivity|].
  split; [reflexivity|].
  apply applyExecution_rejects.
  unfold spec_firstRejection, spec_rejections. cbn [List.find fst snd].
  rewrite (bool_decide_eq_false_2 (type E1 ≠ _)) by (intros ?; done).
  by rewrite (bool_decide_eq_true_2 (_ ∈ _)) by done.
Qed.

Example scenario2 :
  let '(c, r) := applyExecution start8 E2 in
  orderOf c = mkOrder "O1" 10 10 FILLED ∧
  r = appliedWith "capped_overfill".
Proof.
  assert (Hp : passes start8 E2)
    by (apply fresh_engine_passes; cbn; first [ done | lia ]).
  rewrite (applyExecution_passes _ _ Hp).
  split; [vm_compute; reflexivity | reflexivity].
Qed.

Example scenario3 :
  applyExecution startDone E3 = (startDone, rejected "already_filled").
Proof.
  apply applyExecution_rejects, spec_firstRejection_filled;
    try first [ reflexivity | cbn; lia ].
  unfold startDone.
  destruct (newTradingEngine_view ∅ orderDone (mkAccount 100)) as (_ & _ & ->).
  set_solver.
Qed.

Example scenario4 :
  applyExecution start10 E4 = (start10, rejected "unknown_order").
Proof.
  apply applyExecution_rejects.
  unfold spec_firstRejection, spec_rejections, start10.
  destruct (newTradingEngine_view ∅ order10 (mkAccount 100)) as (Ho & _ & Hs).
  cbn [List.find fst snd]. rewrite Ho, Hs.
  rewrite (bool_decide_eq_false_2 (type E4 ≠ _)) by (intros ?; done).
  rewrite (bool_decide_eq_false_2 (_ ∈ _)) by set_solver.
  by rewrite (bool_decide_eq_true_2 (orderId E4 ≠ _)) by done.
Qed.

Example scenario5 :
  applyExecution start10 E5 = (start10, rejected "invalid_executed_quantity").
Proof.
  apply applyExecution_rejects, fresh_engine_invalid; cbn;
    first [ done | lia ].
Qed.

(** The store does tell a copy from the live object: adding an id to the
    engine's own set makes the engine reject that id as a duplicate. *)
Example live_reference_would_leak :
  let p := processedEventIds start10.2 in
  (applyExecution start10 E1).2 = appliedPlain ∧
  (applyExecution (mutate p start10.1 (DoAdd "E1"), start10.2) E1).2
  = rejected "duplicate_event".
Proof.
  assert (Hp : passes start10 E1)
    by (apply fresh_engine_passes; cbn; first [ done | lia ]).
  split; [by rewrite (applyExecution_passes _ _ Hp)|].
  erewrite applyExecution_rejects; [done|].
  unfold spec_firstRejection, spec_rejections. cbn [List.find fst snd].
  rewrite (bool_decide_eq_false_2 (type E1 ≠ _)) by (intros ?; done).
  rewrite (bool_decide_eq_true_2 (_ ∈ _)); [done|].
  unfold processed; cbn [fst snd mutate]. rewrite Set_add_contents.
  set_solver.
Qed.

(** * Further properties of the engine *)

(** ** One call, seen from outside *)

Lemma applyExecution_cases c evt :
  (∃ why, applyExecution c evt = (c, rejected why)) ∨ passes c evt.
Proof.
  destruct (spec_firstRejection c evt) as [why|] eqn:Hr.
  - left. exists why. by apply applyExecution_rejects.
  - right. by apply spec_firstRejection_None.
Qed.

Lemma not_passes_rejects c evt :
  ¬ passes c evt → ∃ why, applyExecution c evt = (c, rejected why).
Proof. intros Hn. by destruct (applyExecution_cases c evt). Qed.

(** The set reference, the order's id and its quantity never change. *)
Lemma applyExecution_fixed c evt :
  processedEventIds (applyExecution c evt).1.2 = processedEventIds c.2 ∧
  id (orderOf (applyExecution c evt).1) = id (orderOf c) ∧
  quantity (orderOf (applyExecution c evt).1) = quantity (orderOf c).
Proof.
  destruct (applyExecution_cases c evt) as [[why ->]|Hp]; [done|].
  rewrite (applyExecution_passes _ _ Hp). unfold orderOf; cbn.
  destruct (updateStatus_quantities
              (addFilled (order c.2) (effective c evt))) as (-> & _ & ->).
  done.
Qed.

(** The processed events after a call: one more on success. *)
Lemma applyExecution_processed c evt :
  processed (applyExecution c evt).1
  = if isApplied (applyExecution c evt).2
    then {[eventId evt]} ∪ processed c
    else processed c.
Proof.
  destruct (applyExecution_cases c evt) as [[why ->]|Hp]; [done|].
  unfold isApplied. rewrite bool_decide_eq_true_2 by by apply passes_applied.
  rewrite (applyExecution_passes _ _ Hp).
  unfold processed; cbn. apply Set_add_contents.
Qed.

Lemma applyExecution_processed_mono c evt :
  processed c ⊆ processed (applyExecution c evt).1.
Proof.
  rewrite applyExecution_processed. destruct (isApplied _); set_solver.
Qed.

(** A FILLED order freezes the configuration. *)
Lemma applyExecution_frozen c evt :
  status (orderOf c) = FILLED → (applyExecution c evt).1 = c.
Proof.
  intros Hs. destruct (applyExecution_cases c evt) as [[why ->]|Hp]; [done|].
  destruct Hp as (_ & _ & _ & _ & Hn). by destruct Hn.
Qed.

Lemma applyExecution_keeps_consistent c evt :
  consistent (orderOf c) → consistent (orderOf (applyExecution c evt).1).
Proof.
  intros Hc. destruct (applyExecution_cases c evt) as [[why ->]|Hp]; [done|].
  rewrite (applyExecution_passes _ _ Hp).
  destruct Hp as (_ & _ & _ & Hq & _). destruct Hc as (Hpos & Hb & _).
  unfold orderOf in *; cbn [fst snd order].
  apply updateStatus_consistent; unfold addFilled, effective, orderOf; cbn; lia.
Qed.

(** Balance and fill level move together. *)
Lemma applyExecution_conserves c evt :
  balance (accountOf (applyExecution c evt).1)
    + filledQuantity (orderOf (applyExecution c evt).1)
  = balance (accountOf c) + filledQuantity (orderOf c).
Proof.
  destruct (applyExecution_cases c evt) as [[why ->]|Hp]; [done|].
  rewrite (applyExecution_passes _ _ Hp). unfold orderOf, accountOf; cbn.
  destruct (updateStatus_quantities
              (addFilled (order c.2) (effective c evt))) as (_ & -> & _).
  cbn. lia.
Qed.

(** ** Deliveries *)

Lemma deliverAll_fixed c evts :
  processedEventIds (deliverAll c evts).2 = processedEventIds c.2 ∧
  id (orderOf (deliverAll c evts)) = id (orderOf c) ∧
  quantity (orderOf (deliverAll c evts)) = quantity (orderOf c).
Proof.
  revert c. induction evts as [|evt rest IH]; intros c; cbn; [done|].
  destruct (IH (applyExecution c evt).1) as (-> & -> & ->).
  apply applyExecution_fixed.
Qed.

Lemma deliverAll_processed_mono c evts :
  processed c ⊆ processed (deliverAll c evts).
Proof.
  revert c. induction evts as [|evt rest IH]; intros c; cbn; [done|].
  etrans; [apply (applyExecution_processed_mono c evt) | apply IH].
Qed.

Lemma deliverAll_frozen c evts :
  status (orderOf c) = FILLED → deliverAll c evts = c.
Proof.
  intros Hs. induction evts as [|evt rest IH]; cbn; [done|].
  by rewrite (applyExecution_frozen _ _ Hs).
Qed.

Lemma deliverAll_keeps_consistent c evts :
  consistent (orderOf c) → consistent (orderOf (deliverAll c evts)).
Proof.
  revert c. induction evts as [|evt rest IH]; intros c Hc; cbn; [done|].
  by apply IH, applyExecution_keeps_consistent.
Qed.

Lemma deliverAll_conserves c evts :
  balance (accountOf (deliverAll c evts))
    + filledQuantity (orderOf (deliverAll c evts))
  = balance (accountOf c) + filledQuantity (orderOf c).
Proof.
  revert c. induction evts as [|evt rest IH]; intros c; cbn; [done|].
  rewrite IH. apply applyExecution_conserves.
Qed.

(** X2: an event that was delivered once is a no-op whenever it is
    delivered again, however many other events were delivered in between:
    the later call is rejected and leaves the configuration as it was. *)
Theorem X2_late_redelivery_is_noop (c : store * TradingEngine)
    (evt : ExecutionEvent) (between : list ExecutionEvent) :
  let c' := deliverAll (applyExecution c evt).1 between in
  (applyExecution c' evt).1 = c' ∧
  applied (applyExecution c' evt).2 = Some (JBool false).
Proof.
  cbn zeta.
  assert (Hn : ¬ passes (deliverAll (applyExecution c evt).1 between) evt).
  { intros (Ht & Hid & Ho & Hq & Hs).
    destruct (deliverAll_fixed (applyExecution c evt).1 between)
      as (_ & Hi & _).
    destruct (applyExecution_fixed c evt) as (_ & Hi1 & _).
    pose proof (deliverAll_processed_mono (applyExecution c evt).1 between)
      as Hm.
    destruct (applyExecution_cases c evt) as [[why Hr]|Hp].
    - rewrite Hr in *; cbn [fst snd] in *.
      destruct (decide (status (orderOf c) = FILLED)) as [Hf|Hf].
      + apply Hs. by rewrite (deliverAll_frozen _ _ Hf).
      + assert (Hpc : passes c evt).
        { repeat split; [done | set_solver | congruence | done | done]. }
        pose proof (passes_applied _ _ Hpc) as Ha.
        rewrite Hr in Ha; cbn in Ha. by rewrite applied_rejected in Ha.
    - pose proof (passes_recorded _ _ Hp) as Hin. set_solver. }
  destruct (not_passes_rejects _ _ Hn) as [why ->]; cbn [fst snd].
  split; [done | apply applied_rejected].
Qed.

(** X3: over any delivery, the engine's set of processed ids grows by
    exactly one id per call that returned [applied: true]. *)
Theorem X3_processed_size_counts_applied (c : store * TradingEngine)
    (evts : list ExecutionEvent) :
  size (processed (deliverAll c evts))
  = (size (processed c) + appliedCalls c evts)%nat.
Proof.
  unfold appliedCalls. revert c.
  induction evts as [|evt rest IH]; intros c; cbn [deliverAll applyAll].
  - cbn. lia.
  - rewrite IH. cbn [List.filter fst snd].
    rewrite applyExecution_processed.
    destruct (isApplied (applyExecution c evt).2) eqn:Ha; cbn [length]; [|done].
    apply bool_decide_eq_true in Ha. apply applied_passes in Ha.
    destruct Ha as (_ & Hid & _).
    rewrite size_union by set_solver. rewrite size_singleton. lia.
Qed.

(** ** The final fill level *)

Lemma consistent_filled o :
  consistent o → (status o = FILLED ↔ filledQuantity o = quantity o).
Proof.
  intros (Hq & Hb & Hs). unfold spec_status in Hs.
  repeat case_decide; split; intros; first [ lia | congruence ].
Qed.

Lemma consistent_status_unique o1 o2 :
  consistent o1 → consistent o2 →
  filledQuantity o1 = filledQuantity o2 → quantity o1 = quantity o2 →
  status o1 = status o2.
Proof.
  intros (_ & _ & H1) (_ & _ & H2) Hf Hq. rewrite Hf, Hq in H1. congruence.
Qed.

Lemma totalQuantity_cons evt rest :
  totalQuantity (evt :: rest) = executedQuantity evt + totalQuantity rest.
Proof. reflexivity. Qed.

Lemma totalQuantity_nonneg c evts :
  Forall (wellFormedFor c) evts → 0 ≤ totalQuantity evts.
Proof.
  induction 1 as [|evt rest (_ & _ & Hq) _ IH];
    unfold totalQuantity in *; cbn; lia.
Qed.

Lemma totalQuantity_Permutation evts1 evts2 :
  evts1 ≡ₚ evts2 → totalQuantity evts1 = totalQuantity evts2.
Proof. induction 1; unfold totalQuantity in *; cbn; lia. Qed.

Lemma wellFormedFor_step c evt evt' :
  wellFormedFor c evt' → wellFormedFor (applyExecution c evt).1 evt'.
Proof.
  unfold wellFormedFor. destruct (applyExecution_fixed c evt) as (_ & -> & _).
  done.
Qed.

Lemma deliverAll_fill c evts :
  consistent (orderOf c) → Forall (wellFormedFor c) evts →
  NoDup (eventId <$> evts) →
  (∀ evt, evt ∈ evts → eventId evt ∉ processed c) →
  filledQuantity (orderOf (deliverAll c evts))
  = Z.min (quantity (orderOf c))
          (filledQuantity (orderOf c) + totalQuantity evts).
Proof.
  revert c. induction evts as [|evt rest IH]; intros c Hc Hwf Hnd Hnew.
  - cbn. destruct Hc as (_ & Hb & _). lia.
  - apply Forall_cons in Hwf as [Hw Hwf]. cbn in Hnd.
    apply NoDup_cons in Hnd as [Hnotin Hnd].
    pose proof (totalQuantity_nonneg _ _ Hwf) as Ht.
    destruct Hw as (Hty & Ho & Hq).
    destruct (decide (status (orderOf c) = FILLED)) as [Hf|Hf].
    + rewrite (deliverAll_frozen _ _ Hf).
      apply (consistent_filled _ Hc) in Hf. rewrite totalQuantity_cons. lia.
    + assert (Hp : passes c evt).
      { repeat split; [done | apply Hnew; set_solver | done..]. }
      cbn [deliverAll]. rewrite IH.
      * destruct (applyExecution_fixed c evt) as (_ & _ & ->).
        rewrite (applyExecution_passes _ _ Hp).
        unfold orderOf at 2; cbn [fst snd order].
        destruct (updateStatus_quantities
                    (addFilled (orderOf c) (effective c evt)))
          as (_ & -> & _).
        destruct Hc as (_ & Hb & _).
        rewrite totalQuantity_cons. unfold effective, addFilled; cbn. lia.
      * by apply applyExecution_keeps_consistent.
      * eapply Forall_impl; [exact Hwf|]. intros e. apply wellFormedFor_step.
      * done.
      * intros e He. rewrite applyExecution_processed.
        unfold isApplied.
        rewrite bool_decide_eq_true_2 by by apply passes_applied.
        assert (Hne : eventId e ≠ eventId evt).
        { intros Heq. apply Hnotin. rewrite <- Heq.
          by apply list_elem_of_fmap_2. }
        assert (Hold : eventId e ∉ processed c)
          by (apply Hnew; by apply list_elem_of_further).
        rewrite elem_of_union, elem_of_singleton. tauto.
Qed.

(** In exact integers: on a consistent order, delivering well-formed events
    (type "execution", this order's id, positive quantity) whose ids are
    pairwise different and were never processed leaves the fill level at
    [min(quantity, filledQuantity + sum of the executed quantities)]; the
    balance has gone down by what was filled. *)
Lemma final_fill_exact (c : store * TradingEngine)
    (evts : list ExecutionEvent) :
  consistent (orderOf c) → Forall (wellFormedFor c) evts →
  NoDup (eventId <$> evts) →
  (∀ evt, evt ∈ evts → eventId evt ∉ processed c) →
  let c' := deliverAll c evts in
  filledQuantity (orderOf c')
  = Z.min (quantity (orderOf c))
          (filledQuantity (orderOf c) + totalQuantity evts) ∧
  balance (accountOf c')
  = balance (accountOf c)
    - (filledQuantity (orderOf c') - filledQuantity (orderOf c)).
Proof.
  intros Hc Hwf Hnd Hnew. cbn zeta.
  split; [by apply deliverAll_fill|].
  pose proof (deliverAll_conserves c evts). lia.
Qed.

Lemma start10_consistent : consistent (orderOf start10).
Proof.
  unfold consistent, spec_status; cbn.
  repeat case_decide; repeat split; first [ lia | done | exfalso; lia ].
Qed.

Lemma start10_wellFormed :
  Forall (wellFormedFor start10) [E1; E2; E3].
Proof. repeat constructor; cbn; lia. Qed.

Lemma start10_fresh_ids :
  ∀ evt, evt ∈ [E1; E2; E3] → eventId evt ∉ processed start10.
Proof.
  intros evt _. unfold start10.
  destruct (newTradingEngine_view ∅ order10 (mkAccount 100)) as (_ & _ & ->).
  set_solver.
Qed.

Lemma E123_NoDup : NoDup (eventId <$> [E1; E2; E3]).
Proof.
  cbn. repeat (apply NoDup_cons; split;
    [rewrite ?not_elem_of_cons; repeat split;
       first [ discriminate | apply not_elem_of_nil ]|]).
  apply NoDup_nil_2.
Qed.

(** In exact integers, under the same conditions the order in which the
    events arrive does not matter for the order and the account: two
    deliveries of the same events in different orders end with equal [Order]
    and [Account] (the processed-event sets may differ, since an event that
    arrives after the order is FILLED is not recorded). *)
Lemma delivery_order_exact (c : store * TradingEngine)
    (evts evts' : list ExecutionEvent) :
  consistent (orderOf c) → Forall (wellFormedFor c) evts →
  NoDup (eventId <$> evts) →
  (∀ evt, evt ∈ evts → eventId evt ∉ processed c) →
  evts ≡ₚ evts' →
  orderOf (deliverAll c evts') = orderOf (deliverAll c evts) ∧
  accountOf (deliverAll c evts') = accountOf (deliverAll c evts).
Proof.
  intros Hc Hwf Hnd Hnew Hperm.
  assert (Hwf' : Forall (wellFormedFor c) evts') by by rewrite <- Hperm.
  assert (Hnd' : NoDup (eventId <$> evts')) by by rewrite <- Hperm.
  assert (Hnew' : ∀ evt, evt ∈ evts' → eventId evt ∉ processed c).
  { intros e He. apply Hnew. by rewrite Hperm. }
  pose proof (deliverAll_fill c evts Hc Hwf Hnd Hnew) as Hf.
  pose proof (deliverAll_fill c evts' Hc Hwf' Hnd' Hnew') as Hf'.
  rewrite <- (totalQuantity_Permutation _ _ Hperm), <- Hf in Hf'.
  destruct (deliverAll_fixed c evts) as (_ & Hi & Hq).
  destruct (deliverAll_fixed c evts') as (_ & Hi' & Hq').
  pose proof (deliverAll_keeps_consistent c evts Hc) as Hk.
  pose proof (deliverAll_keeps_consistent c evts' Hc) as Hk'.
  assert (Hs : status (orderOf (deliverAll c evts'))
               = status (orderOf (deliverAll c evts)))
    by (apply consistent_status_unique; congruence).
  pose proof (deliverAll_conserves c evts) as Hb.
  pose proof (deliverAll_conserves c evts') as Hb'.
  split.
  - destruct (orderOf (deliverAll c evts')), (orderOf (deliverAll c evts)).
    cbn in *. congruence.
  - destruct (accountOf (deliverAll c evts')), (accountOf (deliverAll c evts)).
    cbn in *. f_equal. lia.
Qed.

(** ** An order that starts over-filled *)

(** In exact integers: an order handed to the engine with [filledQuantity >
    quantity] and a status other than FILLED is pulled back by the first
    event that passes the guards: [remaining] is negative, so the fill level
    drops to exactly [quantity], the status becomes FILLED, the balance goes
    up by the excess and the call reports [capped_overfill]. *)
Lemma pulled_back_exact (c : store * TradingEngine)
    (evt : ExecutionEvent) :
  passes c evt → quantity (orderOf c) < filledQuantity (orderOf c) →
  let '(c', r) := applyExecution c evt in
  filledQuantity (orderOf c') = quantity (orderOf c) ∧
  status (orderOf c') = FILLED ∧
  balance (accountOf c')
  = balance (accountOf c) + (filledQuantity (orderOf c) - quantity (orderOf c)) ∧
  r = appliedWith "capped_overfill".
Proof.
  intros Hp Hover. rewrite (applyExecution_passes _ _ Hp).
  destruct Hp as (_ & _ & _ & Hq & _).
  assert (He : effective c evt
               = quantity (orderOf c) - filledQuantity (orderOf c))
    by (unfold effective; lia).
  rewrite decide_True by lia. rewrite He.
  unfold orderOf, accountOf, updateStatus, addFilled, setStatus in *; cbn.
  rewrite decide_True by (cbn; lia). cbn.
  repeat split; lia.
Qed.

(** ** The returned set is a snapshot *)

Lemma applyExecution_store_other c evt s :
  s ≠ processedEventIds c.2 → (applyExecution c evt).1.1 !!! s = c.1 !!! s.
Proof.
  intros Hne. destruct (applyExecution_cases c evt) as [[why ->]|Hp]; [done|].
  rewrite (applyExecution_passes _ _ Hp); cbn. by apply Set_add_other.
Qed.

Lemma deliverAll_store_other c evts s :
  s ≠ processedEventIds c.2 → (deliverAll c evts).1 !!! s = c.1 !!! s.
Proof.
  revert c. induction evts as [|evt rest IH]; intros c Hne; cbn; [done|].
  rewrite IH.
  - by apply applyExecution_store_other.
  - by destruct (applyExecution_fixed c evt) as (-> & _).
Qed.

(** X7: the set [getProcessedEventIds] returns is a snapshot: whatever is
    delivered to the engine afterwards, and even after
    [clearProcessedEvents], the returned set still holds exactly the ids
    that were processed when it was taken. *)
Theorem X7_returned_set_is_a_snapshot (c : store * TradingEngine)
    (evts : list ExecutionEvent) :
  allocated c →
  let '(c1, r) := getProcessedEventIds c in
  (deliverAll c1 evts).1 !!! r = processed c ∧
  (clearProcessedEvents (deliverAll c1 evts)).1 !!! r = processed c.
Proof.
  destruct c as [σ this]. unfold allocated; cbn [fst snd]. intros Hal.
  unfold getProcessedEventIds, Set_new_from.
  set (r := fresh (dom σ)).
  assert (Hne : r ≠ processedEventIds this).
  { intros Heq. apply (is_fresh (dom σ)). fold r. by rewrite Heq. }
  assert (Hd : (deliverAll (<[r:=σ !!! processedEventIds this]> σ, this) evts).1
               !!! r = processed (σ, this)).
  { rewrite deliverAll_store_other by done. cbn.
    apply lookup_total_insert_eq. }
  split; [exact Hd|].
  destruct (deliverAll_fixed (<[r:=σ !!! processedEventIds this]> σ, this) evts)
    as (Hp & _).
  destruct (deliverAll _ evts) as [σ' this']; cbn in *.
  unfold Set_clear. rewrite lookup_total_insert_ne by congruence. exact Hd.
Qed.

Lemma X7_returned_set_is_a_snapshot_witness :
  allocated start10 ∧
  let '(c1, r) := getProcessedEventIds start10 in
  (deliverAll c1 [E1; E2]).1 !!! r = processed start10 ∧
  (clearProcessedEvents (deliverAll c1 [E1; E2])).1 !!! r = processed start10.
Proof.
  assert (Hal : allocated start10) by apply newTradingEngine_allocated.
  split; [exact Hal | exact (X7_returned_set_is_a_snapshot start10 [E1; E2] Hal)].
Defined.

(** ** Clearing re-opens the door *)

(** In exact integers: [clearProcessedEvents] gives up the idempotence: on a
    consistent order, an event that was applied and did not fill the order
    is applied a second time when it is delivered again after the clearing,
    and the fill level rises again. *)
Lemma double_apply_exact (c : store * TradingEngine)
    (evt : ExecutionEvent) :
  consistent (orderOf c) → passes c evt →
  status (orderOf (applyExecution c evt).1) ≠ FILLED →
  let c1 := (applyExecution c evt).1 in
  let c2 := clearProcessedEvents c1 in
  applied (applyExecution c2 evt).2 = Some (JBool true) ∧
  filledQuantity (orderOf c1)
  < filledQuantity (orderOf (applyExecution c2 evt).1).
Proof.
  intros Hc Hp Hnf. cbn zeta.
  pose proof (applyExecution_keeps_consistent c evt Hc) as Hc1.
  destruct (applyExecution_fixed c evt) as (_ & Hi & _).
  set (c1 := (applyExecution c evt).1) in *.
  assert (Hp2 : passes (clearProcessedEvents c1) evt).
  { destruct Hp as (Ht & _ & Ho & Hq & _). destruct c1 as [σ1 this1].
    unfold passes, processed, orderOf, clearProcessedEvents, Set_clear in *;
      cbn in *.
    rewrite lookup_total_insert_eq.
    repeat split; [done | set_solver | congruence | done | done]. }
  split; [by apply passes_applied|].
  rewrite (applyExecution_passes _ _ Hp2).
  assert (Ho2 : orderOf (clearProcessedEvents c1) = orderOf c1)
    by by destruct c1.
  unfold orderOf at 2; cbn [fst snd order].
  destruct (updateStatus_quantities
              (addFilled (orderOf (clearProcessedEvents c1))
                 (effective (clearProcessedEvents c1) evt)))
    as (_ & -> & _).
  unfold effective, addFilled; cbn. rewrite Ho2.
  destruct Hp as (_ & _ & _ & Hq & _).
  assert (filledQuantity (orderOf c1) ≠ quantity (orderOf c1)).
  { intros Heq. by apply Hnf, (consistent_filled _ Hc1). }
  destruct Hc1 as (_ & Hb & _). lia.
Qed.

(** * [executeOrder] *)

Module ExecuteOrderFacts.
Import ExecuteOrder.

Lemma isDuplicate_after_fill now now' o q k :
  isDuplicate now' (updateStatus (fill now o q k)) q
  = bool_decide (now' - now < 100).
Proof.
  unfold isDuplicate; cbn. by rewrite bool_decide_eq_true_2 by done.
Qed.

(** What a call does, by cases: nothing when the guard matches; otherwise a
    fill when there is something to fill, and the status is set anew. *)
Lemma executeOrder_cases now o a q :
  let k := Z.min q (quantity o - filledQuantity o) in
  (isDuplicate now o q = true ∧ executeOrder now o a q = (o, a)) ∨
  (isDuplicate now o q = false ∧ k ≤ 0 ∧
   executeOrder now o a q = (updateStatus o, a)) ∨
  (isDuplicate now o q = false ∧ 0 < k ∧
   executeOrder now o a q
   = (updateStatus (fill now o q k),
      {| balance := balance a + spec_balanceChange (side o) k |})).
Proof.
  cbn zeta. unfold executeOrder.
  destruct (isDuplicate now o q); [by left|right].
  case_decide; [right | left]; (split; [done|]); (split; [lia|]).
  - by destruct (side o).
  - done.
Qed.

(** In exact integers: [executeOrder] never lowers the fill level and never
    takes it above the larger of its old value and the order's quantity; an
    order that is not over-filled stays so. *)
Lemma executeOrder_fill_bounds (now : Z) (o : Order) (a : Account)
    (q : Z) :
  let o' := (executeOrder now o a q).1 in
  filledQuantity o ≤ filledQuantity o'
  ≤ Z.max (filledQuantity o) (quantity o).
Proof.
  cbn zeta.
  destruct (executeOrder_cases now o a q)
    as [(_ & ->) | [(_ & _ & ->) | (_ & Hk & ->)]]; cbn; lia.
Qed.

(** In exact integers: the balance moves by the units filled, down for a BUY
    order and up for a SELL order; side, quantity and id are left alone. *)
Lemma executeOrder_signed_balance (now : Z) (o : Order) (a : Account)
    (q : Z) :
  let '(o', a') := executeOrder now o a q in
  balance a'
  = balance a
    + spec_balanceChange (side o) (filledQuantity o' - filledQuantity o) ∧
  side o' = side o ∧ quantity o' = quantity o ∧ id o' = id o.
Proof.
  destruct (executeOrder_cases now o a q)
    as [(_ & ->) | [(_ & _ & ->) | (_ & Hk & ->)]]; cbn;
    (split; [|done]); destruct (side o), a; cbn; try f_equal; lia.
Qed.

Lemma executeOrder_signed_balance_fields now o a q :
  side (executeOrder now o a q).1 = side o ∧
  quantity (executeOrder now o a q).1 = quantity o ∧
  id (executeOrder now o a q).1 = id o.
Proof.
  pose proof (executeOrder_signed_balance now o a q) as H.
  destruct (executeOrder now o a q) as [o' a']. by destruct H as (_ & H).
Qed.

(** In exact integers: a consistent order (positive quantity, fill level
    within bounds, status matching the fill level) is consistent after any
    call. *)
Lemma executeOrder_keeps_consistent (now : Z) (o : Order)
    (a : Account) (q : Z) :
  consistent o → consistent (executeOrder now o a q).1.
Proof.
  intros (Hq & Hb & Hs).
  destruct (executeOrder_cases now o a q)
    as [(_ & ->) | [(_ & _ & ->) | (_ & Hk & ->)]]; cbn [fst].
  - done.
  - unfold consistent, spec_status, updateStatus in *; cbn.
    repeat case_decide; repeat split; first [ lia | done | exfalso; lia ].
  - unfold consistent, spec_status, updateStatus, fill in *; cbn.
    repeat case_decide; repeat split; first [ lia | done | exfalso; lia ].
Qed.

Lemma buy10_consistent : consistent buy10.
Proof.
  unfold consistent, spec_status; cbn.
  repeat case_decide; repeat split; first [ lia | done | exfalso; lia ].
Qed.

(** X12: after a call that filled something, a call with the same quantity
    less than 100 ms later does nothing at all, whether it is a redelivery
    or another execution of the same size. *)
Theorem X12_executeOrder_suppresses_repeat (now1 now2 : Z) (o : Order)
    (a : Account) (q : Z) :
  filledQuantity (executeOrder now1 o a q).1 ≠ filledQuantity o →
  now2 - now1 < 100 →
  let '(o1, a1) := executeOrder now1 o a q in
  executeOrder now2 o1 a1 q = (o1, a1).
Proof.
  intros Hch Hw.
  destruct (executeOrder_cases now1 o a q)
    as [(_ & He) | [(_ & _ & He) | (_ & Hk & He)]]; rewrite He in *;
    cbn in Hch; try done.
  unfold executeOrder. rewrite isDuplicate_after_fill.
  by rewrite bool_decide_eq_true_2 by done.
Qed.

Lemma X12_executeOrder_suppresses_repeat_witness :
  filledQuantity (executeOrder 1000 buy10 (mkAccount 100) 4).1
    ≠ filledQuantity buy10 ∧
  1050 - 1000 < 100 ∧
  let '(o1, a1) := executeOrder 1000 buy10 (mkAccount 100) 4 in
  executeOrder 1050 o1 a1 4 = (o1, a1).
Proof.
  assert (H1 : filledQuantity (executeOrder 1000 buy10 (mkAccount 100) 4).1
               ≠ filledQuantity buy10) by (vm_compute; discriminate).
  assert (H2 : 1050 - 1000 < 100) by lia.
  split; [exact H1|]. split; [exact H2|].
  exact (X12_executeOrder_suppresses_repeat 1000 1050 buy10 (mkAccount 100) 4
           H1 H2).
Defined.

(** In exact integers: the suppression is a matter of time only: when the
    same quantity comes again 100 ms or more after a call that filled
    something, and the order is not full, it is filled a second time. *)
Lemma executeOrder_repeats_after_window (now1 now2 : Z) (o : Order)
    (a : Account) (q : Z) :
  filledQuantity (executeOrder now1 o a q).1 ≠ filledQuantity o →
  100 ≤ now2 - now1 →
  let '(o1, a1) := executeOrder now1 o a q in
  filledQuantity o1 < quantity o1 →
  filledQuantity o1 < filledQuantity (executeOrder now2 o1 a1 q).1.
Proof.
  intros Hch Hw.
  destruct (executeOrder_cases now1 o a q)
    as [(_ & He) | [(_ & _ & He) | (_ & Hk & He)]]; rewrite He in *;
    cbn in Hch; try done.
  intros Hroom.
  destruct (executeOrder_cases now2
              (updateStatus (fill now1 o q (Z.min q (quantity o - filledQuantity o))))
              {| balance := balance a + spec_balanceChange (side o)
                              (Z.min q (quantity o - filledQuantity o)) |} q)
    as [(Hd & _) | [(_ & Hk2 & _) | (_ & Hk2 & ->)]].
  - rewrite isDuplicate_after_fill in Hd.
    apply bool_decide_eq_true in Hd. lia.
  - cbn in *. lia.
  - cbn in *. lia.
Qed.

(** X14: when there is nothing to fill, because the quantity is not
    positive or the order has no room left, the fill level, the account and
    the note of the last execution are left as they were. *)
Theorem X14_executeOrder_nothing_to_fill (now : Z) (o : Order) (a : Account)
    (q : Z) :
  q ≤ 0 ∨ quantity o ≤ filledQuantity o →
  let '(o', a') := executeOrder now o a q in
  filledQuantity o' = filledQuantity o ∧ a' = a ∧
  _lastExecution o' = _lastExecution o.
Proof.
  intros Hn.
  destruct (executeOrder_cases now o a q)
    as [(_ & ->) | [(_ & _ & ->) | (_ & Hk & ->)]]; cbn; [done | done | lia].
Qed.

Lemma X14_executeOrder_nothing_to_fill_witness :
  (-5 ≤ 0 ∨ quantity sell10 ≤ filledQuantity sell10) ∧
  let '(o', a') := executeOrder 1000 sell10 (mkAccount 100) (-5) in
  filledQuantity o' = filledQuantity sell10 ∧ a' = mkAccount 100 ∧
  _lastExecution o' = _lastExecution sell10.
Proof.
  assert (H : -5 ≤ 0 ∨ quantity sell10 ≤ filledQuantity sell10)
    by (left; lia).
  split; [exact H|].
  exact (X14_executeOrder_nothing_to_fill 1000 sell10 (mkAccount 100) (-5) H).
Defined.

End ExecuteOrderFacts.

(** * [ExecutionConsumer] *)

Module ConsumerFacts.
Import Consumer.

Lemma apply_cases this evt :
  (∃ why, Consumer.apply this evt = reject this why) ∨
  (accepts this evt ∧
   Consumer.apply this evt
   = ({| order := updateStatus (addFilled (order this) (effectiveOf this evt));
         account := {| balance := balance (account this)
                                  - effectiveOf this evt |};
         seen := {[eventId evt]} ∪ seen this;
         appliedCount := appliedCount this + 1;
         rejectedCount := rejectedCount this;
         initialBalance := initialBalance this |},
      success (bool_decide (effectiveOf this evt < executedQuantity evt))
              (effectiveOf this evt))).
Proof.
  unfold Consumer.apply, accepts.
  case_bool_decide; [left; by eexists|].
  case_decide; [left; by eexists|].
  case_decide; [left; by eexists|].
  case_decide; [left; by eexists|].
  right. split; [|done].
  repeat split; first [ done | by apply dec_stable | lia ].
Qed.

Lemma success_applied isCapped k :
  applied (success isCapped k) = Some (JBool true).
Proof. by destruct isCapped. Qed.

Lemma success_reason isCapped k :
  reason (success isCapped k)
  = if isCapped then Some (JString "capped") else None.
Proof.
  destruct isCapped; unfold reason, success.
  - rewrite lookup_insert_ne by discriminate. apply lookup_insert_eq.
  - rewrite lookup_insert_ne by discriminate.
    apply lookup_singleton_ne. discriminate.
Qed.

Lemma success_effectiveQuantity isCapped k :
  effectiveQuantity (success isCapped k) = Some (JNumber k).
Proof.
  destruct isCapped; unfold effectiveQuantity, success.
  - rewrite !lookup_insert_ne by discriminate. apply lookup_singleton_eq.
  - rewrite lookup_insert_ne by discriminate. apply lookup_singleton_eq.
Qed.

(** X15: on events of type "execution" the consumer and the engine go the
    same way.  From matching order, account and processed ids, a call of
    each leaves them matching; both answer with the same [applied]; the
    consumer's reason is the engine's under the renaming
    (duplicate_event to duplicate, unknown_order to wrong_order,
    invalid_executed_quantity to invalid_qty, capped_overfill to capped);
    and on success the consumer also reports the effective quantity. *)
Theorem X15_consumer_follows_engine (this : ExecutionConsumer)
    (c : store * TradingEngine) (evt : ExecutionEvent) :
  matches this c → type evt = "execution" →
  let '(this', r) := Consumer.apply this evt in
  let '(c', r') := applyExecution c evt in
  matches this' c' ∧
  applied r = applied r' ∧
  reason r = shortReasonValue <$> reason r' ∧
  effectiveQuantity r
  = if isApplied r' then Some (JNumber (effective c evt)) else None.
Proof.
  intros (Ho & Ha & Hs) Ht.
  assert (Heff : effectiveOf this evt = effective c evt)
    by (unfold effectiveOf, effective; by rewrite Ho).
  destruct (apply_cases this evt) as [[why Hr]|[Hacc Hr]].
  - assert (Hn : ¬ passes c evt).
    { intros (_ & Hid & Hord & Hq & Hst). revert Hr.
      unfold Consumer.apply. rewrite Hs, Ho.
      rewrite bool_decide_eq_false_2 by done.
      rewrite decide_False by (intros ?; done).
      rewrite decide_False by lia. rewrite decide_False by done.
      unfold reject. intros Hrej. apply (f_equal snd) in Hrej.
      cbn [snd] in Hrej. apply (f_equal applied) in Hrej.
      rewrite success_applied, applied_rejected in Hrej. done. }
    destruct (spec_firstRejection c evt) as [why'|] eqn:Hfr;
      [|by apply spec_firstRejection_None in Hfr].
    rewrite (applyExecution_rejects _ _ _ Hfr).
    assert (Hwhy : why = shortReason why').
    { revert Hr Hfr. unfold Consumer.apply, reject, spec_firstRejection,
        spec_rejections. cbn [List.find fst snd]. rewrite Hs, Ho.
      rewrite (bool_decide_eq_false_2 (type evt ≠ _)) by (intros ?; done).
      repeat first [ case_bool_decide | case_decide ];
        cbn [fmap option_fmap option_map fst snd];
        intros Hrej Hfr'; try discriminate Hfr';
        try (exfalso; first [ tauto | lia ]);
        injection Hfr' as <-;
        apply (f_equal snd) in Hrej; cbn [snd] in Hrej;
        apply rejected_inj in Hrej; by subst why. }
    rewrite Hr. unfold reject; cbn [fst snd].
    split; [done|]. split; [by rewrite !applied_rejected|].
    split; [by rewrite !reason_rejected, Hwhy|].
    rewrite effectiveQuantity_rejected. unfold isApplied.
    by rewrite applied_rejected.
  - assert (Hp : passes c evt).
    { destruct Hacc as (Hid & Hord & Hq & Hst).
      repeat split; [done | by rewrite <- Hs | by rewrite <- Ho | done
                    | by rewrite <- Ho]. }
    rewrite Hr, (applyExecution_passes _ _ Hp).
    assert (Hia : isApplied
                    (if decide (effective c evt < executedQuantity evt)
                     then appliedWith "capped_overfill" else appliedPlain)
                  = true).
    { unfold isApplied. apply bool_decide_eq_true_2.
      destruct (decide (effective c evt < executedQuantity evt));
        [apply applied_appliedWith | apply applied_appliedPlain]. }
    rewrite Hia, Heff.
    split.
    { unfold matches, orderOf, accountOf, processed in *; cbn.
      rewrite Set_add_contents. by rewrite Ho, Ha, Hs. }
    rewrite success_applied, success_reason, success_effectiveQuantity.
    clear Hr Hia.
    destruct (decide (effective c evt < executedQuantity evt)) as [Hlt|Hlt].
    + rewrite bool_decide_eq_true_2 by done.
      by rewrite applied_appliedWith, reason_appliedWith.
    + by rewrite bool_decide_eq_false_2 by done.
Qed.

Lemma new_matches_fresh_engine o a :
  matches (new o a) (newTradingEngine ∅ o a).
Proof.
  destruct (newTradingEngine_view ∅ o a) as (Ho & Ha & Hp).
  unfold matches. by rewrite Ho, Ha, Hp.
Qed.

Lemma X15_consumer_follows_engine_witness :
  matches (new order8 (mkAccount 100)) start8 ∧ type E2 = "execution" ∧
  let '(this', r) := Consumer.apply (new order8 (mkAccount 100)) E2 in
  let '(c', r') := applyExecution start8 E2 in
  matches this' c' ∧
  applied r = applied r' ∧
  reason r = shortReasonValue <$> reason r' ∧
  effectiveQuantity r
  = if isApplied r' then Some (JNumber (effective start8 E2)) else None.
Proof.
  assert (Hm : matches (new order8 (mkAccount 100)) start8)
    by apply new_matches_fresh_engine.
  assert (Ht : type E2 = "execution") by reflexivity.
  split; [exact Hm|]. split; [exact Ht|].
  exact (X15_consumer_follows_engine _ start8 E2 Hm Ht).
Defined.

(** ** The consumer's self-check and its counters *)

Lemma apply_keeps_healthy this evt :
  consistent (order this) →
  balance (account this) ≤ initialBalance this →
  consistent (order (Consumer.apply this evt).1) ∧
  balance (account (Consumer.apply this evt).1)
  ≤ initialBalance (Consumer.apply this evt).1.
Proof.
  intros Hc Hb.
  destruct (apply_cases this evt) as [[why ->]|[Hacc ->]]; [done|].
  destruct Hacc as (_ & _ & Hq & _). destruct Hc as (Hpos & Hbd & _).
  cbn [fst order account initialBalance balance]. split.
  - apply updateStatus_consistent; unfold addFilled, effectiveOf; cbn; lia.
  - unfold effectiveOf. lia.
Qed.

Lemma applyAll_keeps_healthy this evts :
  consistent (order this) →
  balance (account this) ≤ initialBalance this →
  consistent (order (applyAll this evts)) ∧
  balance (account (applyAll this evts)) ≤ initialBalance (applyAll this evts).
Proof.
  revert this. induction evts as [|evt rest IH]; intros this Hc Hb; cbn;
    [done|].
  destruct (apply_keeps_healthy this evt Hc Hb) as [Hc' Hb']. by apply IH.
Qed.

Lemma healthy_passes_assertInvariants this :
  consistent (order this) →
  balance (account this) ≤ initialBalance this →
  assertInvariants this = None.
Proof.
  intros (Hq & Hb & Hs) Hbal. unfold assertInvariants, spec_status in *.
  repeat case_decide; try done; try lia;
    exfalso; first [ lia | intuition (first [ lia | congruence ]) ].
Qed.

(** In exact integers: a consumer built on a consistent order never fails
    its own check: after any list of events [assertInvariants] returns
    without throwing. *)
Lemma consumer_assertInvariants_None (o : Order) (a : Account)
    (evts : list ExecutionEvent) :
  consistent o → assertInvariants (applyAll (new o a) evts) = None.
Proof.
  intros Hc.
  destruct (applyAll_keeps_healthy (new o a) evts Hc) as [Hc' Hb'];
    [cbn; lia|].
  by apply healthy_passes_assertInvariants.
Qed.

Lemma order10_consistent : consistent order10.
Proof.
  unfold consistent, spec_status; cbn.
  repeat case_decide; repeat split; first [ lia | done | exfalso; lia ].
Qed.

Lemma apply_counters this evt :
  appliedCount (Consumer.apply this evt).1
    + rejectedCount (Consumer.apply this evt).1
  = appliedCount this + rejectedCount this + 1 ∧
  Z.of_nat (size (seen (Consumer.apply this evt).1))
    - appliedCount (Consumer.apply this evt).1
  = Z.of_nat (size (seen this)) - appliedCount this.
Proof.
  destruct (apply_cases this evt) as [[why ->]|[Hacc ->]]; cbn; [lia|].
  destruct Hacc as (Hid & _).
  rewrite size_union by set_solver. rewrite size_singleton. lia.
Qed.

Lemma applyAll_counters this evts :
  appliedCount (applyAll this evts) + rejectedCount (applyAll this evts)
  = appliedCount this + rejectedCount this + Z.of_nat (length evts) ∧
  Z.of_nat (size (seen (applyAll this evts)))
    - appliedCount (applyAll this evts)
  = Z.of_nat (size (seen this)) - appliedCount this.
Proof.
  revert this. induction evts as [|evt rest IH]; intros this;
    cbn [applyAll length]; [lia|].
  destruct (IH (Consumer.apply this evt).1) as [-> ->].
  destruct (apply_counters this evt) as [H1 H2]. lia.
Qed.

(** X17: after any list of events delivered to a new consumer, the two
    counters add up to the number of calls, [seenCount] equals
    [appliedCount], and [duplicateCount] is 0, however many duplicates were
    rejected. *)
Theorem X17_metrics_after_delivery (o : Order) (a : Account)
    (evts : list ExecutionEvent) :
  let m := getMetrics (applyAll (new o a) evts) in
  Metrics.appliedCount m + Metrics.rejectedCount m = Z.of_nat (length evts) ∧
  Metrics.seenCount m = Metrics.appliedCount m ∧
  Metrics.duplicateCount m = 0.
Proof.
  destruct (applyAll_counters (new o a) evts) as [H1 H2].
  cbn in *. rewrite size_empty in H2. lia.
Qed.

(** X18: [clearCache] empties the set but not the counters, and the
    metrics never recover: whatever is delivered after a clearing,
    [duplicateCount] stays at minus the number of events that had been
    applied when the cache was cleared. *)
Theorem X18_duplicateCount_after_clearCache (o : Order) (a : Account)
    (before after : list ExecutionEvent) :
  let cleared := clearCache (applyAll (new o a) before) in
  Metrics.duplicateCount (getMetrics (applyAll cleared after))
  = - appliedCount (applyAll (new o a) before).
Proof.
  cbn zeta.
  destruct (applyAll_counters (clearCache (applyAll (new o a) before)) after)
    as [_ H].
  cbn in *. rewrite size_empty in H. lia.
Qed.

End ConsumerFacts.

(** * The mock engine *)

Module MockEngineFacts.
Import MockEngine.

Lemma mock_applyExecution_cases s evt :
  (∃ why, MockEngine.applyExecution s evt = (s, rejected why)) ∨
  (∃ order k,
     (eventId evt ∉ processedEventIds s) ∧
     orders s !! orderId evt = Some order ∧
     0 < executedQuantity evt ∧
     k = Z.min (executedQuantity evt) (quantity order - filledQuantity order) ∧
     MockEngine.applyExecution s evt
     = ({| orders :=
             <[orderId evt := MockEngine.updateStatus (addFilled order k)]>
               (orders s);
           processedEventIds := {[eventId evt]} ∪ processedEventIds s;
           broadcasts := broadcasts s ++ [evt] |},
        if decide (k < executedQuantity evt)
        then appliedWith "capped_overfill"
        else appliedPlain)).
Proof.
  unfold MockEngine.applyExecution.
  case_bool_decide; [left; by eexists|].
  destruct (orders s !! orderId evt) as [order|] eqn:Ho; [|left; by eexists].
  case_decide; [left; by eexists|].
  case_decide; [left; by eexists|].
  right. exists order, (Z.min (executedQuantity evt)
                          (quantity order - filledQuantity order)).
  repeat split; first [ done | lia ].
Qed.

(** X19: a call of the mock engine's [applyExecution] neither creates nor
    deletes an order and leaves every order other than the one the event
    names as it was; an event for an order that is not in the map changes
    nothing at all. *)
Theorem X19_mock_touches_only_the_target (s : State) (evt : ExecutionEvent) :
  let s' := (MockEngine.applyExecution s evt).1 in
  dom (orders s') = dom (orders s) ∧
  (∀ k, k ≠ orderId evt → orders s' !! k = orders s !! k) ∧
  (orders s !! orderId evt = None → s' = s).
Proof.
  cbn zeta.
  destruct (mock_applyExecution_cases s evt)
    as [[why ->]|(order & k & Hid & Ho & Hq & Hk & ->)]; cbn [fst]; [done|].
  cbn [orders]. split; [|split].
  - rewrite dom_insert_L. apply elem_of_dom_2 in Ho.
    by apply subseteq_union_1_L, singleton_subseteq_l.
  - intros k' Hne. by rewrite lookup_insert_ne.
  - intros Hnone. congruence.
Qed.



Lemma updateStatus_fields o :
  quantity (MockEngine.updateStatus o) = quantity o ∧
  filledQuantity (MockEngine.updateStatus o) = filledQuantity o.
Proof. unfold MockEngine.updateStatus. by case_decide. Qed.

(** In exact integers: when every order of the map has its fill level within
    [0 .. quantity], so it has after a call, whatever the event. *)
Lemma mock_bounded (s : State) (evt : ExecutionEvent) :
  map_Forall (λ _ o, bounded o) (orders s) →
  map_Forall (λ _ o, bounded o) (orders (MockEngine.applyExecution s evt).1).
Proof.
  intros Hall.
  destruct (mock_applyExecution_cases s evt)
    as [[why ->]|(order & k & Hid & Ho & Hq & Hk & ->)]; cbn [fst]; [done|].
  cbn [orders]. apply map_Forall_insert_2; [|done].
  pose proof (Hall _ _ Ho) as Hb. unfold bounded in *.
  destruct (updateStatus_fields (addFilled order k)) as [-> ->].
  cbn. lia.
Qed.

End MockEngineFacts.

(** * Binary64 arithmetic on safe integers *)

Module NumberFacts.
Import Number.

Lemma iter_pos_Pos_iter {A} (f : A → A) (p : positive) (x : A) :
  @SpecFloat.iter_pos A f p x = @Pos.iter A f x p.
Proof.
  revert x. induction p as [p IH|p IH|]; intros x; cbn.
  - rewrite !IH. by rewrite !Pos.iter_swap.
  - by rewrite !IH.
  - done.
Qed.

Lemma digits2_pos_size p : digits2_pos p = Pos.size p.
Proof. induction p; cbn; congruence. Qed.

Lemma Zdigits_log2 p : Zpos (digits2_pos p) = Z.log2 (Zpos p) + 1.
Proof.
  rewrite digits2_pos_size. destruct p; cbn [Pos.size Z.log2]; lia.
Qed.

Lemma Zdigits_bounds p :
  2 ^ (Zpos (digits2_pos p) - 1) ≤ Zpos p < 2 ^ Zpos (digits2_pos p).
Proof.
  rewrite Zdigits_log2.
  pose proof (Z.log2_spec (Zpos p) ltac:(lia)) as H.
  replace (Z.log2 (Z.pos p) + 1 - 1) with (Z.log2 (Z.pos p)) by lia.
  replace (Z.log2 (Z.pos p) + 1) with (Z.succ (Z.log2 (Z.pos p))) by lia.
  exact H.
Qed.

Lemma Zdigits_unique p d :
  2 ^ (d - 1) ≤ Zpos p < 2 ^ d → Zpos (digits2_pos p) = d.
Proof.
  intros H. rewrite Zdigits_log2.
  assert (0 < d).
  { destruct (Z_lt_le_dec 0 d) as [|Hd]; [done|].
    rewrite (Z.pow_neg_r 2 (d - 1)) in H by lia.
    assert (2 ^ d ≤ 1); [|lia].
    destruct (Z.eq_dec d 0) as [->|]; [done|].
    rewrite Z.pow_neg_r by lia. lia. }
  rewrite (Z.log2_unique (Zpos p) (d - 1)); [lia | lia |].
  by replace (Z.succ (d - 1)) with d by lia.
Qed.

Lemma Zpos_iter_xO m d : Zpos (Pos.iter xO m d) = Zpos m * 2 ^ Zpos d.
Proof.
  induction d as [|d IH] using Pos.peano_ind.
  - cbn. lia.
  - rewrite Pos.iter_succ, Pos2Z.inj_succ, Z.pow_succ_r by lia.
    rewrite Pos2Z.inj_xO, IH. lia.
Qed.

Lemma iter_shr_exact M k :
  SpecFloat.iter_pos shr_1 k (Build_shr_record (Zpos (Pos.iter xO M k)) false false)
  = Build_shr_record (Zpos M) false false.
Proof.
  rewrite iter_pos_Pos_iter.
  induction k as [|k IH] using Pos.peano_ind.
  - done.
  - rewrite (Pos.iter_succ_r k _ shr_1), (Pos.iter_succ k _ xO M).
    exact IH.
Qed.

(** A value that fits a 53-bit mantissa is rounded to itself. *)
Lemma binary_round_exact s m e M T :
  Zpos (digits2_pos M) = 53 → -1074 ≤ T ≤ 971 →
  (T ≤ e ∧ Zpos M = Zpos m * 2 ^ (e - T)) ∨
  (e < T ∧ Zpos m = Zpos M * 2 ^ (T - e)) →
  binary_round prec emax s m e = S754_finite s M T.
Proof.
  intros HdM HT Hval.
  assert (Hfix : fexp prec emax (Zpos (digits2_pos M) + T) = T).
  { unfold fexp, emin, prec, emax. rewrite HdM. lia. }
  assert (Haux : binary_round_aux prec emax s (Zpos M) T loc_Exact
                 = S754_finite s M T).
  { unfold binary_round_aux, shr_fexp. cbn [Zdigits2 shr_record_of_loc].
    rewrite Hfix, Z.sub_diag. cbn [shr shr_m loc_of_shr_record
      round_nearest_even Zdigits2 shr_record_of_loc].
    rewrite Hfix, Z.sub_diag. cbn [shr shr_m].
    unfold prec, emax. destruct (Z.leb_spec T (1024 - 53)); [done | lia]. }
  assert (Hdm : Zpos (digits2_pos m) + e = 53 + T).
  { destruct Hval as [[Hle Hv]|[Hlt Hv]].
    - pose proof (Zdigits_bounds M) as HbM. rewrite HdM, Hv in HbM.
      assert (Zpos (digits2_pos m) = 53 - (e - T)); [|lia].
      apply Zdigits_unique.
      assert (Hp : 0 < 2 ^ (e - T)) by (apply Z.pow_pos_nonneg; lia).
      pose proof (Zdigits_bounds m) as Hbm.
      set (d := Zpos (digits2_pos m)) in *.
      assert (Hd : 0 < d) by (unfold d; lia).
      destruct (Z_lt_le_dec d (53 - (e - T))) as [Hlt|Hge].
      + exfalso. assert (2 ^ d * 2 ^ (e - T) ≤ 2 ^ (53 - 1)); [|nia].
        rewrite <- Z.pow_add_r by lia. apply Z.pow_le_mono_r; lia.
      + destruct (Z_lt_le_dec (53 - (e - T)) d) as [Hgt|Hle'].
        * exfalso. assert (2 ^ 53 ≤ 2 ^ (d - 1) * 2 ^ (e - T)); [|nia].
          rewrite <- Z.pow_add_r by lia. apply Z.pow_le_mono_r; lia.
        * replace (53 - (e - T)) with d by lia. exact Hbm.
    - pose proof (Zdigits_bounds M) as HbM. rewrite HdM in HbM.
      assert (Zpos (digits2_pos m) = 53 + (T - e)); [|lia].
      apply Zdigits_unique. rewrite Hv.
      replace (53 + (T - e) - 1) with (52 + (T - e)) by lia.
      rewrite !Z.pow_add_r by lia.
      assert (Hp : 0 < 2 ^ (T - e)) by (apply Z.pow_pos_nonneg; lia).
      change (53 - 1) with 52 in HbM. nia. }
  unfold binary_round.
  assert (Hfexp : fexp prec emax (Zpos (digits2_pos m) + e) = T).
  { rewrite Hdm. unfold fexp, emin, prec, emax. lia. }
  rewrite Hfexp. unfold shl_align.
  destruct Hval as [[Hle Hv]|[Hlt Hv]].
  - destruct (T - e) as [|d|d] eqn:Hd; try lia.
    + assert (T = e) by lia. subst e. rewrite Z.sub_diag in Hv.
      assert (M = m) by lia. subst m. exact Haux.
    + assert (Pos.iter xO m d = M) as ->; [|exact Haux].
      apply Pos2Z.inj. rewrite Zpos_iter_xO, Hv. f_equal. f_equal. lia.
  - destruct (T - e) as [|d|d] eqn:Hd; try lia.
    assert (Hm : m = Pos.iter xO M d).
    { apply Pos2Z.inj. by rewrite Zpos_iter_xO, Hv. }
    unfold binary_round_aux, shr_fexp. cbn [Zdigits2 shr_record_of_loc].
    rewrite Hfexp, Hd. cbn [shr]. rewrite Hm, iter_shr_exact.
    cbn [shr_m loc_of_shr_record round_nearest_even Zdigits2
         shr_record_of_loc].
    replace (e + Zpos d) with T by lia.
    rewrite Hfix, Z.sub_diag. cbn [shr shr_m].
    unfold prec, emax. destruct (Z.leb_spec T (1024 - 53)); [done | lia].
Qed.

Lemma canon_facts n :
  n ≠ 0 → safe n →
  -52 ≤ canonT n ≤ 0 ∧
  Zpos (canonM n) = Z.abs n * 2 ^ (- canonT n) ∧
  Zpos (digits2_pos (canonM n)) = 53.
Proof.
  intros Hn Hs. unfold canonM, canonT.
  set (p := Z.to_pos (Z.abs n)).
  assert (Hp : Zpos p = Z.abs n) by (unfold p; lia).
  pose proof (Zdigits_bounds p) as Hb. rewrite Hp in Hb.
  set (d := Zpos (digits2_pos p)) in *.
  assert (Hd1 : 1 ≤ d) by (unfold d; lia).
  assert (Hd2 : d ≤ 53).
  { destruct (Z_lt_le_dec 53 d) as [Hlt|]; [|done].
    assert (2 ^ 53 ≤ 2 ^ (d - 1)) by (apply Z.pow_le_mono_r; lia).
    unfold safe in Hs. lia. }
  assert (Hpow : 0 < 2 ^ (- (d - 53))) by (apply Z.pow_pos_nonneg; lia).
  split; [lia|].
  assert (Hv : Zpos (Z.to_pos (Z.abs n * 2 ^ (- (d - 53))))
               = Z.abs n * 2 ^ (- (d - 53))) by (rewrite Z2Pos.id; nia).
  split; [exact Hv|].
  apply Zdigits_unique. rewrite Hv.
  assert (E1 : 2 ^ (53 - 1) = 2 ^ (d - 1) * 2 ^ (- (d - 53))).
  { rewrite <- Z.pow_add_r by lia. f_equal. lia. }
  assert (E2 : 2 ^ 53 = 2 ^ d * 2 ^ (- (d - 53))).
  { rewrite <- Z.pow_add_r by lia. f_equal. lia. }
  rewrite E1, E2. nia.
Qed.

Lemma binary_normalize_exact S ez n :
  -52 ≤ ez ≤ 0 → safe n → S = n * 2 ^ (- ez) →
  binary_normalize prec emax S ez false
  = match n with
    | 0 => S754_zero false
    | _ => S754_finite (n <? 0) (canonM n) (canonT n)
    end.
Proof.
  intros Hez Hs HS.
  assert (Hpow : 0 < 2 ^ (- ez)) by (apply Z.pow_pos_nonneg; lia).
  destruct (Z.eq_dec n 0) as [->|Hn]; [by subst S|].
  destruct (canon_facts n Hn Hs) as (HT & HM & HdM).
  assert (Hgoal : ∀ s m, Zpos m = Z.abs n * 2 ^ (- ez) →
            binary_round prec emax s m ez
            = S754_finite s (canonM n) (canonT n)).
  { intros s m Hm. apply binary_round_exact; [done | lia |].
    destruct (Z_le_gt_dec (canonT n) ez) as [Hle|Hgt]; [left|right].
    - split; [done|]. rewrite HM, Hm, <- Z.mul_assoc, <- Z.pow_add_r by lia.
      f_equal. f_equal. lia.
    - split; [lia|]. rewrite HM, Hm, <- Z.mul_assoc, <- Z.pow_add_r by lia.
      f_equal. f_equal. lia. }
  unfold binary_normalize.
  destruct n as [|p|p]; [done| |].
  - destruct S as [|q|q]; try nia. cbn [Z.ltb Z.compare]. apply Hgoal. lia.
  - destruct S as [|q|q]; try nia. cbn [Z.ltb Z.compare]. apply Hgoal. lia.
Qed.

Lemma ofZ_0 : ofZ 0 = S754_zero false.
Proof. reflexivity. Qed.

Lemma ofZ_finite n :
  n ≠ 0 → safe n → ofZ n = S754_finite (n <? 0) (canonM n) (canonT n).
Proof.
  intros Hn Hs. unfold ofZ.
  rewrite (binary_normalize_exact n 0 n); [by destruct n | lia | done |].
  cbn. lia.
Qed.

Lemma shl_align_value m e e' :
  e' ≤ e → Zpos (fst (shl_align m e e')) = Zpos m * 2 ^ (e - e').
Proof.
  intros Hle. unfold shl_align.
  destruct (e' - e) as [|d|d] eqn:Hd; try lia; cbn [fst].
  - replace (e - e') with 0 by lia. lia.
  - rewrite Zpos_iter_xO. f_equal. f_equal. lia.
Qed.

Lemma cond_Zopp_sign n : cond_Zopp (n <? 0) (Z.abs n) = n.
Proof. unfold cond_Zopp. destruct (Z.ltb_spec n 0); lia. Qed.

Lemma aligned_value n ez :
  n ≠ 0 → safe n → ez ≤ canonT n →
  cond_Zopp (n <? 0) (Zpos (fst (shl_align (canonM n) (canonT n) ez)))
  = n * 2 ^ (- ez).
Proof.
  intros Hn Hs Hez. destruct (canon_facts n Hn Hs) as (HT & HM & _).
  rewrite shl_align_value by done.
  rewrite HM, <- Z.mul_assoc, <- Z.pow_add_r by lia.
  replace (- canonT n + (canonT n - ez)) with (- ez) by lia.
  assert (Hpow : 0 < 2 ^ (- ez)) by (apply Z.pow_pos_nonneg; lia).
  unfold cond_Zopp. destruct (Z.ltb_spec n 0); nia.
Qed.

Lemma ofZ_match n :
  safe n →
  ofZ n = match n with
          | 0 => S754_zero false
          | _ => S754_finite (n <? 0) (canonM n) (canonT n)
          end.
Proof.
  intros Hs. destruct (Z.eq_dec n 0) as [->|Hn]; [done|].
  rewrite ofZ_finite by done. by destruct n.
Qed.

Lemma add_ofZ a b :
  safe a → safe b → safe (a + b) → add (ofZ a) (ofZ b) = ofZ (a + b).
Proof.
  intros Ha Hb Hab.
  destruct (Z.eq_dec a 0) as [->|Hna].
  { rewrite ofZ_0, Z.add_0_l. rewrite (ofZ_match b Hb). by destruct b. }
  destruct (Z.eq_dec b 0) as [->|Hnb].
  { rewrite ofZ_0, Z.add_0_r. rewrite (ofZ_match a Ha). by destruct a. }
  rewrite (ofZ_finite a), (ofZ_finite b) by done.
  rewrite (ofZ_match (a + b) Hab).
  destruct (canon_facts a Hna Ha) as (HTa & _).
  destruct (canon_facts b Hnb Hb) as (HTb & _).
  unfold add, SFadd. cbv zeta.
  rewrite (aligned_value a), (aligned_value b) by (done || lia).
  apply binary_normalize_exact; [lia | done | lia].
Qed.

Lemma sub_ofZ a b :
  safe a → safe b → safe (a - b) → sub (ofZ a) (ofZ b) = ofZ (a - b).
Proof.
  intros Ha Hb Hab.
  destruct (Z.eq_dec b 0) as [->|Hnb].
  { rewrite ofZ_0, Z.sub_0_r. rewrite (ofZ_match a Ha). by destruct a. }
  destruct (Z.eq_dec a 0) as [->|Hna].
  { rewrite ofZ_0, Z.sub_0_l. rewrite (ofZ_finite b) by done.
    assert (Hs : safe (- b)) by (unfold safe in *; lia).
    rewrite (ofZ_finite (- b)) by (done || lia).
    unfold sub, SFsub. f_equal.
    - destruct (Z.ltb_spec b 0), (Z.ltb_spec (- b) 0); done || lia.
    - unfold canonM, canonT. by rewrite Z.abs_opp.
    - unfold canonT. by rewrite Z.abs_opp. }
  rewrite (ofZ_finite a), (ofZ_finite b) by done.
  rewrite (ofZ_match (a - b) Hab).
  destruct (canon_facts a Hna Ha) as (HTa & _).
  destruct (canon_facts b Hnb Hb) as (HTb & _).
  unfold sub, SFsub. cbv zeta.
  rewrite (aligned_value a), (aligned_value b) by (done || lia).
  apply binary_normalize_exact; [lia | done | lia].
Qed.

Lemma canon_abs n : canonT (Z.abs n) = canonT n ∧ canonM (Z.abs n) = canonM n.
Proof. unfold canonM, canonT. by destruct n. Qed.

Lemma canon_compare a b :
  0 < a → 0 < b → safe a → safe b →
  match canonT a ?= canonT b with
  | Lt => Lt
  | Gt => Gt
  | Eq => Pos.compare_cont Eq (canonM a) (canonM b)
  end = (a ?= b).
Proof.
  intros Ha Hb Hsa Hsb.
  destruct (canon_facts a ltac:(lia) Hsa) as (HTa & HMa & _).
  destruct (canon_facts b ltac:(lia) Hsb) as (HTb & HMb & _).
  pose proof (Zdigits_bounds (Z.to_pos (Z.abs a))) as Hba.
  pose proof (Zdigits_bounds (Z.to_pos (Z.abs b))) as Hbb.
  unfold canonT in *.
  set (da := Zpos (digits2_pos (Z.to_pos (Z.abs a)))) in *.
  set (db := Zpos (digits2_pos (Z.to_pos (Z.abs b)))) in *.
  rewrite Z2Pos.id in Hba, Hbb by lia.
  rewrite Z.abs_eq in Hba, Hbb, HMa, HMb by lia.
  destruct (Z.compare_spec (da - 53) (db - 53)) as [Heq|Hlt|Hgt].
  - change (Pos.compare_cont Eq (canonM a) (canonM b))
      with (Zpos (canonM a) ?= Zpos (canonM b)).
    rewrite HMa, HMb. replace (db - 53) with (da - 53) by lia.
    assert (Hpow : 0 < 2 ^ (- (da - 53))) by (apply Z.pow_pos_nonneg; lia).
    destruct (Z.compare_spec a b) as [->|Hlt|Hgt];
      [apply Z.compare_refl | apply Z.compare_lt_iff; nia
      | apply Z.compare_gt_iff; nia].
  - symmetry. apply Z.compare_lt_iff.
    assert (2 ^ da ≤ 2 ^ (db - 1)) by (apply Z.pow_le_mono_r; lia). lia.
  - symmetry. apply Z.compare_gt_iff.
    assert (2 ^ db ≤ 2 ^ (da - 1)) by (apply Z.pow_le_mono_r; lia). lia.
Qed.

Lemma compare_ofZ a b :
  safe a → safe b → SFcompare (ofZ a) (ofZ b) = Some (a ?= b).
Proof.
  intros Ha Hb. rewrite (ofZ_match a Ha), (ofZ_match b Hb).
  destruct a as [|p|p], b as [|q|q]; try done.
  - cbn [SFcompare Z.ltb Z.compare]. f_equal.
    apply (canon_compare (Zpos p) (Zpos q)); done.
  - cbn [SFcompare Z.ltb Z.compare]. f_equal.
    destruct (canon_abs (Zneg p)) as [E1 E2].
    destruct (canon_abs (Zneg q)) as [E3 E4].
    cbn [Z.abs] in E1, E2, E3, E4. rewrite <- E1, <- E2, <- E3, <- E4.
    assert (Hp : safe (Zpos p)) by (unfold safe in *; lia).
    assert (Hq : safe (Zpos q)) by (unfold safe in *; lia).
    pose proof (canon_compare (Zpos p) (Zpos q) ltac:(lia) ltac:(lia) Hp Hq)
      as Hc.
    transitivity (CompOpp (Zpos p ?= Zpos q)); [|done].
    rewrite <- Hc.
    change (Z.abs (Z.neg p)) with (Z.pos p).
    change (Z.abs (Z.neg q)) with (Z.pos q).
    by destruct (canonT (Zpos p) ?= canonT (Zpos q)).
Qed.

Lemma leb_ofZ a b : safe a → safe b → leb (ofZ a) (ofZ b) = (a <=? b).
Proof.
  intros Ha Hb. unfold leb, SFleb. rewrite compare_ofZ by done.
  unfold Z.leb. by destruct (a ?= b).
Qed.

Lemma ltb_ofZ a b : safe a → safe b → ltb (ofZ a) (ofZ b) = (a <? b).
Proof.
  intros Ha Hb. unfold ltb, SFltb. rewrite compare_ofZ by done.
  unfold Z.ltb. by destruct (a ?= b).
Qed.

Lemma eqb_ofZ a b : safe a → safe b → eqb (ofZ a) (ofZ b) = (a =? b).
Proof.
  intros Ha Hb. unfold eqb, SFeqb. rewrite compare_ofZ by done.
  destruct (Z.eqb_spec a b) as [->|Hne].
  - by rewrite Z.compare_refl.
  - destruct (a ?= b) eqn:Hc; try done. by apply Z.compare_eq in Hc.
Qed.

Lemma ofZ_inj a b : safe a → safe b → ofZ a = ofZ b → a = b.
Proof.
  intros Ha Hb Heq. apply Z.eqb_eq. rewrite <- eqb_ofZ, Heq by done.
  rewrite eqb_ofZ by done. apply Z.eqb_refl.
Qed.

Lemma min_ofZ a b :
  safe a → safe b → Number.min (ofZ a) (ofZ b) = ofZ (Z.min a b).
Proof.
  intros Ha Hb. unfold Number.min. rewrite compare_ofZ by done.
  unfold Z.min. destruct (Z.compare_spec a b) as [->| |]; try done.
  rewrite (ofZ_match b Hb). by destruct b.
Qed.

Lemma opp_ofZ b : b ≠ 0 → safe b → opp (ofZ b) = ofZ (- b).
Proof.
  intros Hnb Hb.
  assert (Hs : safe (- b)) by (unfold safe in *; lia).
  rewrite (ofZ_finite b), (ofZ_finite (- b)) by (done || lia).
  unfold opp; cbn [SFopp]. f_equal.
  - destruct (Z.ltb_spec b 0), (Z.ltb_spec (- b) 0); done || lia.
  - unfold canonM, canonT. by rewrite Z.abs_opp.
  - unfold canonT. by rewrite Z.abs_opp.
Qed.

End NumberFacts.

(** * The engine on binary64 numbers *)

(** ** The two models agree on safe integers *)

Lemma isApplied_rejected why : isApplied (rejected why) = false.
Proof. reflexivity. Qed.

Lemma isApplied_appliedWith why : isApplied (appliedWith why) = true.
Proof. reflexivity. Qed.

Lemma isApplied_appliedPlain : isApplied appliedPlain = true.
Proof. reflexivity. Qed.

Lemma safe_0 : Number.safe 0.
Proof. unfold Number.safe. lia. Qed.

Lemma liftOrder_updateStatus o k :
  Number.safe (quantity o) → Number.safe (filledQuantity o) →
  Number.safe k → Number.safe (filledQuantity o + k) →
  F64.updateStatus (F64.addFilled (liftOrder o) (Number.ofZ k))
  = liftOrder (updateStatus (addFilled o k)).
Proof.
  intros Hq Hf Hk Hs.
  unfold F64.updateStatus, F64.addFilled, updateStatus, addFilled, liftOrder;
    cbn.
  rewrite NumberFacts.add_ofZ by done.
  rewrite NumberFacts.eqb_ofZ by done.
  change Number.zero with (Number.ofZ 0).
  rewrite NumberFacts.ltb_ofZ by (done || apply safe_0).
  destruct (Z.eqb_spec (filledQuantity o + k) (quantity o)).
  - by rewrite decide_True by done.
  - rewrite decide_False by done.
    destruct (Z.ltb_spec 0 (filledQuantity o + k)).
    + by rewrite decide_True by lia.
    + by rewrite decide_False by lia.
Qed.

(** One call: on safe integers the binary64 engine does what the exact
    model does, whatever the account holds; the balance is lowered by the
    effective quantity when the event is applied. *)
Lemma F64_applyExecution_sim σ this fa evt :
  safeOrder (order this) →
  Number.safe (quantity (order this) - filledQuantity (order this)) →
  safeEvent evt →
  (passes (σ, this) evt →
   Number.safe (filledQuantity (order this) + effective (σ, this) evt)) →
  F64.applyExecution
    (σ, F64.mkEngine (liftOrder (order this)) fa (processedEventIds this))
    (liftEvent evt)
  = (((applyExecution (σ, this) evt).1.1,
      F64.mkEngine
        (liftOrder (orderOf (applyExecution (σ, this) evt).1))
        (if isApplied (applyExecution (σ, this) evt).2
         then F64.mkAccount
                (Number.sub (F64.balance fa)
                   (Number.ofZ (effective (σ, this) evt)))
         else fa)
        (processedEventIds this)),
     (applyExecution (σ, this) evt).2).
Proof.
  intros [Hq Hf] Hrem He Hsum.
  destruct (applyExecution_cases (σ, this) evt) as [[why Hr]|Hp].
  - rewrite Hr; cbn [fst snd]. rewrite isApplied_rejected.
    revert Hr. unfold applyExecution, F64.applyExecution, orderOf; cbn.
    destruct (decide (type evt ≠ "execution"));
      [by intros Hr%(f_equal snd)%rejected_inj; subst|].
    destruct (Set_has σ (processedEventIds this) (eventId evt));
      [by intros Hr%(f_equal snd)%rejected_inj; subst|].
    destruct (decide (orderId evt ≠ id (order this)));
      [by intros Hr%(f_equal snd)%rejected_inj; subst|].
    change Number.zero with (Number.ofZ 0).
    rewrite NumberFacts.leb_ofZ by (done || apply safe_0).
    destruct (decide (executedQuantity evt ≤ 0)) as [Hle|Hgt].
    { rewrite (proj2 (Z.leb_le _ _) Hle).
      by intros Hr%(f_equal snd)%rejected_inj; subst. }
    rewrite (proj2 (Z.leb_gt _ _)) by lia.
    destruct (decide (status (order this) = FILLED));
      [by intros Hr%(f_equal snd)%rejected_inj; subst|].
    intros Hr%(f_equal snd). cbn [snd] in Hr. exfalso.
    apply (f_equal isApplied) in Hr. rewrite isApplied_rejected in Hr.
    destruct (decide _); discriminate Hr.
  - specialize (Hsum Hp).
    rewrite (applyExecution_passes _ _ Hp); cbn [fst snd].
    destruct Hp as (Ht & Hid & Ho & Hpos & Hst).
    unfold processed, orderOf in *; cbn [fst snd] in *.
    apply Set_has_false in Hid.
    assert (Heff : Number.safe (effective (σ, this) evt)).
    { unfold Number.safe, safeEvent, effective, orderOf in *; cbn in *. lia. }
    unfold F64.applyExecution; cbn.
    rewrite decide_False by (intros ?; done). rewrite Hid.
    rewrite decide_False by (intros ?; done).
    change Number.zero with (Number.ofZ 0).
    rewrite NumberFacts.leb_ofZ by (done || apply safe_0).
    rewrite (proj2 (Z.leb_gt _ _)) by lia.
    rewrite decide_False by done.
    rewrite NumberFacts.sub_ofZ by done.
    rewrite NumberFacts.min_ofZ by done.
    change (Z.min (executedQuantity evt)
              (quantity (order this) - filledQuantity (order this)))
      with (effective (σ, this) evt).
    rewrite liftOrder_updateStatus by done.
    rewrite NumberFacts.ltb_ofZ by done.
    destruct (decide (effective (σ, this) evt < executedQuantity evt)).
    + rewrite (proj2 (Z.ltb_lt _ _)) by done.
      by rewrite isApplied_appliedWith.
    + rewrite (proj2 (Z.ltb_ge _ _)) by lia.
      by rewrite isApplied_appliedPlain.
Qed.

Lemma bounded_safe o :
  bounded o → Number.safe (quantity o) →
  safeOrder o ∧ Number.safe (quantity o - filledQuantity o).
Proof. unfold bounded, safeOrder, Number.safe. lia. Qed.

Lemma bounded_safe_sum c evt :
  bounded (orderOf c) → Number.safe (quantity (orderOf c)) →
  passes c evt → Number.safe (filledQuantity (orderOf c) + effective c evt).
Proof.
  intros Hb Hq (_ & _ & _ & Hpos & _).
  unfold bounded, Number.safe, effective in *. lia.
Qed.

Lemma lift_simO c : simO (lift c) c.
Proof. done. Qed.

(** One call from related configurations, on a bounded order. *)
Lemma simO_step fc c evt :
  simO fc c → bounded (orderOf c) → Number.safe (quantity (orderOf c)) →
  safeEvent evt →
  simO (F64.applyExecution fc (liftEvent evt)).1 (applyExecution c evt).1 ∧
  (F64.applyExecution fc (liftEvent evt)).2 = (applyExecution c evt).2 ∧
  F64.accountOf (F64.applyExecution fc (liftEvent evt)).1
  = if isApplied (applyExecution c evt).2
    then F64.mkAccount
           (Number.sub (F64.balance (F64.accountOf fc))
              (Number.ofZ (effective c evt)))
    else F64.accountOf fc.
Proof.
  destruct fc as [σ' [fo fa fp]], c as [σ this].
  intros (Hs & Ho & Hp) Hb Hq He; cbn in Hs, Ho, Hp; subst σ' fo fp.
  destruct (bounded_safe _ Hb Hq) as [Hso Hrem].
  rewrite (F64_applyExecution_sim σ this fa evt Hso Hrem He
             (bounded_safe_sum (σ, this) evt Hb Hq)).
  cbn [fst snd]. split; [|done].
  unfold simO; cbn [fst snd F64.order F64.processedEventIds].
  by destruct (applyExecution_fixed (σ, this) evt) as (-> & _).
Qed.

(** A whole delivery from related configurations. *)
Lemma simO_applyAll fc c evts :
  simO fc c → bounded (orderOf c) → Number.safe (quantity (orderOf c)) →
  Forall safeEvent evts →
  Forall2 (λ fcr cr, simO fcr.1 cr.1 ∧ fcr.2 = cr.2)
    (F64.applyAll fc (liftEvent <$> evts)) (applyAll c evts).
Proof.
  intros Hs Hb Hq Hall. revert fc c Hs Hb Hq.
  induction Hall as [|evt rest He _ IH]; intros fc c Hs Hb Hq; cbn.
  - constructor.
  - destruct (simO_step fc c evt Hs Hb Hq He) as (Hs' & Hr & _).
    constructor; [done|]. apply IH; [done | by apply applyExecution_bounded|].
    by destruct (applyExecution_fixed c evt) as (_ & _ & ->).
Qed.

Lemma leb_lift_bounded o :
  safeOrder o →
  (Number.leb (F64.filledQuantity (liftOrder o)) (F64.quantity (liftOrder o))
   = true ↔ filledQuantity o ≤ quantity o).
Proof.
  intros [Hq Hf]. cbn. rewrite NumberFacts.leb_ofZ by done. apply Z.leb_le.
Qed.

Lemma bounded_lift o : safeOrder o → (F64.bounded (liftOrder o) ↔ bounded o).
Proof.
  intros [Hq Hf]. unfold F64.bounded, bounded; cbn.
  change Number.zero with (Number.ofZ 0).
  rewrite !NumberFacts.leb_ofZ by (done || apply safe_0).
  rewrite !Z.leb_le. done.
Qed.

Lemma consistent_lift o :
  safeOrder o → (F64.consistent (liftOrder o) ↔ consistent o).
Proof.
  intros Hs. pose proof (bounded_lift o Hs) as Hb. destruct Hs as [Hq Hf].
  unfold F64.consistent, consistent. rewrite Hb. unfold bounded.
  unfold F64.spec_status, spec_status; cbn.
  change Number.zero with (Number.ofZ 0).
  rewrite !NumberFacts.ltb_ofZ, !NumberFacts.eqb_ofZ by (done || apply safe_0).
  destruct (Z.ltb_spec 0 (quantity o)), (Z.eqb_spec (filledQuantity o) 0),
    (Z.ltb_spec 0 (filledQuantity o)),
    (Z.ltb_spec (filledQuantity o) (quantity o)),
    (Z.eqb_spec (filledQuantity o) (quantity o));
    repeat case_decide; cbn; intuition (first [ done | lia ]).
Qed.

(** ** C2: no overfill *)

(** C2, as the specification states it, fails beyond the safe integers:
    with quantity 9007199254740998 and 3 filled, an execution of 10^17 is
    capped to a remaining quantity that binary64 rounds to
    9007199254740996, and the fill level ends at 9007199254741000, above
    the quantity. *)
Lemma C2_overfill_beyond_safe_integers :
  let fc := lift startHuge in
  let fc' := (F64.applyExecution fc (liftEvent EHuge)).1 in
  F64.bounded (F64.orderOf fc) ∧
  F64.filledQuantity (F64.orderOf fc') = Number.ofZ 9007199254741000 ∧
  Number.leb (F64.filledQuantity (F64.orderOf fc'))
             (F64.quantity (F64.orderOf fc')) = false.
Proof. vm_compute. done. Qed.

(** C2, amended: when the quantity, the fill level and every executed
    quantity are safe integers (magnitude at most 2^53 - 1), then from
    [0 ≤ filledQuantity ≤ quantity], whatever events are delivered,
    [filledQuantity ≤ quantity] holds in the program after every call. *)
Theorem C2_no_overfill (c : store * TradingEngine)
    (evts : list ExecutionEvent) :
  Number.safe (quantity (orderOf c)) → Forall safeEvent evts →
  0 ≤ filledQuantity (orderOf c) ≤ quantity (orderOf c) →
  Forall (λ fcr, Number.leb (F64.filledQuantity (F64.orderOf fcr.1))
                            (F64.quantity (F64.orderOf fcr.1)) = true)
         (F64.applyAll (lift c) (liftEvent <$> evts)).
Proof.
  intros Hq Hall Hb.
  pose proof (simO_applyAll (lift c) c evts (lift_simO c) Hb Hq Hall) as Hsim.
  pose proof (applyAll_bounded c evts Hb) as Hbs.
  assert (Hqs : Forall (λ cr, quantity (orderOf cr.1) = quantity (orderOf c))
                  (applyAll c evts)).
  { clear. revert c. induction evts as [|evt rest IH]; intros c; cbn;
      [constructor|].
    destruct (applyExecution_fixed c evt) as (_ & _ & Hq).
    constructor; [done|]. eapply Forall_impl; [apply IH|].
    intros cr Hcr; cbn in Hcr. congruence. }
  revert Hbs Hqs. induction Hsim as [|fcr cr fl l [(_ & Ho & _) _] _ IH];
    intros Hbs Hqs; [constructor|].
  apply Forall_cons in Hbs as [Hb1 Hbs]. apply Forall_cons in Hqs as [Hq1 Hqs].
  constructor; [|by apply IH].
  unfold F64.orderOf. rewrite Ho. apply leb_lift_bounded.
  - apply bounded_safe; [done | exact (eq_ind_r Number.safe Hq Hq1)].
  - apply Hb1.
Qed.

Lemma C2_no_overfill_witness :
  Number.safe (quantity (orderOf start8)) ∧
  Forall safeEvent [E2; E1; E3] ∧
  0 ≤ filledQuantity (orderOf start8) ≤ quantity (orderOf start8) ∧
  Forall (λ fcr, Number.leb (F64.filledQuantity (F64.orderOf fcr.1))
                            (F64.quantity (F64.orderOf fcr.1)) = true)
         (F64.applyAll (lift start8) (liftEvent <$> [E2; E1; E3])).
Proof.
  assert (Hq : Number.safe (quantity (orderOf start8)))
    by (unfold Number.safe; cbn; lia).
  assert (Hall : Forall safeEvent [E2; E1; E3])
    by (repeat constructor; unfold safeEvent, Number.safe; cbn; lia).
  assert (Hb : 0 ≤ filledQuantity (orderOf start8) ≤ quantity (orderOf start8))
    by (cbn; lia).
  split; [exact Hq|]. split; [exact Hall|]. split; [exact Hb|].
  exact (C2_no_overfill start8 [E2; E1; E3] Hq Hall Hb).
Defined.

(** ** One call on safe integers *)

Lemma safe_fill c evt :
  safeOrder (orderOf c) → passes c evt →
  Number.safe (filledQuantity (orderOf c) + effective c evt).
Proof.
  intros [Hq Hf] (_ & _ & _ & Hpos & _).
  unfold Number.safe, effective in *. lia.
Qed.

(** On safe integers the program computes what the exact model computes:
    the same result object, the same processed events, the order of the
    exact model, and the balance less what was filled. *)
Lemma F64_applyExecution_lift c evt :
  safeOrder (orderOf c) →
  Number.safe (quantity (orderOf c) - filledQuantity (orderOf c)) →
  safeEvent evt →
  let fcr := F64.applyExecution (lift c) (liftEvent evt) in
  let cr := applyExecution c evt in
  fcr.2 = cr.2 ∧
  fcr.1.1 = cr.1.1 ∧
  F64.processedEventIds fcr.1.2 = processedEventIds cr.1.2 ∧
  F64.orderOf fcr.1 = liftOrder (orderOf cr.1) ∧
  F64.accountOf fcr.1
  = if isApplied cr.2
    then F64.mkAccount (Number.sub (Number.ofZ (balance (accountOf c)))
                          (Number.ofZ (effective c evt)))
    else liftAccount (accountOf c).
Proof.
  destruct c as [σ this]. intros Hso Hrem He fcr cr. subst fcr cr.
  unfold lift; cbn [fst snd].
  rewrite (F64_applyExecution_sim σ this _ evt Hso Hrem He
             (safe_fill (σ, this) evt Hso)).
  cbn [fst snd F64.orderOf F64.accountOf F64.order F64.account
       F64.processedEventIds].
  destruct (applyExecution_fixed (σ, this) evt) as (-> & _).
  repeat split.
Qed.

Lemma passes_effective_pos c evt :
  passes c evt → filledQuantity (orderOf c) < quantity (orderOf c) →
  1 ≤ effective c evt.
Proof. intros (_ & _ & _ & Hpos & _) Hlt. unfold effective. lia. Qed.

Lemma isApplied_applied r : applied r = Some (JBool true) → isApplied r = true.
Proof. intros H. unfold isApplied. by apply bool_decide_eq_true_2. Qed.

Lemma safe_start8 :
  safeOrder (orderOf start8) ∧
  Number.safe (quantity (orderOf start8) - filledQuantity (orderOf start8)) ∧
  Number.safe (balance (accountOf start8)).
Proof. unfold safeOrder, Number.safe; cbn. lia. Qed.

Lemma safe_start10 :
  safeOrder (orderOf start10) ∧
  Number.safe (quantity (orderOf start10) - filledQuantity (orderOf start10)) ∧
  Number.safe (balance (accountOf start10)).
Proof. unfold safeOrder, Number.safe; cbn. lia. Qed.

Lemma safe_small_event evt :
  - 100 ≤ executedQuantity evt ≤ 100 → safeEvent evt.
Proof. unfold safeEvent, Number.safe. lia. Qed.

Lemma start8_consistent : consistent (orderOf start8).
Proof.
  unfold consistent, spec_status; cbn.
  repeat case_decide; repeat split; first [ lia | done | exfalso; lia ].
Qed.

Lemma start8_passes_E2 : passes start8 E2.
Proof. apply fresh_engine_passes; cbn; first [ done | lia ]. Qed.

Lemma start10_passes_E1 : passes start10 E1.
Proof. apply fresh_engine_passes; cbn; first [ done | lia ]. Qed.

(** ** C5: the status follows the fill level *)

(** C5, as the specification states it, fails beyond the safe integers:
    the order of quantity 9007199254740998 with 3 filled is consistent,
    and after an execution of 10^17 its fill level is above its quantity
    while its status is PARTIALLY_FILLED. *)
Lemma C5_consistency_lost_beyond_safe_integers :
  let fc := lift startHuge in
  let fc' := (F64.applyExecution fc (liftEvent EHuge)).1 in
  F64.consistent (F64.orderOf fc) ∧
  F64.status (F64.orderOf fc') = PARTIALLY_FILLED ∧
  F64.spec_status (F64.filledQuantity (F64.orderOf fc'))
                  (F64.quantity (F64.orderOf fc')) = None ∧
  ¬ F64.consistent (F64.orderOf fc').
Proof.
  cbv zeta. split; [by vm_compute|]. split; [by vm_compute|].
  split; [by vm_compute|].
  intros (_ & [_ H] & _). vm_compute in H. discriminate.
Qed.

(** C5, amended: when the quantity, the fill level and the executed
    quantity are safe integers, a call on an order whose status is the
    specification's function of fill level and quantity (with
    [0 < quantity] and [0 ≤ filledQuantity ≤ quantity]) leaves an order
    with the same property. *)
Theorem C5_status_consistency (c : store * TradingEngine)
    (evt : ExecutionEvent) :
  Number.safe (quantity (orderOf c)) → safeEvent evt →
  consistent (orderOf c) →
  F64.consistent (F64.orderOf (F64.applyExecution (lift c) (liftEvent evt)).1).
Proof.
  intros Hq He Hc. pose proof Hc as (_ & Hb & _).
  destruct (bounded_safe _ Hb Hq) as [Hso Hrem].
  destruct (F64_applyExecution_lift c evt Hso Hrem He) as (_ & _ & _ & -> & _).
  pose proof (applyExecution_keeps_consistent c evt Hc) as Hc'.
  apply consistent_lift; [|done].
  destruct Hc' as (_ & Hb' & _). apply bounded_safe; [done|].
  by destruct (applyExecution_fixed c evt) as (_ & _ & ->).
Qed.

Lemma C5_status_consistency_witness :
  Number.safe (quantity (orderOf start8)) ∧ safeEvent E2 ∧
  consistent (orderOf start8) ∧
  F64.consistent
    (F64.orderOf (F64.applyExecution (lift start8) (liftEvent E2)).1).
Proof.
  assert (Hq : Number.safe (quantity (orderOf start8)))
    by (unfold Number.safe; cbn; lia).
  assert (He : safeEvent E2) by (apply safe_small_event; cbn; lia).
  split; [exact Hq|]. split; [exact He|].
  split; [exact start8_consistent|].
  exact (C5_status_consistency start8 E2 Hq He start8_consistent).
Defined.

(** ** C6: capping *)

(** C6, as the specification states it, fails on its last part: the
    engine's result never carries [effectiveQuantity].  In scenario 2
    (8 of 10 filled, 5 executed) the quantity applied is 2 and the result
    is exactly [{ applied: true, reason: "capped_overfill" }].  Beyond the
    safe integers the first part fails as well: with quantity
    9007199254740998, 3 filled and 10^17 executed, the fill level does not
    end at [filledQuantity + remaining]. *)
Lemma C6_result_has_no_effectiveQuantity :
  let r := (F64.applyExecution (lift start8) (liftEvent E2)).2 in
  let fc' := (F64.applyExecution (lift startHuge) (liftEvent EHuge)).1 in
  spec_firstRejection start8 E2 = None ∧
  executedQuantity E2
    > quantity (orderOf start8) - filledQuantity (orderOf start8) ∧
  r = appliedWith "capped_overfill" ∧
  effectiveQuantity r = None ∧
  effectiveQuantity r ≠ Some (JNumber 2) ∧
  F64.filledQuantity (F64.orderOf fc')
    ≠ Number.ofZ (filledQuantity (orderOf startHuge)
                  + (quantity (orderOf startHuge)
                     - filledQuantity (orderOf startHuge))).
Proof.
  cbv zeta.
  destruct safe_start8 as (Hso & Hrem & _).
  destruct (F64_applyExecution_lift start8 E2 Hso Hrem
              (safe_small_event E2 ltac:(cbn; lia))) as (-> & _).
  split; [apply spec_firstRejection_None, start8_passes_E2|].
  split; [cbn; lia|].
  rewrite (applyExecution_passes _ _ start8_passes_E2); cbn [snd].
  rewrite decide_True by (unfold effective; cbn; lia).
  rewrite effectiveQuantity_appliedWith.
  split; [done|]. split; [done|]. split; [done|].
  intros H. vm_compute in H. discriminate H.
Qed.

(** C6, amended: when quantity, fill level, remaining quantity and
    executed quantity are safe integers, an event that passes all
    rejection checks and executes more than remains raises the fill level
    by exactly what remains, and the result is exactly
    [{ applied: true, reason: "capped_overfill" }], which has no
    [effectiveQuantity]. *)
Theorem C6_capping (c : store * TradingEngine) (evt : ExecutionEvent) :
  safeOrder (orderOf c) →
  Number.safe (quantity (orderOf c) - filledQuantity (orderOf c)) →
  safeEvent evt →
  spec_firstRejection c evt = None →
  executedQuantity evt > quantity (orderOf c) - filledQuantity (orderOf c) →
  let '(fc', r) := F64.applyExecution (lift c) (liftEvent evt) in
  F64.filledQuantity (F64.orderOf fc')
    = Number.ofZ (filledQuantity (orderOf c)
                  + (quantity (orderOf c) - filledQuantity (orderOf c))) ∧
  r = appliedWith "capped_overfill" ∧
  effectiveQuantity r = None.
Proof.
  intros Hso Hrem He Hp Hgt.
  destruct (F64_applyExecution_lift c evt Hso Hrem He) as (Hr & _ & _ & Ho & _).
  pose proof (capping_exact c evt Hp Hgt) as Hex.
  destruct (F64.applyExecution (lift c) (liftEvent evt)) as [fc' r].
  destruct (applyExecution c evt) as [c' r'].
  cbn [fst snd] in Hr, Ho. subst r. rewrite Ho.
  destruct Hex as (Hf & Hres & Hno). cbn [liftOrder F64.filledQuantity].
  by rewrite Hf.
Qed.

Lemma C6_capping_witness :
  safeOrder (orderOf start8) ∧
  Number.safe (quantity (orderOf start8) - filledQuantity (orderOf start8)) ∧
  safeEvent E2 ∧
  spec_firstRejection start8 E2 = None ∧
  executedQuantity E2
    > quantity (orderOf start8) - filledQuantity (orderOf start8) ∧
  let '(fc', r) := F64.applyExecution (lift start8) (liftEvent E2) in
  F64.filledQuantity (F64.orderOf fc')
    = Number.ofZ (filledQuantity (orderOf start8)
                  + (quantity (orderOf start8)
                     - filledQuantity (orderOf start8))) ∧
  r = appliedWith "capped_overfill" ∧
  effectiveQuantity r = None.
Proof.
  destruct safe_start8 as (Hso & Hrem & _).
  assert (He : safeEvent E2) by (apply safe_small_event; cbn; lia).
  assert (Hp : spec_firstRejection start8 E2 = None)
    by apply spec_firstRejection_None, start8_passes_E2.
  assert (Hgt : executedQuantity E2
      > quantity (orderOf start8) - filledQuantity (orderOf start8))
    by (cbn; lia).
  split; [exact Hso|]. split; [exact Hrem|]. split; [exact He|].
  split; [exact Hp|]. split; [exact Hgt|].
  exact (C6_capping start8 E2 Hso Hrem He Hp Hgt).
Defined.

(** ** C7: the balance *)

(** C7, as the specification states it, fails for SELL: the engine's
    [Order] has no side and the balance is debited whatever the order.
    Were the order of scenario 1 a SELL order, its balance would have to
    rise from 100 to 104; the engine takes it to 96.  Beyond the safe
    integers the amount fails as well: on a balance of -2^53 an applied
    execution of 1 leaves the balance where it was. *)
Lemma C7_sell_balance_not_increased :
  let fcr := F64.applyExecution (lift start10) (liftEvent E1) in
  let fd := lift startDebt in
  let fdr := F64.applyExecution fd (liftEvent E3) in
  applied fcr.2 = Some (JBool true) ∧
  F64.balance (F64.accountOf fcr.1) = Number.ofZ 96 ∧
  F64.balance (F64.accountOf fcr.1)
    ≠ Number.ofZ (balance (accountOf start10)
                  + spec_balanceChange SELL (effective start10 E1)) ∧
  applied fdr.2 = Some (JBool true) ∧
  F64.effective fd (liftEvent E3) = Number.ofZ 1 ∧
  F64.balance (F64.accountOf fdr.1) = F64.balance (F64.accountOf fd).
Proof.
  cbv zeta.
  destruct safe_start10 as (Hso & Hrem & _).
  destruct (F64_applyExecution_lift start10 E1 Hso Hrem
              (safe_small_event E1 ltac:(cbn; lia))) as (Hr & _ & _ & _ & Ha).
  rewrite Hr, Ha.
  pose proof (passes_applied _ _ start10_passes_E1) as Happ.
  rewrite (isApplied_applied _ Happ).
  split; [exact Happ|]. cbn [F64.balance].
  split; [by vm_compute|]. split; [by vm_compute|].
  split; [by vm_compute|]. split; by vm_compute.
Qed.

(** C7, amended: when quantity, fill level, remaining quantity, executed
    quantity, the balance and the balance less the effective quantity are
    safe integers, every successful apply changes the balance by exactly
    minus the effective quantity [min(executedQuantity, remaining)],
    whatever the specification would call the order's side: this is the
    specification's change for a BUY order.  While the order is not
    over-filled the effective quantity is at least 1 and the balance goes
    down. *)
Theorem C7_balance_decreases (c : store * TradingEngine)
    (evt : ExecutionEvent) :
  safeOrder (orderOf c) →
  Number.safe (quantity (orderOf c) - filledQuantity (orderOf c)) →
  safeEvent evt →
  Number.safe (balance (accountOf c)) →
  Number.safe (balance (accountOf c) - effective c evt) →
  let fcr := F64.applyExecution (lift c) (liftEvent evt) in
  applied fcr.2 = Some (JBool true) →
  F64.balance (F64.accountOf fcr.1)
    = Number.ofZ (balance (accountOf c) - effective c evt) ∧
  F64.balance (F64.accountOf fcr.1)
    = Number.ofZ (balance (accountOf c)
                  + spec_balanceChange BUY (effective c evt)) ∧
  (filledQuantity (orderOf c) < quantity (orderOf c) →
   1 ≤ effective c evt ∧
   Number.ltb (F64.balance (F64.accountOf fcr.1))
              (F64.balance (F64.accountOf (lift c))) = true).
Proof.
  intros Hso Hrem He Hbal Hbal' fcr Happ. subst fcr.
  destruct (F64_applyExecution_lift c evt Hso Hrem He) as (Hr & _ & _ & _ & Ha).
  rewrite Hr in Happ. rewrite Ha, (isApplied_applied _ Happ).
  cbn [F64.balance].
  assert (Heff : Number.safe (effective c evt))
    by (destruct Hso, He; unfold Number.safe, effective, safeEvent in *; lia).
  rewrite NumberFacts.sub_ofZ by done.
  split; [done|]. split; [by cbn; rewrite Z.add_opp_r|].
  intros Hlt. pose proof (passes_effective_pos c evt (applied_passes _ _ Happ) Hlt).
  split; [done|]. cbn [lift F64.accountOf F64.account liftAccount snd
                       F64.balance].
  rewrite NumberFacts.ltb_ofZ by done. apply Z.ltb_lt. unfold accountOf. lia.
Qed.

Lemma C7_balance_decreases_witness :
  safeOrder (orderOf start10) ∧
  Number.safe (quantity (orderOf start10) - filledQuantity (orderOf start10)) ∧
  safeEvent E1 ∧
  Number.safe (balance (accountOf start10)) ∧
  Number.safe (balance (accountOf start10) - effective start10 E1) ∧
  let fcr := F64.applyExecution (lift start10) (liftEvent E1) in
  applied fcr.2 = Some (JBool true) ∧
  F64.balance (F64.accountOf fcr.1)
    = Number.ofZ (balance (accountOf start10) - effective start10 E1) ∧
  F64.balance (F64.accountOf fcr.1)
    = Number.ofZ (balance (accountOf start10)
                  + spec_balanceChange BUY (effective start10 E1)) ∧
  (filledQuantity (orderOf start10) < quantity (orderOf start10) →
   1 ≤ effective start10 E1 ∧
   Number.ltb (F64.balance (F64.accountOf fcr.1))
              (F64.balance (F64.accountOf (lift start10))) = true).
Proof.
  destruct safe_start10 as (Hso & Hrem & Hbal).
  assert (He : safeEvent E1) by (apply safe_small_event; cbn; lia).
  assert (Hbal' : Number.safe (balance (accountOf start10)
                               - effective start10 E1))
    by (unfold Number.safe, effective; cbn; lia).
  assert (Happ : applied (F64.applyExecution (lift start10) (liftEvent E1)).2
                 = Some (JBool true)).
  { destruct (F64_applyExecution_lift start10 E1 Hso Hrem He) as (-> & _).
    apply passes_applied, start10_passes_E1. }
  split; [exact Hso|]. split; [exact Hrem|]. split; [exact He|].
  split; [exact Hbal|]. split; [exact Hbal'|]. cbv zeta.
  split; [exact Happ|].
  exact (C7_balance_decreases start10 E1 Hso Hrem He Hbal Hbal' Happ).
Defined.

(** ** C9: a successful apply fills at least one unit *)

(** C9, as stated, fails beyond the safe integers: on the consistent
    order of quantity 9007199254740994 with 9007199254740992 filled, an
    execution of 1 is applied, and the fill level, rounded to the nearest
    binary64 number, stays where it was. *)
Lemma C9_applied_without_fill_beyond_safe_integers :
  let fc := lift startEdge in
  let fcr := F64.applyExecution fc (liftEvent EOne) in
  F64.consistent (F64.orderOf fc) ∧
  applied fcr.2 = Some (JBool true) ∧
  F64.effective fc (liftEvent EOne) = Number.ofZ 1 ∧
  F64.filledQuantity (F64.orderOf fcr.1) = F64.filledQuantity (F64.orderOf fc) ∧
  Number.ltb (F64.filledQuantity (F64.orderOf fc))
             (F64.filledQuantity (F64.orderOf fcr.1)) = false.
Proof.
  cbv zeta. split; [by vm_compute|]. split; [by vm_compute|].
  split; [by vm_compute|]. split; by vm_compute.
Qed.

(** C9, amended: when the quantity, the fill level and the executed
    quantity are safe integers and the order is consistent, every call
    that returns [applied: true] raises the fill level by the effective
    quantity [min(executedQuantity, remaining)], which is at least 1, so
    the fill level strictly increases and the new status is not OPEN. *)
Theorem C9_success_fills (c : store * TradingEngine) (evt : ExecutionEvent) :
  Number.safe (quantity (orderOf c)) → safeEvent evt →
  consistent (orderOf c) →
  let fcr := F64.applyExecution (lift c) (liftEvent evt) in
  applied fcr.2 = Some (JBool true) →
  let o' := F64.orderOf fcr.1 in
  F64.filledQuantity o'
    = Number.ofZ (filledQuantity (orderOf c) + effective c evt) ∧
  1 ≤ effective c evt ∧
  Number.ltb (F64.filledQuantity (F64.orderOf (lift c)))
             (F64.filledQuantity o') = true ∧
  F64.status o' ≠ OPEN.
Proof.
  intros Hq He Hc fcr Happ o'. subst o' fcr.
  pose proof Hc as (_ & Hb & _).
  destruct (bounded_safe _ Hb Hq) as [Hso Hrem].
  destruct (F64_applyExecution_lift c evt Hso Hrem He) as (Hr & _ & _ & -> & _).
  rewrite Hr in Happ.
  destruct (success_fills_exact c evt Hc Happ) as (Hf & H1 & Hlt & Hst).
  cbn [liftOrder F64.filledQuantity F64.status F64.orderOf lift snd F64.order].
  rewrite Hf. split; [done|]. split; [done|]. split; [|done].
  pose proof (safe_fill c evt Hso (applied_passes _ _ Happ)) as Hs'.
  destruct Hso as [_ Hsf].
  rewrite NumberFacts.ltb_ofZ by done. apply Z.ltb_lt.
  unfold orderOf in *. lia.
Qed.

Lemma C9_success_fills_witness :
  Number.safe (quantity (orderOf start8)) ∧ safeEvent E2 ∧
  consistent (orderOf start8) ∧
  let fcr := F64.applyExecution (lift start8) (liftEvent E2) in
  applied fcr.2 = Some (JBool true) ∧
  let o' := F64.orderOf fcr.1 in
  F64.filledQuantity o'
    = Number.ofZ (filledQuantity (orderOf start8) + effective start8 E2) ∧
  1 ≤ effective start8 E2 ∧
  Number.ltb (F64.filledQuantity (F64.orderOf (lift start8)))
             (F64.filledQuantity o') = true ∧
  F64.status o' ≠ OPEN.
Proof.
  destruct safe_start8 as (Hso & Hrem & _).
  assert (Hq : Number.safe (quantity (orderOf start8))) by apply Hso.
  assert (He : safeEvent E2) by (apply safe_small_event; cbn; lia).
  assert (Happ : applied (F64.applyExecution (lift start8) (liftEvent E2)).2
                 = Some (JBool true)).
  { destruct (F64_applyExecution_lift start8 E2 Hso Hrem He) as (-> & _).
    apply passes_applied, start8_passes_E2. }
  split; [exact Hq|]. split; [exact He|]. split; [exact start8_consistent|].
  cbv zeta. split; [exact Happ|].
  exact (C9_success_fills start8 E2 Hq He start8_consistent Happ).
Defined.

(** * Further properties of the engine, on binary64 numbers *)

(** ** Whole deliveries on safe integers *)

Lemma applyExecution_fill_mono c evt :
  bounded (orderOf c) →
  filledQuantity (orderOf c) ≤ filledQuantity (orderOf (applyExecution c evt).1).
Proof.
  intros Hb. destruct (applyExecution_cases c evt) as [[why ->]|Hp]; [done|].
  rewrite (applyExecution_passes _ _ Hp). unfold orderOf at 2; cbn [fst snd order].
  destruct (updateStatus_quantities
              (addFilled (orderOf c) (effective c evt))) as (_ & -> & _).
  destruct Hp as (_ & _ & _ & Hq & _).
  unfold bounded, effective, addFilled in *; cbn. lia.
Qed.

Lemma safeConfig_step c evt :
  safeConfig c → safeConfig (applyExecution c evt).1.
Proof.
  intros (Hb & Hq & Hbal & Hlow).
  pose proof (applyExecution_bounded c evt Hb) as Hb'.
  pose proof (applyExecution_fill_mono c evt Hb) as Hm.
  pose proof (applyExecution_conserves c evt) as Hc.
  destruct (applyExecution_fixed c evt) as (_ & _ & Hq').
  unfold safeConfig. rewrite Hq'.
  split; [done|]. split; [done|].
  unfold bounded, Number.safe in *. rewrite Hq' in Hb'. lia.
Qed.

(** On a safe configuration the program and the exact model take the same
    step. *)
Lemma lift_applyExecution c evt :
  safeConfig c → safeEvent evt →
  F64.applyExecution (lift c) (liftEvent evt)
  = (lift (applyExecution c evt).1, (applyExecution c evt).2).
Proof.
  intros (Hb & Hq & Hbal & Hlow) He.
  destruct (bounded_safe _ Hb Hq) as [Hso Hrem].
  destruct c as [σ this]. unfold lift at 1; cbn [fst snd].
  rewrite (F64_applyExecution_sim σ this _ evt Hso Hrem He
             (safe_fill (σ, this) evt Hso)).
  f_equal. unfold lift; cbn [fst snd]. f_equal.
  destruct (applyExecution_fixed (σ, this) evt) as (Hp & _).
  cbn [fst snd] in Hp. rewrite Hp.
  unfold orderOf. f_equal.
  destruct (applyExecution_cases (σ, this) evt) as [[why Hr]|Hp'].
  - by rewrite Hr.
  - rewrite (isApplied_applied _ (passes_applied _ _ Hp')).
    rewrite (applyExecution_passes _ _ Hp'); cbn [fst snd account].
    unfold liftAccount; cbn [balance F64.balance liftAccount]. f_equal.
    destruct Hp' as (_ & _ & _ & Hpos & _).
    unfold accountOf, orderOf in *; cbn [fst snd] in *.
    apply NumberFacts.sub_ofZ; [done | |];
      unfold bounded, Number.safe, safeEvent, effective, orderOf in *;
      cbn [fst snd] in *; lia.
Qed.

Lemma safeConfig_deliverAll c evts :
  safeConfig c → safeConfig (deliverAll c evts).
Proof.
  revert c. induction evts as [|evt rest IH]; intros c Hs; cbn; [done|].
  by apply IH, safeConfig_step.
Qed.

Lemma lift_deliverAll c evts :
  safeConfig c → Forall safeEvent evts →
  F64.deliverAll (lift c) (liftEvent <$> evts) = lift (deliverAll c evts).
Proof.
  intros Hs Hall. revert c Hs.
  induction Hall as [|evt rest He _ IH]; intros c Hs; [done|].
  rewrite fmap_cons. cbn [F64.deliverAll deliverAll].
  rewrite (lift_applyExecution c evt Hs He); cbn [fst].
  by apply IH, safeConfig_step.
Qed.

Lemma consistent_safeConfig c :
  consistent (orderOf c) → Number.safe (quantity (orderOf c)) →
  Number.safe (balance (accountOf c)) →
  Number.safe (balance (accountOf c)
               - (quantity (orderOf c) - filledQuantity (orderOf c))) →
  safeConfig c.
Proof.
  intros (_ & Hb & _) Hq Hbal Hlow.
  split; [exact Hb|]. split; [exact Hq|]. split; [exact Hbal | exact Hlow].
Qed.

Lemma safe_start10_config : safeConfig start10.
Proof.
  unfold safeConfig, bounded, Number.safe; cbn. lia.
Qed.

Lemma safe_E123 : Forall safeEvent [E1; E2; E3].
Proof. repeat constructor; apply safe_small_event; cbn; lia. Qed.

(** X1: on safe integers, whatever is delivered, every unit filled is a
    unit debited and nothing else touches either number: there is a number
    [k] of units, between 0 and what remained to be filled, by which the
    fill level went up and the balance went down. *)
Theorem X1_balance_plus_fill_conserved (c : store * TradingEngine)
    (evts : list ExecutionEvent) :
  safeConfig c → Forall safeEvent evts →
  let fc' := F64.deliverAll (lift c) (liftEvent <$> evts) in
  ∃ k : Z,
    0 ≤ k ≤ quantity (orderOf c) - filledQuantity (orderOf c) ∧
    F64.filledQuantity (F64.orderOf fc')
      = Number.ofZ (filledQuantity (orderOf c) + k) ∧
    F64.balance (F64.accountOf fc')
      = Number.ofZ (balance (accountOf c) - k).
Proof.
  intros Hs Hall. cbn zeta. rewrite (lift_deliverAll c evts Hs Hall).
  pose proof (deliverAll_conserves c evts) as Hc.
  pose proof (safeConfig_deliverAll c evts Hs) as (Hb' & _).
  destruct (deliverAll_fixed c evts) as (_ & _ & Hq).
  assert (Hm : filledQuantity (orderOf c)
               ≤ filledQuantity (orderOf (deliverAll c evts))).
  { clear Hc Hb' Hq Hall. destruct Hs as (Hb & _). revert c Hb.
    induction evts as [|evt rest IH]; intros c Hb; cbn; [done|].
    etrans; [apply (applyExecution_fill_mono c evt Hb)|].
    by apply IH, applyExecution_bounded. }
  exists (filledQuantity (orderOf (deliverAll c evts))
          - filledQuantity (orderOf c)).
  unfold bounded in Hb'. rewrite Hq in Hb'.
  split; [lia|]. unfold lift, F64.orderOf, F64.accountOf, orderOf, accountOf
    in *; cbn [fst snd F64.order F64.account liftOrder liftAccount
               F64.filledQuantity F64.balance] in *.
  split; f_equal; lia.
Qed.

Lemma X1_balance_plus_fill_conserved_witness :
  safeConfig start10 ∧ Forall safeEvent [E1; E2; E3] ∧
  let fc' := F64.deliverAll (lift start10) (liftEvent <$> [E1; E2; E3]) in
  ∃ k : Z,
    0 ≤ k ≤ quantity (orderOf start10) - filledQuantity (orderOf start10) ∧
    F64.filledQuantity (F64.orderOf fc')
      = Number.ofZ (filledQuantity (orderOf start10) + k) ∧
    F64.balance (F64.accountOf fc')
      = Number.ofZ (balance (accountOf start10) - k).
Proof.
  split; [exact safe_start10_config|]. split; [exact safe_E123|].
  exact (X1_balance_plus_fill_conserved start10 [E1; E2; E3]
           safe_start10_config safe_E123).
Defined.

(** X4: on safe integers and a consistent order, delivering well-formed
    events (type "execution", this order's id, positive quantity) whose
    ids are pairwise different and were never processed leaves the fill
    level at [min(quantity, filledQuantity + sum of the executed
    quantities)]; the balance has gone down by what was filled. *)
Theorem X4_final_fill_saturates (c : store * TradingEngine)
    (evts : list ExecutionEvent) :
  safeConfig c → Forall safeEvent evts →
  consistent (orderOf c) → Forall (wellFormedFor c) evts →
  NoDup (eventId <$> evts) →
  (∀ evt, evt ∈ evts → eventId evt ∉ processed c) →
  let fc' := F64.deliverAll (lift c) (liftEvent <$> evts) in
  let final := Z.min (quantity (orderOf c))
                     (filledQuantity (orderOf c) + totalQuantity evts) in
  F64.filledQuantity (F64.orderOf fc') = Number.ofZ final ∧
  F64.balance (F64.accountOf fc')
  = Number.ofZ (balance (accountOf c) - (final - filledQuantity (orderOf c))).
Proof.
  intros Hs Hall Hc Hwf Hnd Hnew. cbn zeta.
  rewrite (lift_deliverAll c evts Hs Hall).
  destruct (final_fill_exact c evts Hc Hwf Hnd Hnew) as [Hf Hbal].
  unfold lift, F64.orderOf, F64.accountOf, orderOf, accountOf
    in *; cbn [fst snd F64.order F64.account liftOrder liftAccount
               F64.filledQuantity F64.balance] in *.
  rewrite Hbal, Hf. done.
Qed.

Lemma X4_final_fill_saturates_witness :
  safeConfig start10 ∧ Forall safeEvent [E1; E2; E3] ∧
  consistent (orderOf start10) ∧
  Forall (wellFormedFor start10) [E1; E2; E3] ∧
  NoDup (eventId <$> [E1; E2; E3]) ∧
  (∀ evt, evt ∈ [E1; E2; E3] → eventId evt ∉ processed start10) ∧
  let fc' := F64.deliverAll (lift start10) (liftEvent <$> [E1; E2; E3]) in
  let final := Z.min (quantity (orderOf start10))
                     (filledQuantity (orderOf start10)
                      + totalQuantity [E1; E2; E3]) in
  F64.filledQuantity (F64.orderOf fc') = Number.ofZ final ∧
  F64.balance (F64.accountOf fc')
  = Number.ofZ (balance (accountOf start10)
                - (final - filledQuantity (orderOf start10))).
Proof.
  split; [exact safe_start10_config|]. split; [exact safe_E123|].
  split; [exact start10_consistent|]. split; [exact start10_wellFormed|].
  split; [exact E123_NoDup|]. split; [exact start10_fresh_ids|].
  exact (X4_final_fill_saturates start10 [E1; E2; E3] safe_start10_config
           safe_E123 start10_consistent start10_wellFormed E123_NoDup
           start10_fresh_ids).
Defined.

(** X5: under the same conditions the order in which the events arrive
    does not matter for the order and the account: two deliveries of the
    same events in different orders end with equal [Order] and [Account]
    (the processed-event sets may differ, since an event that arrives
    after the order is FILLED is not recorded). *)
Theorem X5_delivery_order_irrelevant (c : store * TradingEngine)
    (evts evts' : list ExecutionEvent) :
  safeConfig c → Forall safeEvent evts →
  consistent (orderOf c) → Forall (wellFormedFor c) evts →
  NoDup (eventId <$> evts) →
  (∀ evt, evt ∈ evts → eventId evt ∉ processed c) →
  evts ≡ₚ evts' →
  F64.orderOf (F64.deliverAll (lift c) (liftEvent <$> evts'))
  = F64.orderOf (F64.deliverAll (lift c) (liftEvent <$> evts)) ∧
  F64.accountOf (F64.deliverAll (lift c) (liftEvent <$> evts'))
  = F64.accountOf (F64.deliverAll (lift c) (liftEvent <$> evts)).
Proof.
  intros Hs Hall Hc Hwf Hnd Hnew Hperm.
  assert (Hall' : Forall safeEvent evts') by by rewrite <- Hperm.
  rewrite (lift_deliverAll c evts Hs Hall), (lift_deliverAll c evts' Hs Hall').
  destruct (delivery_order_exact c evts evts' Hc Hwf Hnd Hnew Hperm)
    as [Ho Ha].
  unfold lift, F64.orderOf, F64.accountOf, orderOf, accountOf
    in *; cbn [fst snd F64.order F64.account] in *.
  by rewrite Ho, Ha.
Qed.

Lemma X5_delivery_order_irrelevant_witness :
  safeConfig start10 ∧ Forall safeEvent [E1; E2; E3] ∧
  consistent (orderOf start10) ∧
  Forall (wellFormedFor start10) [E1; E2; E3] ∧
  NoDup (eventId <$> [E1; E2; E3]) ∧
  (∀ evt, evt ∈ [E1; E2; E3] → eventId evt ∉ processed start10) ∧
  [E1; E2; E3] ≡ₚ [E3; E1; E2] ∧
  F64.orderOf (F64.deliverAll (lift start10) (liftEvent <$> [E3; E1; E2]))
  = F64.orderOf (F64.deliverAll (lift start10) (liftEvent <$> [E1; E2; E3])) ∧
  F64.accountOf (F64.deliverAll (lift start10) (liftEvent <$> [E3; E1; E2]))
  = F64.accountOf (F64.deliverAll (lift start10) (liftEvent <$> [E1; E2; E3])).
Proof.
  assert (Hperm : [E1; E2; E3] ≡ₚ [E3; E1; E2])
    by apply (Permutation_app_comm [E1; E2] [E3]).
  split; [exact safe_start10_config|]. split; [exact safe_E123|].
  split; [exact start10_consistent|]. split; [exact start10_wellFormed|].
  split; [exact E123_NoDup|]. split; [exact start10_fresh_ids|].
  split; [exact Hperm|].
  exact (X5_delivery_order_irrelevant start10 [E1; E2; E3] [E3; E1; E2]
           safe_start10_config safe_E123 start10_consistent
           start10_wellFormed E123_NoDup start10_fresh_ids Hperm).
Defined.

(** ** An order that starts over-filled *)

(** X6: on safe integers, an order handed to the engine with
    [filledQuantity > quantity] and a status other than FILLED is pulled
    back by the first event that passes the guards: [remaining] is
    negative, so the fill level drops to exactly [quantity], the status
    becomes FILLED, the balance goes up by the excess and the call reports
    [capped_overfill]. *)
Theorem X6_overfilled_order_is_pulled_back (c : store * TradingEngine)
    (evt : ExecutionEvent) :
  safeOrder (orderOf c) →
  Number.safe (quantity (orderOf c) - filledQuantity (orderOf c)) →
  safeEvent evt →
  Number.safe (balance (accountOf c)) →
  Number.safe (balance (accountOf c)
               + (filledQuantity (orderOf c) - quantity (orderOf c))) →
  passes c evt → quantity (orderOf c) < filledQuantity (orderOf c) →
  let '(fc', r) := F64.applyExecution (lift c) (liftEvent evt) in
  F64.filledQuantity (F64.orderOf fc') = Number.ofZ (quantity (orderOf c)) ∧
  F64.status (F64.orderOf fc') = FILLED ∧
  F64.balance (F64.accountOf fc')
  = Number.ofZ (balance (accountOf c)
                + (filledQuantity (orderOf c) - quantity (orderOf c))) ∧
  r = appliedWith "capped_overfill".
Proof.
  intros Hso Hrem He Hbal Hbal' Hp Hover.
  destruct (F64_applyExecution_lift c evt Hso Hrem He)
    as (Hr & _ & _ & Ho & Ha).
  pose proof (pulled_back_exact c evt Hp Hover) as Hex.
  rewrite (isApplied_applied _ (passes_applied _ _ Hp)) in Ha.
  destruct (F64.applyExecution (lift c) (liftEvent evt)) as [fc' r].
  destruct (applyExecution c evt) as [c' r'].
  cbn [fst snd] in Hr, Ho, Ha. subst r. rewrite Ho, Ha.
  destruct Hex as (Hf & Hst & _ & Hres).
  cbn [liftOrder F64.filledQuantity F64.status F64.balance].
  rewrite Hf, Hst. split; [done|]. split; [done|]. split; [|done].
  destruct Hp as (_ & _ & _ & Hpos & _).
  assert (Heff : effective c evt
                 = quantity (orderOf c) - filledQuantity (orderOf c))
    by (unfold effective; lia).
  rewrite Heff, NumberFacts.sub_ofZ; [f_equal; lia | done | done |].
  eapply eq_ind; [exact Hbal'|]. lia.
Qed.

Lemma X6_overfilled_order_is_pulled_back_witness :
  safeOrder (orderOf startOver) ∧
  Number.safe (quantity (orderOf startOver)
               - filledQuantity (orderOf startOver)) ∧
  safeEvent E6 ∧
  Number.safe (balance (accountOf startOver)) ∧
  Number.safe (balance (accountOf startOver)
               + (filledQuantity (orderOf startOver)
                  - quantity (orderOf startOver))) ∧
  passes startOver E6 ∧
  quantity (orderOf startOver) < filledQuantity (orderOf startOver) ∧
  let '(fc', r) := F64.applyExecution (lift startOver) (liftEvent E6) in
  F64.filledQuantity (F64.orderOf fc')
    = Number.ofZ (quantity (orderOf startOver)) ∧
  F64.status (F64.orderOf fc') = FILLED ∧
  F64.balance (F64.accountOf fc')
  = Number.ofZ (balance (accountOf startOver)
                + (filledQuantity (orderOf startOver)
                   - quantity (orderOf startOver))) ∧
  r = appliedWith "capped_overfill".
Proof.
  assert (Hso : safeOrder (orderOf startOver))
    by (unfold safeOrder, Number.safe; cbn; lia).
  assert (Hrem : Number.safe (quantity (orderOf startOver)
                              - filledQuantity (orderOf startOver)))
    by (unfold Number.safe; cbn; lia).
  assert (He : safeEvent E6) by (apply safe_small_event; cbn; lia).
  assert (Hbal : Number.safe (balance (accountOf startOver)))
    by (unfold Number.safe; cbn; lia).
  assert (Hbal' : Number.safe (balance (accountOf startOver)
               + (filledQuantity (orderOf startOver)
                  - quantity (orderOf startOver))))
    by (unfold Number.safe; cbn; lia).
  assert (Hp : passes startOver E6)
    by (apply fresh_engine_passes; cbn; first [ done | lia ]).
  assert (Hover : quantity (orderOf startOver)
                  < filledQuantity (orderOf startOver)) by (cbn; lia).
  split; [exact Hso|]. split; [exact Hrem|]. split; [exact He|].
  split; [exact Hbal|]. split; [exact Hbal'|].
  split; [exact Hp|]. split; [exact Hover|].
  exact (X6_overfilled_order_is_pulled_back startOver E6 Hso Hrem He Hbal
           Hbal' Hp Hover).
Defined.

(** ** Clearing re-opens the door *)

Lemma simO_clear fc c :
  simO fc c → simO (F64.clearProcessedEvents fc) (clearProcessedEvents c).
Proof.
  destruct fc as [σ' [fo fa fp]], c as [σ this].
  intros (Hs & Ho & Hp); cbn in Hs, Ho, Hp; subst σ' fo fp. done.
Qed.

(** X8: [clearProcessedEvents] gives up the idempotence: on safe integers
    and a consistent order, an event that was applied and did not fill the
    order is applied a second time when it is delivered again after the
    clearing, and the fill level rises again. *)
Theorem X8_clear_allows_double_apply (c : store * TradingEngine)
    (evt : ExecutionEvent) :
  Number.safe (quantity (orderOf c)) → safeEvent evt →
  consistent (orderOf c) →
  let fcr1 := F64.applyExecution (lift c) (liftEvent evt) in
  applied fcr1.2 = Some (JBool true) →
  F64.status (F64.orderOf fcr1.1) ≠ FILLED →
  let fc2 := F64.clearProcessedEvents fcr1.1 in
  applied (F64.applyExecution fc2 (liftEvent evt)).2 = Some (JBool true) ∧
  Number.ltb (F64.filledQuantity (F64.orderOf fcr1.1))
    (F64.filledQuantity (F64.orderOf (F64.applyExecution fc2 (liftEvent evt)).1))
  = true.
Proof.
  intros Hq He Hc fcr1 Happ Hnf fc2. subst fc2 fcr1.
  pose proof Hc as (_ & Hb & _).
  destruct (simO_step (lift c) c evt (lift_simO c) Hb Hq He)
    as (Hs1 & Hr1 & _).
  rewrite Hr1 in Happ. apply applied_passes in Happ.
  pose proof Hs1 as (_ & Ho1 & _).
  unfold F64.orderOf in *. rewrite Ho1 in Hnf |- *. cbn [liftOrder F64.status] in Hnf.
  destruct (double_apply_exact c evt Hc Happ Hnf) as [Happ2 Hlt].
  set (c1 := (applyExecution c evt).1) in *.
  set (fc1 := (F64.applyExecution (lift c) (liftEvent evt)).1) in *.
  pose proof (applyExecution_bounded c evt Hb) as Hb1.
  destruct (applyExecution_fixed c evt) as (_ & _ & Hq1).
  fold c1 in Hb1, Hq1.
  assert (Hoc : orderOf (clearProcessedEvents c1) = orderOf c1)
    by by destruct c1.
  destruct (simO_step (F64.clearProcessedEvents fc1) (clearProcessedEvents c1)
              evt (simO_clear _ _ Hs1)) as ((_ & Ho2 & _) & Hr2 & _);
    [by rewrite Hoc | by rewrite Hoc, Hq1 | done |].
  rewrite Hr2, Ho2. split; [done|].
  cbn [liftOrder F64.filledQuantity].
  pose proof (applyExecution_bounded (clearProcessedEvents c1) evt) as Hb2.
  rewrite Hoc in Hb2. specialize (Hb2 Hb1).
  destruct (applyExecution_fixed (clearProcessedEvents c1) evt)
    as (_ & _ & Hq2). rewrite Hoc, Hq1 in Hq2.
  unfold bounded, orderOf in *.
  rewrite NumberFacts.ltb_ofZ; [by apply Z.ltb_lt | |];
    unfold Number.safe in *; lia.
Qed.

Lemma X8_clear_allows_double_apply_witness :
  Number.safe (quantity (orderOf start10)) ∧ safeEvent E1 ∧
  consistent (orderOf start10) ∧
  let fcr1 := F64.applyExecution (lift start10) (liftEvent E1) in
  applied fcr1.2 = Some (JBool true) ∧
  F64.status (F64.orderOf fcr1.1) ≠ FILLED ∧
  let fc2 := F64.clearProcessedEvents fcr1.1 in
  applied (F64.applyExecution fc2 (liftEvent E1)).2 = Some (JBool true) ∧
  Number.ltb (F64.filledQuantity (F64.orderOf fcr1.1))
    (F64.filledQuantity (F64.orderOf (F64.applyExecution fc2 (liftEvent E1)).1))
  = true.
Proof.
  destruct safe_start10 as (Hso & Hrem & _).
  assert (Hq : Number.safe (quantity (orderOf start10))) by apply Hso.
  assert (He : safeEvent E1) by (apply safe_small_event; cbn; lia).
  destruct (F64_applyExecution_lift start10 E1 Hso Hrem He)
    as (Hr & _ & _ & Ho & _).
  assert (Happ : applied (F64.applyExecution (lift start10) (liftEvent E1)).2
                 = Some (JBool true)).
  { rewrite Hr. apply passes_applied, start10_passes_E1. }
  assert (Hnf : F64.status
                  (F64.orderOf (F64.applyExecution (lift start10)
                                  (liftEvent E1)).1) ≠ FILLED).
  { rewrite Ho. rewrite (applyExecution_passes _ _ start10_passes_E1).
    vm_compute. discriminate. }
  split; [exact Hq|]. split; [exact He|]. split; [exact start10_consistent|].
  cbv zeta. split; [exact Happ|]. split; [exact Hnf|].
  exact (X8_clear_allows_double_apply start10 E1 Hq He start10_consistent
           Happ Hnf).
Defined.

(** * [executeOrder] on binary64 numbers *)

Arguments Number.ofZ : simpl never.
Arguments Number.add : simpl never.
Arguments Number.sub : simpl never.
Arguments Number.opp : simpl never.
Arguments Number.min : simpl never.
Arguments Number.eqb : simpl never.
Arguments Number.ltb : simpl never.
Arguments Number.leb : simpl never.

Lemma safeCall_parts now o a q :
  safeCall now o a q →
  let k := Z.min q (ExecuteOrder.quantity o - ExecuteOrder.filledQuantity o) in
  Number.safe (ExecuteOrder.filledQuantity o) ∧
  Number.safe (ExecuteOrder.quantity o - ExecuteOrder.filledQuantity o) ∧
  Number.safe k ∧ Number.safe (- k) ∧
  Number.safe (ExecuteOrder.balance a) ∧
  (0 < k →
   Number.safe (ExecuteOrder.filledQuantity o + k) ∧
   Number.safe (ExecuteOrder.balance a - k) ∧
   Number.safe (ExecuteOrder.balance a + k)).
Proof.
  intros (Hnow & Hq & HQ & Hb & Hlo & Hhi & _). cbv zeta.
  unfold Number.safe in *. lia.
Qed.

Lemma isDuplicate64_lift now o a q :
  safeCall now o a q →
  ExecuteOrder64.isDuplicate (Number.ofZ now) (liftSidedOrder o)
    (Number.ofZ q)
  = ExecuteOrder.isDuplicate now o q.
Proof.
  intros (Hnow & Hq & _ & _ & _ & _ & Hlast).
  unfold ExecuteOrder64.isDuplicate, ExecuteOrder.isDuplicate; cbn.
  destruct (ExecuteOrder._lastExecution o) as [last|]; cbn; [|done].
  destruct Hlast as (Hlq & Hlt & Hd).
  rewrite NumberFacts.eqb_ofZ, NumberFacts.sub_ofZ by done.
  rewrite NumberFacts.ltb_ofZ by (done || (unfold Number.safe; lia)).
  f_equal.
  - destruct (Z.eqb_spec (ExecuteOrder.LastExecution.quantity last) q).
    + by rewrite bool_decide_eq_true_2.
    + by rewrite bool_decide_eq_false_2.
  - destruct (Z.ltb_spec (now - ExecuteOrder.LastExecution.timestamp last)
                100).
    + by rewrite bool_decide_eq_true_2.
    + by rewrite bool_decide_eq_false_2 by lia.
Qed.

Lemma updateStatus64_lift o :
  Number.safe (ExecuteOrder.quantity o) →
  Number.safe (ExecuteOrder.filledQuantity o) →
  ExecuteOrder64.updateStatus (liftSidedOrder o)
  = liftSidedOrder (ExecuteOrder.updateStatus o).
Proof.
  intros HQ Hf.
  unfold ExecuteOrder64.updateStatus, ExecuteOrder.updateStatus,
    liftSidedOrder; cbn.
  change Number.zero with (Number.ofZ 0).
  rewrite NumberFacts.leb_ofZ, NumberFacts.ltb_ofZ by (done || apply safe_0).
  f_equal.
  destruct (Z.leb_spec (ExecuteOrder.quantity o)
              (ExecuteOrder.filledQuantity o)).
  - by rewrite decide_True by lia.
  - rewrite decide_False by lia.
    destruct (Z.ltb_spec 0 (ExecuteOrder.filledQuantity o)).
    + by rewrite decide_True by lia.
    + by rewrite decide_False by lia.
Qed.

(** On safe integers the program and the exact model make the same
    call. *)
Lemma executeOrder64_lift now o a q :
  safeCall now o a q →
  ExecuteOrder64.executeOrder (Number.ofZ now) (liftSidedOrder o)
    (liftSidedAccount a) (Number.ofZ q)
  = (liftSidedOrder (ExecuteOrder.executeOrder now o a q).1,
     liftSidedAccount (ExecuteOrder.executeOrder now o a q).2).
Proof.
  intros Hs.
  pose proof (isDuplicate64_lift now o a q Hs) as Hd.
  destruct (safeCall_parts now o a q Hs) as (Hf & Hrem & Hk & Hmk & Hbal & Hpos).
  pose proof Hs as (Hnow & Hq & HQ & Hb & _).
  unfold ExecuteOrder64.executeOrder. rewrite Hd.
  destruct (ExecuteOrderFacts.executeOrder_cases now o a q)
    as [(Hdup & ->) | [(Hdup & Hle & ->) | (Hdup & Hlt & ->)]];
    rewrite Hdup; [done | |]; cbn [fst snd];
    cbn [liftSidedOrder ExecuteOrder64.quantity ExecuteOrder64.filledQuantity
         ExecuteOrder64.side];
    rewrite NumberFacts.sub_ofZ, NumberFacts.min_ofZ by done;
    change Number.zero with (Number.ofZ 0);
    rewrite NumberFacts.ltb_ofZ by (done || apply safe_0).
  - rewrite (proj2 (Z.ltb_ge _ _)) by lia.
    by rewrite <- updateStatus64_lift by done.
  - rewrite (proj2 (Z.ltb_lt _ _)) by lia.
    destruct (Hpos Hlt) as (Hfk & Hbm & Hbp).
    set (k := Z.min q (ExecuteOrder.quantity o - ExecuteOrder.filledQuantity o))
      in *.
    rewrite <- updateStatus64_lift by (cbn; done). f_equal.
    + f_equal. unfold ExecuteOrder64.fill, ExecuteOrder.fill, liftSidedOrder;
        cbn. by rewrite NumberFacts.add_ofZ by done.
    + unfold liftSidedAccount; cbn. f_equal.
      destruct (ExecuteOrder.side o); cbn.
      * rewrite NumberFacts.opp_ofZ by (done || lia).
        rewrite NumberFacts.add_ofZ; [done..|].
        by rewrite Z.add_opp_r.
      * by rewrite NumberFacts.add_ofZ.
Qed.

Lemma consistent64_lift o :
  Number.safe (ExecuteOrder.quantity o) →
  Number.safe (ExecuteOrder.filledQuantity o) →
  ExecuteOrder.consistent o → ExecuteOrder64.consistent (liftSidedOrder o).
Proof.
  intros HQ Hf (Hpos & Hb & Hst).
  pose proof (consistent_lift
                (mkOrder (ExecuteOrder.id o) (ExecuteOrder.quantity o)
                   (ExecuteOrder.filledQuantity o) (ExecuteOrder.status o)))
    as Hl.
  destruct (proj2 (Hl (conj HQ Hf))) as (H1 & [H2 H3] & H4);
    [by split|].
  split; [exact H1|]. split; [exact H2|]. split; [exact H3 | exact H4].
Qed.

Lemma filledQuantity64_lift o :
  ExecuteOrder64.filledQuantity (liftSidedOrder o)
  = Number.ofZ (ExecuteOrder.filledQuantity o).
Proof. reflexivity. Qed.

Lemma quantity64_lift o :
  ExecuteOrder64.quantity (liftSidedOrder o)
  = Number.ofZ (ExecuteOrder.quantity o).
Proof. reflexivity. Qed.

Lemma safeCall_buy10 : safeCall 1000 ExecuteOrder.buy10 (ExecuteOrder.mkAccount 100) 4.
Proof.
  unfold safeCall, Number.safe; cbn. lia.
Qed.

(** X9: on safe integers, [executeOrder] never lowers the fill level, and
    an order that is not over-filled stays so. *)
Theorem X9_executeOrder_fill_bounds (now : Z) (o : ExecuteOrder.Order)
    (a : ExecuteOrder.Account) (q : Z) :
  safeCall now o a q →
  let o' := (ExecuteOrder64.executeOrder (Number.ofZ now) (liftSidedOrder o)
               (liftSidedAccount a) (Number.ofZ q)).1 in
  Number.leb (ExecuteOrder64.filledQuantity (liftSidedOrder o))
             (ExecuteOrder64.filledQuantity o') = true ∧
  Number.leb (ExecuteOrder64.filledQuantity o')
             (ExecuteOrder64.quantity o') = true.
Proof.
  intros Hs. cbn zeta. rewrite (executeOrder64_lift now o a q Hs); cbn [fst].
  pose proof (ExecuteOrderFacts.executeOrder_fill_bounds now o a q) as Hb.
  destruct (ExecuteOrderFacts.executeOrder_signed_balance_fields now o a q)
    as (_ & HQ' & _).
  cbn zeta in Hb.
  destruct Hs as (_ & _ & HQ & Hbd & _).
  cbn [liftSidedOrder ExecuteOrder64.filledQuantity ExecuteOrder64.quantity].
  rewrite HQ'.
  rewrite !NumberFacts.leb_ofZ by (unfold Number.safe in *; lia).
  split; apply Z.leb_le; lia.
Qed.

Lemma X9_executeOrder_fill_bounds_witness :
  safeCall 1000 ExecuteOrder.buy10 (ExecuteOrder.mkAccount 100) 4 ∧
  let o' := (ExecuteOrder64.executeOrder (Number.ofZ 1000)
               (liftSidedOrder ExecuteOrder.buy10)
               (liftSidedAccount (ExecuteOrder.mkAccount 100))
               (Number.ofZ 4)).1 in
  Number.leb (ExecuteOrder64.filledQuantity (liftSidedOrder ExecuteOrder.buy10))
             (ExecuteOrder64.filledQuantity o') = true ∧
  Number.leb (ExecuteOrder64.filledQuantity o')
             (ExecuteOrder64.quantity o') = true.
Proof.
  split; [exact safeCall_buy10|].
  exact (X9_executeOrder_fill_bounds 1000 ExecuteOrder.buy10
           (ExecuteOrder.mkAccount 100) 4 safeCall_buy10).
Defined.

(** X10: on safe integers the balance moves by the units filled, down for
    a BUY order and up for a SELL order; side, quantity and id are left
    alone. *)
Theorem X10_executeOrder_signed_balance (now : Z) (o : ExecuteOrder.Order)
    (a : ExecuteOrder.Account) (q : Z) :
  safeCall now o a q →
  let '(o', a') :=
    ExecuteOrder64.executeOrder (Number.ofZ now) (liftSidedOrder o)
      (liftSidedAccount a) (Number.ofZ q) in
  ∃ k : Z,
    0 ≤ k ∧
    ExecuteOrder64.filledQuantity o'
      = Number.ofZ (ExecuteOrder.filledQuantity o + k) ∧
    ExecuteOrder64.balance a'
      = Number.ofZ (ExecuteOrder.balance a
                    + spec_balanceChange (ExecuteOrder.side o) k) ∧
    ExecuteOrder64.side o' = ExecuteOrder.side o ∧
    ExecuteOrder64.quantity o' = Number.ofZ (ExecuteOrder.quantity o) ∧
    ExecuteOrder64.id o' = ExecuteOrder.id o.
Proof.
  intros Hs. rewrite (executeOrder64_lift now o a q Hs).
  pose proof (ExecuteOrderFacts.executeOrder_fill_bounds now o a q) as Hb.
  pose proof (ExecuteOrderFacts.executeOrder_signed_balance now o a q) as Hx.
  cbn zeta in Hb.
  destruct (ExecuteOrder.executeOrder now o a q) as [o' a'].
  cbn [fst snd] in *. destruct Hx as (Hbal & Hside & HQ & Hid).
  exists (ExecuteOrder.filledQuantity o' - ExecuteOrder.filledQuantity o).
  split; [lia|].
  cbn [liftSidedOrder liftSidedAccount ExecuteOrder64.filledQuantity
       ExecuteOrder64.balance ExecuteOrder64.side ExecuteOrder64.quantity
       ExecuteOrder64.id].
  rewrite Hbal, Hside, HQ, Hid. repeat split. f_equal. lia.
Qed.

Lemma X10_executeOrder_signed_balance_witness :
  safeCall 1000 ExecuteOrder.buy10 (ExecuteOrder.mkAccount 100) 4 ∧
  let '(o', a') :=
    ExecuteOrder64.executeOrder (Number.ofZ 1000)
      (liftSidedOrder ExecuteOrder.buy10)
      (liftSidedAccount (ExecuteOrder.mkAccount 100)) (Number.ofZ 4) in
  ∃ k : Z,
    0 ≤ k ∧
    ExecuteOrder64.filledQuantity o'
      = Number.ofZ (ExecuteOrder.filledQuantity ExecuteOrder.buy10 + k) ∧
    ExecuteOrder64.balance a'
      = Number.ofZ (ExecuteOrder.balance (ExecuteOrder.mkAccount 100)
                    + spec_balanceChange
                        (ExecuteOrder.side ExecuteOrder.buy10) k) ∧
    ExecuteOrder64.side o' = ExecuteOrder.side ExecuteOrder.buy10 ∧
    ExecuteOrder64.quantity o'
      = Number.ofZ (ExecuteOrder.quantity ExecuteOrder.buy10) ∧
    ExecuteOrder64.id o' = ExecuteOrder.id ExecuteOrder.buy10.
Proof.
  split; [exact safeCall_buy10|].
  exact (X10_executeOrder_signed_balance 1000 ExecuteOrder.buy10
           (ExecuteOrder.mkAccount 100) 4 safeCall_buy10).
Defined.

(** X11: on safe integers a consistent order (positive quantity, fill
    level within bounds, status matching the fill level) is consistent
    after any call. *)
Theorem X11_executeOrder_keeps_consistent (now : Z) (o : ExecuteOrder.Order)
    (a : ExecuteOrder.Account) (q : Z) :
  safeCall now o a q → ExecuteOrder.consistent o →
  ExecuteOrder64.consistent
    (ExecuteOrder64.executeOrder (Number.ofZ now) (liftSidedOrder o)
       (liftSidedAccount a) (Number.ofZ q)).1.
Proof.
  intros Hs Hc. rewrite (executeOrder64_lift now o a q Hs); cbn [fst].
  pose proof (ExecuteOrderFacts.executeOrder_keeps_consistent now o a q Hc)
    as Hc'.
  destruct (ExecuteOrderFacts.executeOrder_signed_balance_fields now o a q)
    as (_ & HQ' & _).
  destruct Hs as (_ & _ & HQ & _).
  pose proof Hc' as (_ & Hb' & _). rewrite HQ' in Hb'.
  apply consistent64_lift; [by rewrite HQ' | | done].
  unfold Number.safe in *. lia.
Qed.

Lemma X11_executeOrder_keeps_consistent_witness :
  safeCall 1000 ExecuteOrder.buy10 (ExecuteOrder.mkAccount 100) 4 ∧
  ExecuteOrder.consistent ExecuteOrder.buy10 ∧
  ExecuteOrder64.consistent
    (ExecuteOrder64.executeOrder (Number.ofZ 1000)
       (liftSidedOrder ExecuteOrder.buy10)
       (liftSidedAccount (ExecuteOrder.mkAccount 100)) (Number.ofZ 4)).1.
Proof.
  split; [exact safeCall_buy10|].
  split; [exact ExecuteOrderFacts.buy10_consistent|].
  exact (X11_executeOrder_keeps_consistent 1000 ExecuteOrder.buy10
           (ExecuteOrder.mkAccount 100) 4 safeCall_buy10
           ExecuteOrderFacts.buy10_consistent).
Defined.

(** X13: the suppression is a matter of time only: on safe integers, when
    the same quantity comes again 100 ms or more after a call that filled
    something, and the order is not full, it is filled a second time. *)
Theorem X13_executeOrder_repeats_after_window (now1 now2 : Z)
    (o : ExecuteOrder.Order) (a : ExecuteOrder.Account) (q : Z) :
  safeCall now1 o a q → Number.safe now2 → Number.safe (now2 - now1) →
  Number.safe (ExecuteOrder.balance a - 2 * ExecuteOrder.quantity o) →
  Number.safe (ExecuteOrder.balance a + 2 * ExecuteOrder.quantity o) →
  100 ≤ now2 - now1 →
  let '(o1, a1) :=
    ExecuteOrder64.executeOrder (Number.ofZ now1) (liftSidedOrder o)
      (liftSidedAccount a) (Number.ofZ q) in
  Number.eqb (ExecuteOrder64.filledQuantity o1)
             (ExecuteOrder64.filledQuantity (liftSidedOrder o)) = false →
  Number.ltb (ExecuteOrder64.filledQuantity o1)
             (ExecuteOrder64.quantity o1) = true →
  Number.ltb (ExecuteOrder64.filledQuantity o1)
    (ExecuteOrder64.filledQuantity
       (ExecuteOrder64.executeOrder (Number.ofZ now2) o1 a1 (Number.ofZ q)).1)
  = true.
Proof.
  intros Hs Hn2 Hd Hlo Hhi Hw.
  rewrite (executeOrder64_lift now1 o a q Hs).
  pose proof Hs as (Hn1 & Hq & HQ & Hb & Hlo1 & Hhi1 & _).
  pose proof (ExecuteOrderFacts.executeOrder_repeats_after_window
                now1 now2 o a q) as Hex.
  destruct (ExecuteOrderFacts.executeOrder_cases now1 o a q)
    as [(_ & He) | [(_ & _ & He) | (_ & Hk & He)]]; rewrite He in *;
    cbv beta iota; cbn [fst snd];
    rewrite !filledQuantity64_lift, !quantity64_lift.
  1, 2: intros Hch _; cbn in Hch;
        rewrite NumberFacts.eqb_ofZ in Hch by (unfold Number.safe in *; lia);
        by rewrite Z.eqb_refl in Hch.
  set (k := Z.min q (ExecuteOrder.quantity o - ExecuteOrder.filledQuantity o))
    in *.
  set (o1 := ExecuteOrder.updateStatus (ExecuteOrder.fill now1 o q k)) in *.
  set (a1 := {| ExecuteOrder.balance :=
                  ExecuteOrder.balance a
                  + spec_balanceChange (ExecuteOrder.side o) k |}) in *.
  assert (Hk2 : k ≤ ExecuteOrder.quantity o - ExecuteOrder.filledQuantity o)
    by (unfold k; lia).
  assert (Hf1 : ExecuteOrder.filledQuantity o1
                = ExecuteOrder.filledQuantity o + k) by reflexivity.
  assert (HQ1 : ExecuteOrder.quantity o1 = ExecuteOrder.quantity o)
    by reflexivity.
  assert (Hb1 : ExecuteOrder.balance a1
                = ExecuteOrder.balance a
                  + spec_balanceChange (ExecuteOrder.side o) k)
    by reflexivity.
  assert (Hl1 : ExecuteOrder._lastExecution o1
                = Some (ExecuteOrder.LastExecution.mk q now1))
    by reflexivity.
  intros _ Hroom.
  rewrite NumberFacts.ltb_ofZ in Hroom by (unfold Number.safe in *; lia).
  apply Z.ltb_lt in Hroom.
  assert (Hs2 : safeCall now2 o1 a1 q).
  { unfold safeCall. rewrite HQ1, Hb1, Hl1, Hf1.
    split; [done|]. split; [done|]. split; [done|]. split; [lia|].
    split; [|split].
    - destruct (ExecuteOrder.side o); cbn; unfold Number.safe in *; lia.
    - destruct (ExecuteOrder.side o); cbn; unfold Number.safe in *; lia.
    - done. }
  rewrite (executeOrder64_lift now2 o1 a1 q Hs2); cbn [fst].
  rewrite filledQuantity64_lift.
  pose proof (ExecuteOrderFacts.executeOrder_fill_bounds now2 o1 a1 q) as Hb2.
  cbn zeta in Hb2.
  assert (Hne : ExecuteOrder.filledQuantity o1
                ≠ ExecuteOrder.filledQuantity o) by lia.
  specialize (Hex Hne Hw Hroom).
  rewrite NumberFacts.ltb_ofZ by (unfold Number.safe in *; lia).
  by apply Z.ltb_lt.
Qed.

Lemma X13_executeOrder_repeats_after_window_witness :
  safeCall 1000 ExecuteOrder.buy10 (ExecuteOrder.mkAccount 100) 4 ∧
  Number.safe 1100 ∧ Number.safe (1100 - 1000) ∧
  Number.safe (ExecuteOrder.balance (ExecuteOrder.mkAccount 100)
               - 2 * ExecuteOrder.quantity ExecuteOrder.buy10) ∧
  Number.safe (ExecuteOrder.balance (ExecuteOrder.mkAccount 100)
               + 2 * ExecuteOrder.quantity ExecuteOrder.buy10) ∧
  100 ≤ 1100 - 1000 ∧
  let '(o1, a1) :=
    ExecuteOrder64.executeOrder (Number.ofZ 1000)
      (liftSidedOrder ExecuteOrder.buy10)
      (liftSidedAccount (ExecuteOrder.mkAccount 100)) (Number.ofZ 4) in
  Number.eqb (ExecuteOrder64.filledQuantity o1)
             (ExecuteOrder64.filledQuantity
                (liftSidedOrder ExecuteOrder.buy10)) = false ∧
  Number.ltb (ExecuteOrder64.filledQuantity o1)
             (ExecuteOrder64.quantity o1) = true ∧
  Number.ltb (ExecuteOrder64.filledQuantity o1)
    (ExecuteOrder64.filledQuantity
       (ExecuteOrder64.executeOrder (Number.ofZ 1100) o1 a1 (Number.ofZ 4)).1)
  = true.
Proof.
  assert (H2 : Number.safe 1100) by (unfold Number.safe; lia).
  assert (H3 : Number.safe (1100 - 1000)) by (unfold Number.safe; lia).
  assert (H4 : Number.safe (ExecuteOrder.balance (ExecuteOrder.mkAccount 100)
               - 2 * ExecuteOrder.quantity ExecuteOrder.buy10))
    by (unfold Number.safe; cbn; lia).
  assert (H5 : Number.safe (ExecuteOrder.balance (ExecuteOrder.mkAccount 100)
               + 2 * ExecuteOrder.quantity ExecuteOrder.buy10))
    by (unfold Number.safe; cbn; lia).
  assert (H6 : 100 ≤ 1100 - 1000) by lia.
  pose proof (X13_executeOrder_repeats_after_window 1000 1100
                ExecuteOrder.buy10 (ExecuteOrder.mkAccount 100) 4
                safeCall_buy10 H2 H3 H4 H5 H6) as H.
  split; [exact safeCall_buy10|]. split; [exact H2|]. split; [exact H3|].
  split; [exact H4|]. split; [exact H5|]. split; [exact H6|].
  destruct (ExecuteOrder64.executeOrder (Number.ofZ 1000)
      (liftSidedOrder ExecuteOrder.buy10)
      (liftSidedAccount (ExecuteOrder.mkAccount 100)) (Number.ofZ 4))
    as [o1 a1] eqn:He.
  assert (H7 : Number.eqb (ExecuteOrder64.filledQuantity o1)
             (ExecuteOrder64.filledQuantity
                (liftSidedOrder ExecuteOrder.buy10)) = false).
  { vm_compute in He. injection He as <- <-. by vm_compute. }
  assert (H8 : Number.ltb (ExecuteOrder64.filledQuantity o1)
             (ExecuteOrder64.quantity o1) = true).
  { vm_compute in He. injection He as <- <-. by vm_compute. }
  split; [exact H7|]. split; [exact H8 | exact (H H7 H8)].
Defined.

(** * [ExecutionConsumer] on binary64 numbers *)

Lemma consumer_apply_fixed this evt :
  quantity (Consumer.order (Consumer.apply this evt).1)
  = quantity (Consumer.order this) ∧
  Consumer.initialBalance (Consumer.apply this evt).1
  = Consumer.initialBalance this ∧
  balance (Consumer.account (Consumer.apply this evt).1)
    + filledQuantity (Consumer.order (Consumer.apply this evt).1)
  = balance (Consumer.account this) + filledQuantity (Consumer.order this).
Proof.
  destruct (ConsumerFacts.apply_cases this evt) as [[why ->]|[_ ->]];
    [done|].
  cbn [fst Consumer.order Consumer.account Consumer.initialBalance balance].
  destruct (updateStatus_quantities
              (addFilled (Consumer.order this)
                 (Consumer.effectiveOf this evt))) as (-> & -> & _).
  cbn. split; [done|]. split; [done|]. lia.
Qed.

Lemma consumer_applyAll_fixed this evts :
  quantity (Consumer.order (Consumer.applyAll this evts))
  = quantity (Consumer.order this) ∧
  Consumer.initialBalance (Consumer.applyAll this evts)
  = Consumer.initialBalance this ∧
  balance (Consumer.account (Consumer.applyAll this evts))
    + filledQuantity (Consumer.order (Consumer.applyAll this evts))
  = balance (Consumer.account this) + filledQuantity (Consumer.order this).
Proof.
  revert this. induction evts as [|evt rest IH]; intros this; [done|].
  cbn [Consumer.applyAll].
  destruct (IH (Consumer.apply this evt).1) as (-> & -> & ->).
  apply consumer_apply_fixed.
Qed.

(** One call of [apply] from related consumers. *)
Lemma simConsumer_step f this evt :
  simConsumer f this → bounded (Consumer.order this) →
  Number.safe (quantity (Consumer.order this)) →
  Number.safe (balance (Consumer.account this)) →
  Number.safe (balance (Consumer.account this)
               - (quantity (Consumer.order this)
                  - filledQuantity (Consumer.order this))) →
  safeEvent evt →
  simConsumer (Consumer64.apply f (liftEvent evt)).1
              (Consumer.apply this evt).1.
Proof.
  destruct f as [fo fa fs fac frc fib].
  intros (Ho & Ha & Hs & Hi) Hb Hq Hbal Hlow He.
  cbn [Consumer64.order Consumer64.account Consumer64.seen
       Consumer64.initialBalance] in Ho, Ha, Hs, Hi. subst fo fa fs fib.
  destruct (bounded_safe _ Hb Hq) as [[_ Hf] Hrem].
  unfold Consumer64.apply, Consumer.apply.
  cbn [Consumer64.order Consumer64.account Consumer64.seen
       Consumer64.initialBalance Consumer64.appliedCount
       Consumer64.rejectedCount liftEvent liftOrder liftAccount
       F64.eventId F64.orderId F64.executedQuantity F64.id F64.status
       F64.quantity F64.filledQuantity F64.balance].
  change Number.zero with (Number.ofZ 0).
  rewrite NumberFacts.leb_ofZ by (done || apply safe_0).
  destruct (bool_decide (eventId evt ∈ Consumer.seen this)); [done|].
  destruct (decide (orderId evt ≠ id (Consumer.order this))); [done|].
  destruct (decide (executedQuantity evt ≤ 0)) as [Hle|Hgt].
  { by rewrite (proj2 (Z.leb_le _ _) Hle). }
  rewrite (proj2 (Z.leb_gt _ _)) by lia.
  destruct (decide (status (Consumer.order this) = FILLED)); [done|].
  set (k := Z.min (executedQuantity evt)
              (quantity (Consumer.order this)
               - filledQuantity (Consumer.order this))).
  assert (Hk : Number.safe k ∧
               Number.safe (filledQuantity (Consumer.order this) + k) ∧
               Number.safe (balance (Consumer.account this) - k)).
  { unfold k, bounded, safeEvent, Number.safe in *. lia. }
  destruct Hk as (Hk & Hfk & Hbk).
  rewrite NumberFacts.sub_ofZ, NumberFacts.min_ofZ by done. fold k.
  change {| F64.id := id (Consumer.order this);
            F64.quantity := Number.ofZ (quantity (Consumer.order this));
            F64.filledQuantity :=
              Number.ofZ (filledQuantity (Consumer.order this));
            F64.status := status (Consumer.order this) |}
    with (liftOrder (Consumer.order this)).
  rewrite liftOrder_updateStatus, NumberFacts.sub_ofZ by done.
  done.
Qed.

Lemma simConsumer_applyAll f this evts :
  simConsumer f this → consistent (Consumer.order this) →
  Number.safe (quantity (Consumer.order this)) →
  Number.safe (Consumer.initialBalance this) →
  balance (Consumer.account this) ≤ Consumer.initialBalance this →
  Number.safe (balance (Consumer.account this)
               - (quantity (Consumer.order this)
                  - filledQuantity (Consumer.order this))) →
  Forall safeEvent evts →
  simConsumer (Consumer64.applyAll f (liftEvent <$> evts))
              (Consumer.applyAll this evts).
Proof.
  intros Hsim Hc Hq Hi Hle Hlow Hall. revert f this Hsim Hc Hq Hi Hle Hlow.
  induction Hall as [|evt rest He _ IH]; intros f this Hsim Hc Hq Hi Hle Hlow;
    [done|].
  rewrite fmap_cons. cbn [Consumer64.applyAll Consumer.applyAll].
  pose proof Hc as (_ & Hb & _).
  assert (Hbal : Number.safe (balance (Consumer.account this)))
    by (unfold bounded, Number.safe in *; lia).
  destruct (ConsumerFacts.apply_keeps_healthy this evt Hc Hle) as [Hc' Hle'].
  destruct (consumer_apply_fixed this evt) as (Hq' & Hi' & Hcons).
  apply IH.
  - by apply simConsumer_step.
  - done.
  - by rewrite Hq'.
  - by rewrite Hi'.
  - done.
  - rewrite Hq'. eapply eq_ind; [exact Hlow|]. lia.
Qed.

Lemma healthy_passes_assertInvariants64 f this :
  simConsumer f this → consistent (Consumer.order this) →
  Number.safe (quantity (Consumer.order this)) →
  Number.safe (Consumer.initialBalance this) →
  Number.safe (balance (Consumer.account this)) →
  balance (Consumer.account this) ≤ Consumer.initialBalance this →
  Consumer64.assertInvariants f = None.
Proof.
  destruct f as [fo fa fs fac frc fib].
  intros (Ho & Ha & Hs & Hi) (Hpos & Hb & Hst) Hq Hsi Hbal Hle.
  cbn [Consumer64.order Consumer64.account Consumer64.seen
       Consumer64.initialBalance] in Ho, Ha, Hs, Hi. subst fo fa fs fib.
  destruct (bounded_safe _ Hb Hq) as [[_ Hf] _].
  unfold Consumer64.assertInvariants.
  cbn [Consumer64.order Consumer64.account Consumer64.initialBalance
       liftOrder liftAccount F64.status F64.quantity F64.filledQuantity
       F64.balance].
  change Number.zero with (Number.ofZ 0).
  rewrite !NumberFacts.ltb_ofZ, !NumberFacts.eqb_ofZ
    by (done || apply safe_0).
  unfold spec_status in Hst.
  rewrite (proj2 (Z.ltb_ge _ _)) by lia.
  rewrite (proj2 (Z.ltb_ge _ _)) by lia.
  rewrite (proj2 (Z.ltb_ge (Consumer.initialBalance this) _)) by lia.
  destruct (Z.eqb_spec (filledQuantity (Consumer.order this)) 0),
    (Z.ltb_spec 0 (filledQuantity (Consumer.order this))),
    (Z.ltb_spec (filledQuantity (Consumer.order this))
       (quantity (Consumer.order this))),
    (Z.eqb_spec (filledQuantity (Consumer.order this))
       (quantity (Consumer.order this)));
    repeat case_decide; cbn; try done;
    exfalso; first [ lia | congruence ].
Qed.

(** X16: on safe integers a consumer built on a consistent order never
    fails its own check: after any list of events [assertInvariants]
    returns without throwing. *)
Theorem X16_assertInvariants_never_throws (o : Order) (a : Account)
    (evts : list ExecutionEvent) :
  consistent o → Number.safe (quantity o) → Number.safe (balance a) →
  Number.safe (balance a - (quantity o - filledQuantity o)) →
  Forall safeEvent evts →
  Consumer64.assertInvariants
    (Consumer64.applyAll (Consumer64.new (liftOrder o) (liftAccount a))
       (liftEvent <$> evts)) = None.
Proof.
  intros Hc Hq Hbal Hlow Hall.
  assert (Hsim : simConsumer (Consumer64.new (liftOrder o) (liftAccount a))
                   (Consumer.new o a))
    by (split; [|split; [|split]]; reflexivity).
  pose proof (simConsumer_applyAll _ _ evts Hsim Hc Hq Hbal
                (Z.le_refl _) Hlow Hall) as Hsim'.
  destruct (ConsumerFacts.applyAll_keeps_healthy (Consumer.new o a) evts Hc
              (Z.le_refl _)) as [Hc' Hle'].
  pose proof (consumer_applyAll_fixed (Consumer.new o a) evts) as Hfix.
  cbn [Consumer.new Consumer.order Consumer.account Consumer.initialBalance]
    in Hfix.
  destruct Hfix as (Hq' & Hi' & Hcons).
  pose proof Hc' as (_ & Hb' & _). rewrite Hq' in Hb'.
  pose proof Hc as (_ & Hb & _).
  apply (healthy_passes_assertInvariants64 _ _ Hsim' Hc').
  - by rewrite Hq'.
  - by rewrite Hi'.
  - unfold bounded, Number.safe in *. lia.
  - done.
Qed.

Lemma X16_assertInvariants_never_throws_witness :
  consistent order10 ∧ Number.safe (quantity order10) ∧
  Number.safe (balance (mkAccount 100)) ∧
  Number.safe (balance (mkAccount 100)
               - (quantity order10 - filledQuantity order10)) ∧
  Forall safeEvent [E1; E1; E2; E3] ∧
  Consumer64.assertInvariants
    (Consumer64.applyAll
       (Consumer64.new (liftOrder order10) (liftAccount (mkAccount 100)))
       (liftEvent <$> [E1; E1; E2; E3])) = None.
Proof.
  assert (H2 : Number.safe (quantity order10))
    by (unfold Number.safe; cbn; lia).
  assert (H3 : Number.safe (balance (mkAccount 100)))
    by (unfold Number.safe; cbn; lia).
  assert (H4 : Number.safe (balance (mkAccount 100)
               - (quantity order10 - filledQuantity order10)))
    by (unfold Number.safe; cbn; lia).
  assert (H5 : Forall safeEvent [E1; E1; E2; E3])
    by (repeat constructor; apply safe_small_event; cbn; lia).
  split; [exact ConsumerFacts.order10_consistent|].
  split; [exact H2|]. split; [exact H3|]. split; [exact H4|].
  split; [exact H5|].
  exact (X16_assertInvariants_never_throws order10 (mkAccount 100)
           [E1; E1; E2; E3] ConsumerFacts.order10_consistent H2 H3 H4 H5).
Defined.

(** * The mock engine on binary64 numbers *)

Lemma mock_updateStatus64_lift o k :
  Number.safe (quantity o) → Number.safe (filledQuantity o) →
  Number.safe k → Number.safe (filledQuantity o + k) →
  MockEngine64.updateStatus (F64.addFilled (liftOrder o) (Number.ofZ k))
  = liftOrder (MockEngine.updateStatus (addFilled o k)).
Proof.
  intros Hq Hf Hk Hs.
  unfold MockEngine64.updateStatus, F64.addFilled, MockEngine.updateStatus,
    addFilled, liftOrder; cbn.
  rewrite NumberFacts.add_ofZ by done.
  rewrite NumberFacts.eqb_ofZ by done.
  destruct (Z.eqb_spec (filledQuantity o + k) (quantity o)).
  - by rewrite decide_True by done.
  - by rewrite decide_False by done.
Qed.

(** On bounded orders with safe quantities the mock engine and its exact
    model take the same step. *)
Lemma mock64_lift s evt :
  map_Forall (λ _ o, bounded o ∧ Number.safe (quantity o))
    (MockEngine.orders s) →
  safeEvent evt →
  MockEngine64.applyExecution (liftState s) (liftEvent evt)
  = (liftState (MockEngine.applyExecution s evt).1,
     (MockEngine.applyExecution s evt).2).
Proof.
  intros Hall He.
  unfold MockEngine64.applyExecution, MockEngine.applyExecution.
  cbn [liftState MockEngine64.orders MockEngine64.processedEventIds
       MockEngine64.broadcasts liftEvent F64.eventId F64.orderId
       F64.executedQuantity].
  destruct (bool_decide (eventId evt ∈ MockEngine.processedEventIds s));
    [done|].
  rewrite lookup_fmap.
  destruct (MockEngine.orders s !! orderId evt) as [order|] eqn:Ho;
    cbn [fmap option_fmap option_map]; [|done].
  destruct (Hall _ _ Ho) as [Hb Hq].
  destruct (bounded_safe _ Hb Hq) as [[_ Hf] Hrem].
  change Number.zero with (Number.ofZ 0).
  rewrite NumberFacts.leb_ofZ by (done || apply safe_0).
  destruct (decide (executedQuantity evt ≤ 0)) as [Hle|Hgt].
  { by rewrite (proj2 (Z.leb_le _ _) Hle). }
  rewrite (proj2 (Z.leb_gt _ _)) by lia.
  cbn [liftOrder F64.status F64.quantity F64.filledQuantity].
  destruct (decide (status order = FILLED)); [done|].
  set (k := Z.min (executedQuantity evt)
              (quantity order - filledQuantity order)).
  assert (Hk : Number.safe k ∧ Number.safe (filledQuantity order + k)).
  { unfold k, bounded, safeEvent, Number.safe in *. lia. }
  destruct Hk as (Hk & Hfk).
  rewrite NumberFacts.sub_ofZ, NumberFacts.min_ofZ by done. fold k.
  change {| F64.id := id order;
            F64.quantity := Number.ofZ (quantity order);
            F64.filledQuantity := Number.ofZ (filledQuantity order);
            F64.status := status order |}
    with (liftOrder order).
  rewrite mock_updateStatus64_lift by done.
  rewrite NumberFacts.ltb_ofZ by done.
  cbn [fst snd]. f_equal.
  - unfold liftState; cbn [MockEngine.orders MockEngine.processedEventIds
                           MockEngine.broadcasts].
    rewrite fmap_insert, fmap_app. done.
  - destruct (decide (k < executedQuantity evt)).
    + by rewrite (proj2 (Z.ltb_lt _ _)).
    + by rewrite (proj2 (Z.ltb_ge _ _)) by lia.
Qed.

Lemma mock_bounded_safe s evt :
  map_Forall (λ _ o, bounded o ∧ Number.safe (quantity o))
    (MockEngine.orders s) →
  map_Forall (λ _ o, bounded o ∧ Number.safe (quantity o))
    (MockEngine.orders (MockEngine.applyExecution s evt).1).
Proof.
  intros Hall.
  destruct (MockEngineFacts.mock_applyExecution_cases s evt)
    as [[why ->]|(order & k & Hid & Ho & Hq & Hk & ->)]; cbn [fst]; [done|].
  cbn [MockEngine.orders]. apply map_Forall_insert_2; [|done].
  destruct (Hall _ _ Ho) as [Hb HQ]. unfold bounded in *.
  destruct (MockEngineFacts.updateStatus_fields (addFilled order k))
    as [-> ->].
  cbn. split; [lia | done].
Qed.

(** X21: on safe integers, when every order of the map has its fill level
    within [0 .. quantity], so it has after a call, whatever the event. *)
Theorem X21_mock_no_overfill (s : MockEngine.State) (evt : ExecutionEvent) :
  map_Forall (λ _ o, bounded o ∧ Number.safe (quantity o))
    (MockEngine.orders s) →
  safeEvent evt →
  map_Forall (λ _ fo, F64.bounded fo)
    (MockEngine64.orders
       (MockEngine64.applyExecution (liftState s) (liftEvent evt)).1).
Proof.
  intros Hall He. rewrite (mock64_lift s evt Hall He); cbn [fst].
  cbn [liftState MockEngine64.orders]. apply map_Forall_fmap.
  eapply map_Forall_impl; [apply (mock_bounded_safe s evt Hall)|].
  intros i o [Hb Hq]. cbn. apply bounded_lift; [|done].
  by apply bounded_safe.
Qed.

Lemma X21_mock_no_overfill_witness :
  map_Forall (λ _ o, bounded o ∧ Number.safe (quantity o))
    (MockEngine.orders (MockEngine.initial {[ "O1" := order8 ]})) ∧
  safeEvent E2 ∧
  map_Forall (λ _ fo, F64.bounded fo)
    (MockEngine64.orders
       (MockEngine64.applyExecution
          (liftState (MockEngine.initial {[ "O1" := order8 ]}))
          (liftEvent E2)).1).
Proof.
  assert (H : map_Forall (λ _ o, bounded o ∧ Number.safe (quantity o))
                (MockEngine.orders (MockEngine.initial {[ "O1" := order8 ]}))).
  { cbn. apply map_Forall_singleton. unfold bounded, Number.safe; cbn. lia. }
  assert (He : safeEvent E2) by (apply safe_small_event; cbn; lia).
  split; [exact H|]. split; [exact He|].
  exact (X21_mock_no_overfill _ E2 H He).
Defined.
